(** * dostobot: a shallow embedding of the decision pipeline

    The Go packages [matcher], [monitor], [poster], [embedder] and
    [scheduler] are embedded function by function.  Go strings are byte
    sequences ([list ascii]); Go [int] is a 64-bit integer carried in [Z]
    with its wrap-around written where the code does arithmetic on
    caller-supplied values; [float32] and [float64] are the IEEE-754
    binary32 and binary64 formats of [SpecFloat]; a Go [(T, error)] pair
    is a [result]; a run-time panic is an explicit outcome. *)

From Stdlib Require Import ZArith List String Ascii Bool Lia Permutation Sorted.
From Stdlib Require Import DecimalString.
From Stdlib Require Import Floats.SpecFloat.
Import ListNotations.
Open Scope Z_scope.

Set Warnings "-register-all".

(* ================================================================== *)
(** * The Go runtime as far as the program uses it *)
(* ================================================================== *)

(** A Go string: an immutable sequence of bytes. *)
Abbreviation gostring := (list ascii) (only parsing).

Definition str (s : string) : gostring := list_ascii_of_string s.

Definition byte_val (c : ascii) : Z := Z.of_N (N_of_ascii c).

Definition byte_of (z : Z) : ascii := ascii_of_N (Z.to_N (z mod 256)).

(** [len(s)] *)
Definition len {A} (l : list A) : Z := Z.of_nat (List.length l).

Definition gostring_eqb (a b : gostring) : bool :=
  if list_eq_dec ascii_dec a b then true else false.

(** The double quote character, which cannot stand in a literal here. *)
Definition dq : gostring := [ascii_of_nat 34].

(** Go's [int] on the 64-bit targets the bot is built for. *)
Definition wrap64 (z : Z) : Z := (z + 2 ^ 63) mod 2 ^ 64 - 2 ^ 63.

Definition add64 (a b : Z) : Z := wrap64 (a + b).

Definition sub64 (a b : Z) : Z := wrap64 (a - b).

(** [error] values: the [database/sql] sentinel, [errors.New] and
    [fmt.Errorf] without a wrapped cause, and [fmt.Errorf("ctx: %w", err)]. *)
Inductive error : Type :=
| ErrNoRows
| errorString (msg : string)
| wrapError (ctx : string) (cause : error).

(** A Go [(T, error)] return: the value is meaningful only when the error
    is nil. *)
Inductive result (A : Type) : Type :=
| Ok (a : A)
| Err (e : error).

Arguments Ok {A} a.
Arguments Err {A} e.

(** What a call does: it returns, or the runtime panics. *)
Inductive outcome (A : Type) : Type :=
| Returned (a : A)
| Panicked (why : string).

Arguments Returned {A} a.
Arguments Panicked {A} why.

Definition is_ok {A} (r : result A) : bool :=
  match r with Ok _ => true | Err _ => false end.

Definition is_err {A} (r : result A) : bool := negb (is_ok r).

(* ================================================================== *)
(** * unicode/utf8 *)
(* ================================================================== *)

Module utf8.

Definition RuneError : Z := 65533.

Definition RuneSelf : Z := 128.

Definition MaxRune : Z := 1114111.

(** The table [first] with [acceptRanges]: what a leading byte announces. *)
Inductive lead : Type :=
| LeadASCII
| LeadInvalid
| LeadMulti (size : nat) (lo hi : Z).

Definition first (b : Z) : lead :=
  if b <? 128 then LeadASCII
  else if b <? 194 then LeadInvalid
  else if b <? 224 then LeadMulti 2 128 191
  else if b =? 224 then LeadMulti 3 160 191
  else if b <? 237 then LeadMulti 3 128 191
  else if b =? 237 then LeadMulti 3 128 159
  else if b <? 240 then LeadMulti 3 128 191
  else if b =? 240 then LeadMulti 4 144 191
  else if b <? 244 then LeadMulti 4 128 191
  else if b =? 244 then LeadMulti 4 128 143
  else LeadInvalid.

Definition cont (b : Z) : bool := (128 <=? b) && (b <=? 191).

(** [DecodeRuneInString]: the rune at the front of [s] and its width; an
    invalid or short encoding is [RuneError] of width 1. *)
Definition DecodeRuneInString (s : gostring) : Z * nat :=
  match s with
  | [] => (RuneError, 0%nat)
  | c0 :: t =>
    let s0 := byte_val c0 in
    match first s0 with
    | LeadASCII => (s0, 1%nat)
    | LeadInvalid => (RuneError, 1%nat)
    | LeadMulti sz lo hi =>
      if (List.length s <? sz)%nat then (RuneError, 1%nat)
      else
        match t with
        | c1 :: t1 =>
          let s1 := byte_val c1 in
          if (s1 <? lo) || (hi <? s1) then (RuneError, 1%nat)
          else if (sz <=? 2)%nat then
            (Z.lor (Z.shiftl (Z.land s0 31) 6) (Z.land s1 63), 2%nat)
          else
            match t1 with
            | c2 :: t2 =>
              let s2 := byte_val c2 in
              if negb (cont s2) then (RuneError, 1%nat)
              else if (sz <=? 3)%nat then
                (Z.lor (Z.lor (Z.shiftl (Z.land s0 15) 12)
                              (Z.shiftl (Z.land s1 63) 6))
                       (Z.land s2 63), 3%nat)
              else
                match t2 with
                | c3 :: _ =>
                  let s3 := byte_val c3 in
                  if negb (cont s3) then (RuneError, 1%nat)
                  else
                    (Z.lor (Z.lor (Z.lor (Z.shiftl (Z.land s0 7) 18)
                                         (Z.shiftl (Z.land s1 63) 12))
                                  (Z.shiftl (Z.land s2 63) 6))
                           (Z.land s3 63), 4%nat)
                | [] => (RuneError, 1%nat)
                end
            | [] => (RuneError, 1%nat)
            end
        | [] => (RuneError, 1%nat)
        end
    end
  end.

(** [[]rune(s)], which is also what [for _, c := range s] visits. *)
Fixpoint runes (s : gostring) : list Z :=
  match s with
  | [] => []
  | _ :: t1 =>
    let (r, w) := DecodeRuneInString s in
    match w, t1 with
    | 2%nat, _ :: t2 => r :: runes t2
    | 3%nat, _ :: _ :: t3 => r :: runes t3
    | 4%nat, _ :: _ :: _ :: t4 => r :: runes t4
    | _, _ => r :: runes t1
    end
  end.

Definition RuneCountInString (s : gostring) : Z := len (runes s).

(** [AppendRune]: the UTF-8 encoding of [r]; a surrogate or a value out of
    range is written as [RuneError]. *)
Definition enc3 (r : Z) : gostring :=
  [byte_of (Z.lor 224 (Z.shiftr r 12));
   byte_of (Z.lor 128 (Z.land (Z.shiftr r 6) 63));
   byte_of (Z.lor 128 (Z.land r 63))].

Definition EncodeRune (r : Z) : gostring :=
  if (0 <=? r) && (r <=? 127) then [byte_of r]
  else if (0 <=? r) && (r <=? 2047) then
    [byte_of (Z.lor 192 (Z.shiftr r 6)); byte_of (Z.lor 128 (Z.land r 63))]
  else if (r <? 0) || (MaxRune <? r) || ((55296 <=? r) && (r <=? 57343)) then
    enc3 RuneError
  else if r <=? 65535 then enc3 r
  else
    [byte_of (Z.lor 240 (Z.shiftr r 18));
     byte_of (Z.lor 128 (Z.land (Z.shiftr r 12) 63));
     byte_of (Z.lor 128 (Z.land (Z.shiftr r 6) 63));
     byte_of (Z.lor 128 (Z.land r 63))].

(** [string(rs)] for a rune slice. *)
Definition string_of_runes (rs : list Z) : gostring := flat_map EncodeRune rs.

End utf8.

(* ================================================================== *)
(** * strings *)
(* ================================================================== *)

Module strings.

Fixpoint HasPrefix (s prefix : gostring) {struct prefix} : bool :=
  match prefix, s with
  | [], _ => true
  | p :: ps, c :: cs => Ascii.eqb p c && HasPrefix cs ps
  | _ :: _, [] => false
  end.

(** [Index]: the byte offset of the first occurrence of [substr], or -1. *)
Fixpoint Index (s substr : gostring) : Z :=
  if HasPrefix s substr then 0
  else
    match s with
    | [] => -1
    | _ :: t => let r := Index t substr in if r <? 0 then -1 else r + 1
    end.

Definition Contains (s substr : gostring) : bool := 0 <=? Index s substr.

(** [LastIndex]: the byte offset of the last occurrence of [substr], or -1. *)
Fixpoint LastIndex (s substr : gostring) : Z :=
  match s with
  | [] => match substr with [] => 0 | _ :: _ => -1 end
  | _ :: t =>
    let r := LastIndex t substr in
    if 0 <=? r then r + 1
    else if HasPrefix s substr then 0 else -1
  end.

Definition in_cutset (cutset : gostring) (c : ascii) : bool :=
  existsb (Ascii.eqb c) cutset.

(** [TrimRight] for the cutsets this program passes, which are ASCII: the
    bytes of the cutset are removed from the end, one byte at a time. *)
Fixpoint TrimRight (s cutset : gostring) : gostring :=
  match s with
  | [] => []
  | c :: t =>
    match TrimRight t cutset with
    | [] => if in_cutset cutset c then [] else [c]
    | t' => c :: t'
    end
  end.

Definition isASCII (s : gostring) : bool :=
  forallb (fun c => byte_val c <? utf8.RuneSelf) s.

Definition lower_byte (c : ascii) : ascii :=
  let b := byte_val c in
  if (65 <=? b) && (b <=? 90) then byte_of (b + 32) else c.

(** [Map]: every rune of [s] is replaced by its image, a negative image
    drops the rune, and an invalid byte is read as [RuneError]. *)
Definition write_mapped (mapping : Z -> Z) (c : Z) : gostring :=
  let r := mapping c in
  if 0 <=? r then utf8.EncodeRune r else [].

Definition Map (mapping : Z -> Z) (s : gostring) : gostring :=
  flat_map (write_mapped mapping) (utf8.runes s).

Section Unicode.

(** The lower-case mapping of [unicode.ToLower] above U+007F comes from the
    Unicode tables of the Go distribution, which are no part of this
    program: it is a parameter. *)
Variable lowerTable : Z -> Z.

Definition unicode_ToLower (r : Z) : Z :=
  if r <=? 127 then (if (65 <=? r) && (r <=? 90) then r + 32 else r)
  else lowerTable r.

(** [ToLower]: bytewise on an ASCII string, rune by rune otherwise. *)
Definition ToLower (s : gostring) : gostring :=
  if isASCII s then map lower_byte s else Map unicode_ToLower s.

End Unicode.

End strings.

(* ================================================================== *)
(** * Floating point: IEEE-754 binary32 and binary64 *)
(* ================================================================== *)

Module float.

(** A [float32] or [float64] value in the representation of [SpecFloat];
    the operations below keep mantissas aligned to their format. *)
Abbreviation float32 := spec_float.

Abbreviation float64 := spec_float.

Definition signed (s : bool) (m : positive) : Z :=
  if s then Zneg m else Zpos m.

(** [float64(x)] of a [float32]: exact, the mantissa re-aligned to 53 bits. *)
Definition to64 (x : float32) : float64 :=
  match x with
  | S754_finite s m e => binary_normalize 53 1024 (signed s m) e s
  | _ => x
  end.

(** [float32(x)] of a [float64]: rounded to the nearest binary32 value,
    ties to even, overflowing to an infinity. *)
Definition to32 (x : float64) : float32 :=
  match x with
  | S754_finite s m e => binary_normalize 24 128 (signed s m) e s
  | _ => x
  end.

Definition zero : spec_float := S754_zero false.

(** The value nearest to [m * 10 ^ e], for a decimal constant of the source
    and for [strconv.ParseFloat]. *)
Definition of_decimal (prec emax : Z) (neg : bool) (m : positive) (e : Z)
  : spec_float :=
  if 0 <=? e then binary_normalize prec emax (signed neg (m * Z.to_pos (10 ^ e))) 0 neg
  else SFdiv prec emax (S754_finite neg m 0)
                       (S754_finite false (Z.to_pos (10 ^ (- e))) 0).

Definition is_nan (x : spec_float) : bool :=
  match x with S754_nan => true | _ => false end.

(** Go's comparison operators on floats: false whenever an operand is NaN. *)
Definition eqb (x y : spec_float) : bool := SFeqb x y.

Definition ltb (x y : spec_float) : bool := SFltb x y.

Definition gtb (x y : spec_float) : bool := SFltb y x.

Definition geb (x y : spec_float) : bool := SFleb y x.

End float.

(* ================================================================== *)
(** * sort *)
(* ================================================================== *)

Module sort.

(** What [less] must be for [sort.Slice] to promise an order: a strict weak
    ordering of the elements being sorted. *)
Definition strict_weak_on {A} (less : A -> A -> bool) (l : list A) : Prop :=
  (forall x, In x l -> less x x = false) /\
  (forall x y z, In x l -> In y l -> In z l ->
     less x y = true -> less y z = true -> less x z = true) /\
  (forall x y z, In x l -> In y l -> In z l ->
     less x y = false -> less y z = false -> less x z = false).

(** No element is [less] than one that stands before it. *)
Definition ordered {A} (less : A -> A -> bool) (l : list A) : Prop :=
  StronglySorted (fun x y => less y x = false) l.

(** [sort.Slice(x, less)] by its documentation: the slice is rearranged
    into order; "the sort is not guaranteed to be stable: equal elements
    may be reversed from their original order".  The algorithm belongs to
    the Go distribution, so the program is verified against this contract
    and every sorter that honours it. *)
Class Sorter : Type := {
  Slice : forall A : Type, (A -> A -> bool) -> list A -> list A;
  Slice_perm : forall A (less : A -> A -> bool) l,
    Permutation l (Slice A less l);
  Slice_ordered : forall A (less : A -> A -> bool) l,
    strict_weak_on less l -> ordered less (Slice A less l)
}.

Arguments Slice {Sorter} {A} less l.

(** A sorting procedure that honours the contract: insertion after the
    equal elements, which keeps them in their original order. *)
Fixpoint insert_after {A} (less : A -> A -> bool) (x : A) (l : list A)
  : list A :=
  match l with
  | [] => [x]
  | y :: t => if less x y then x :: y :: t else y :: insert_after less x t
  end.

Definition stable_sort {A} (less : A -> A -> bool) (l : list A) : list A :=
  fold_left (fun acc x => insert_after less x acc) l [].

(** ** [sort.Slice] as the Go distribution implements it

    [sort.Slice] runs [pdqsort_func] (pattern-defeating quicksort) on the
    whole slice.  A range of at most 12 elements is sorted by insertion;
    a longer one is partitioned around the median of three of its
    elements and the parts are sorted in turn.  The slice is a list,
    [data.Less(i, j)] and [data.Swap(i, j)] read and exchange its
    elements.

    The model follows the algorithm on slices of fewer than 50 elements,
    as long as the partitions are balanced and the pivot is not equal to
    the element before the range.  Past that the algorithm scatters
    elements with a pseudo-random generator ([breakPatterns_func]), falls
    back to heap sort, partitions around equal elements or takes the
    median of medians: there the model gives [None]. *)
Section Pdqsort.

Context {A : Type}.

Variable less : A -> A -> bool.

Fixpoint store (data : list A) (n : nat) (x : A) : list A :=
  match data, n with
  | [], _ => []
  | _ :: t, O => x :: t
  | y :: t, S n' => y :: store t n' x
  end.

Definition Less (data : list A) (i j : Z) : bool :=
  if (i <? 0) || (j <? 0) then false
  else
    match nth_error data (Z.to_nat i), nth_error data (Z.to_nat j) with
    | Some x, Some y => less x y
    | _, _ => false
    end.

Definition Swap (data : list A) (i j : Z) : list A :=
  if (i <? 0) || (j <? 0) then data
  else
    match nth_error data (Z.to_nat i), nth_error data (Z.to_nat j) with
    | Some x, Some y => store (store data (Z.to_nat i) y) (Z.to_nat j) x
    | _, _ => data
    end.

(** [for j := i; j > a && data.Less(j, j-1); j-- { data.Swap(j, j-1) }],
    at most [n] times. *)
Fixpoint insert_down (n : nat) (data : list A) (a j : Z) : list A :=
  match n with
  | O => data
  | S n' =>
    if (a <? j) && Less data j (j - 1)
    then insert_down n' (Swap data j (j - 1)) a (j - 1)
    else data
  end.

(** [for i := a + 1; i < b; i++ { ... }], from [i], at most [n] times. *)
Fixpoint insertion_from (n : nat) (data : list A) (a b i : Z) : list A :=
  match n with
  | O => data
  | S n' =>
    if i <? b
    then insertion_from n' (insert_down (Z.to_nat (i - a)) data a i) a b (i + 1)
    else data
  end.

Definition insertionSort_func (data : list A) (a b : Z) : list A :=
  insertion_from (Z.to_nat (b - a)) data a b (a + 1).

(** [order2_func]: the two indices in order, and the count of swaps. *)
Definition order2_func (data : list A) (a b swaps : Z) : Z * Z * Z :=
  if Less data b a then (b, a, swaps + 1) else (a, b, swaps).

(** [median_func]: the index of the median of three elements. *)
Definition median_func (data : list A) (a b c swaps : Z) : Z * Z :=
  let '(a, b, swaps) := order2_func data a b swaps in
  let '(b, c, swaps) := order2_func data b c swaps in
  let '(a, b, swaps) := order2_func data a b swaps in
  (b, swaps).

(** [choosePivot_func] on a range of fewer than 50 elements: the pivot,
    and whether the three elements it looked at were in order. *)
Definition choosePivot_func (data : list A) (a b : Z) : Z * bool :=
  let l := b - a in
  let i := a + Z.quot l 4 * 1 in
  let j := a + Z.quot l 4 * 2 in
  let k := a + Z.quot l 4 * 3 in
  let '(j, swaps) := if 8 <=? l then median_func data i j k 0 else (j, 0) in
  (j, swaps =? 0).

(** [for i < b && !data.Less(i, i-1) { i++ }], at most [n] times. *)
Fixpoint sorted_up_to (n : nat) (data : list A) (b i : Z) : Z :=
  match n with
  | O => i
  | S n' =>
    if (i <? b) && negb (Less data i (i - 1))
    then sorted_up_to n' data b (i + 1)
    else i
  end.

(** [partialInsertionSort_func] on a range of fewer than 50 elements:
    whether the range is in order; it moves nothing. *)
Definition partialInsertionSort_func (data : list A) (a b : Z) : bool :=
  sorted_up_to (Z.to_nat (b - a)) data b (a + 1) =? b.

(** [for i <= j && data.Less(i, a) { i++ }], at most [n] times. *)
Fixpoint skip_less (n : nat) (data : list A) (a i j : Z) : Z :=
  match n with
  | O => i
  | S n' =>
    if (i <=? j) && Less data i a then skip_less n' data a (i + 1) j else i
  end.

(** [for i <= j && !data.Less(j, a) { j-- }], at most [n] times. *)
Fixpoint skip_not_less (n : nat) (data : list A) (a i j : Z) : Z :=
  match n with
  | O => j
  | S n' =>
    if (i <=? j) && negb (Less data j a)
    then skip_not_less n' data a i (j - 1)
    else j
  end.

(** The loop of [partition_func], at most [n] times. *)
Fixpoint partition_loop (n : nat) (data : list A) (a i j : Z)
  : list A * Z :=
  match n with
  | O => (data, j)
  | S n' =>
    let i := skip_less (Z.to_nat (j - i + 1)) data a i j in
    let j := skip_not_less (Z.to_nat (j - i + 1)) data a i j in
    if j <? i then (data, j)
    else partition_loop n' (Swap data i j) a (i + 1) (j - 1)
  end.

(** [partition_func]: the slice with the elements less than the pivot
    before it and the others after it, the place of the pivot, and
    whether the range was partitioned already. *)
Definition partition_func (data : list A) (a b pivot : Z)
  : list A * Z * bool :=
  let data := Swap data a pivot in
  let i := a + 1 in
  let j := b - 1 in
  let i := skip_less (Z.to_nat (j - i + 1)) data a i j in
  let j := skip_not_less (Z.to_nat (j - i + 1)) data a i j in
  if j <? i then (Swap data j a, j, true)
  else
    let data := Swap data i j in
    let '(data, j) :=
      partition_loop (Z.to_nat (b - a)) data a (i + 1) (j - 1) in
    (Swap data j a, j, false).

(** [pdqsort_func(data, a, b, limit)], the loop and the recursive call, at
    most [n] deep. *)
Fixpoint pdqsort_func (n : nat) (data : list A) (a b : Z)
         (wasBalanced wasPartitioned : bool) : option (list A) :=
  match n with
  | O => None
  | S n' =>
    let length := b - a in
    if length <=? 12 then Some (insertionSort_func data a b)
    else if (50 <=? length) || negb wasBalanced then None
    else
      let '(pivot, increasing) := choosePivot_func data a b in
      if wasBalanced && wasPartitioned && increasing
         && partialInsertionSort_func data a b
      then Some data
      else if (0 <? a) && negb (Less data (a - 1) pivot) then None
      else
        let '(data, mid, alreadyPartitioned) :=
          partition_func data a b pivot in
        let leftLen := mid - a in
        let rightLen := b - mid in
        let balanceThreshold := Z.quot length 8 in
        if leftLen <? rightLen then
          match pdqsort_func n' data a mid true true with
          | None => None
          | Some data =>
            pdqsort_func n' data (mid + 1) b
                         (balanceThreshold <=? leftLen) alreadyPartitioned
          end
        else
          match pdqsort_func n' data (mid + 1) b true true with
          | None => None
          | Some data =>
            pdqsort_func n' data a mid
                         (balanceThreshold <=? rightLen) alreadyPartitioned
          end
  end.

(** [sort.Slice(x, less)] *)
Definition GoSlice (data : list A) : option (list A) :=
  pdqsort_func (S (List.length data)) data 0 (len data) true true.

End Pdqsort.

End sort.

(* ================================================================== *)
(** * internal/embedder: similarity of embeddings *)
(* ================================================================== *)

Module embedder.

Import float.

(** The arithmetic [CosineSimilarity] and [Normalize] are written in:
    the two conversions [float64(x)] and [float32(x)], and the [float64]
    operations, in binary64, each operation rounded on its own (no fused
    multiply-add, as the compiler emits for amd64). *)
Definition widen (x : float32) : float64 := to64 x.

Definition narrow (x : float64) : float32 := to32 x.

Definition fadd (x y : float64) : float64 := SFadd 53 1024 x y.

Definition fmul (x y : float64) : float64 := SFmul 53 1024 x y.

Definition fdiv (x y : float64) : float64 := SFdiv 53 1024 x y.

Definition fsqrt (x : float64) : float64 := SFsqrt 53 1024 x.

(** [x == 0] *)
Definition is_zero (x : float64) : bool := eqb x zero.

(** The three accumulators of the loop of [CosineSimilarity]. *)
Definition cos_step (acc : float64 * float64 * float64) (xy : float32 * float32)
  : float64 * float64 * float64 :=
  let '(dotProduct, normA, normB) := acc in
  let '(x, y) := xy in
  (fadd dotProduct (fmul (widen x) (widen y)),
   fadd normA (fmul (widen x) (widen x)),
   fadd normB (fmul (widen y) (widen y))).

Definition cos_sums (a b : list float32) : float64 * float64 * float64 :=
  fold_left cos_step (combine a b) (zero, zero, zero).

Definition CosineSimilarity (a b : list float32) : float32 :=
  if negb (List.length a =? List.length b)%nat then zero
  else
    let '(dotProduct, normA, normB) := cos_sums a b in
    if is_zero normA || is_zero normB then zero
    else narrow (fdiv dotProduct (fmul (fsqrt normA) (fsqrt normB))).

Definition norm_sq (embedding : list float32) : float64 :=
  fold_left (fun norm v => fadd norm (fmul (widen v) (widen v))) embedding zero.

Definition Normalize (embedding : list float32) : list float32 :=
  let norm := norm_sq embedding in
  if is_zero norm then embedding
  else
    let norm := fsqrt norm in
    map (fun v => narrow (fdiv (widen v) norm)) embedding.

End embedder.

(* ================================================================== *)
(** * internal/db: the relational store *)
(* ================================================================== *)

Module db.

(** [sql.NullString], [sql.NullInt64], ...: [None] is SQL NULL. *)
Definition Null (A : Type) : Type := option A.

(** The [String] field of a [sql.NullString] read from a row. *)
Definition String_of (s : Null gostring) : gostring :=
  match s with Some x => x | None => [] end.

(** [sql.NullString{String: s, Valid: s != ""}] *)
Definition null_if_empty (s : gostring) : Null gostring :=
  match s with [] => None | _ :: _ => Some s end.

(** The rows of the tables [quotes], [trends] and [posts], column by
    column; a timestamp is a number of seconds. *)
Record Quote : Type := {
  Quote_ID : Z;
  Text : gostring;
  TextHash : gostring;
  SourceBook : gostring;
  Chapter : Null gostring;
  Character : Null gostring;
  Themes : gostring;
  ModernRelevance : Null gostring;
  Embedding : Null (list ascii);
  CharCount : Z;
  TimesPosted : Null Z;
  LastPostedAt : Null Z;
  Quote_CreatedAt : Null Z
}.

Record Trend : Type := {
  Trend_ID : Z;
  Source : gostring;
  ExternalID : Null gostring;
  Title : gostring;
  Url : Null gostring;
  Description : Null gostring;
  Score : Null Z;
  Trend_Embedding : Null (list ascii);
  Matched : Null bool;
  Skipped : Null bool;
  SkipReason : Null gostring;
  DetectedAt : Null Z
}.

Record Post : Type := {
  Post_ID : Z;
  QuoteID : Z;
  Platform : gostring;
  PlatformPostID : Null gostring;
  PostUrl : Null gostring;
  TrendID : Null Z;
  TrendTitle : gostring;
  TrendSource : gostring;
  TrendHash : gostring;
  RelevanceScore : float.float64;
  RelevanceReasoning : Null gostring;
  VectorSimilarity : float.float64;
  Likes : Null Z;
  Reposts : Null Z;
  Replies : Null Z;
  PostedAt : Null Z
}.

Record CreateTrendParams : Type := {
  ct_Source : gostring;
  ct_ExternalID : Null gostring;
  ct_Title : gostring;
  ct_Url : Null gostring;
  ct_Description : Null gostring;
  ct_Score : Null Z
}.

Record CreatePostParams : Type := {
  cp_QuoteID : Z;
  cp_Platform : gostring;
  cp_PlatformPostID : Null gostring;
  cp_PostUrl : Null gostring;
  cp_TrendID : Null Z;
  cp_TrendTitle : gostring;
  cp_TrendSource : gostring;
  cp_TrendHash : gostring;
  cp_RelevanceScore : float.float64;
  cp_RelevanceReasoning : Null gostring;
  cp_VectorSimilarity : float.float64
}.

(** The state behind a [*db.Store].  [clock] is what CURRENT_TIMESTAMP
    reads.  [faults] scripts the statements to come: the n-th statement
    fails with the driver's error when the n-th entry is [Some]; past the
    end of the script no statement fails. *)
Record Store : Type := {
  quotes : list Quote;
  trends : list Trend;
  posts : list Post;
  trends_seq : Z;
  posts_seq : Z;
  clock : Z;
  faults : list (option error)
}.

Definition with_faults (st : Store) (f : list (option error)) : Store :=
  {| quotes := quotes st; trends := trends st; posts := posts st;
     trends_seq := trends_seq st; posts_seq := posts_seq st;
     clock := clock st; faults := f |}.

Definition with_trends (st : Store) (ts : list Trend) (seq : Z) : Store :=
  {| quotes := quotes st; trends := ts; posts := posts st;
     trends_seq := seq; posts_seq := posts_seq st;
     clock := clock st; faults := faults st |}.

Definition with_posts (st : Store) (ps : list Post) (seq : Z) : Store :=
  {| quotes := quotes st; trends := trends st; posts := ps;
     trends_seq := trends_seq st; posts_seq := seq;
     clock := clock st; faults := faults st |}.

Definition with_quotes (st : Store) (qs : list Quote) : Store :=
  {| quotes := qs; trends := trends st; posts := posts st;
     trends_seq := trends_seq st; posts_seq := posts_seq st;
     clock := clock st; faults := faults st |}.

(** A statement is sent: the script says whether the driver fails it. *)
Definition statement (st : Store) : option error * Store :=
  match faults st with
  | [] => (None, st)
  | f :: rest => (f, with_faults st rest)
  end.

(** SQL [a = b] where either side may be NULL: true only for two equal
    non-NULL values. *)
Definition sql_eq (a b : Null gostring) : bool :=
  match a, b with
  | Some x, Some y => gostring_eqb x y
  | _, _ => false
  end.

Definition is_false (b : Null bool) : bool :=
  match b with Some false => true | _ => false end.

(** -- name: GetQuote :one
    SELECT * FROM quotes WHERE id = ? LIMIT 1; *)
Definition GetQuote (st : Store) (id : Z) : result Quote * Store :=
  match statement st with
  | (Some e, st') => (Err e, st')
  | (None, st') =>
    match find (fun q => Quote_ID q =? id) (quotes st') with
    | Some q => (Ok q, st')
    | None => (Err ErrNoRows, st')
    end
  end.

(** -- name: ListQuotesWithEmbeddings :many
    SELECT * FROM quotes WHERE embedding IS NOT NULL ORDER BY id; *)
Definition has_embedding (q : Quote) : bool :=
  match Embedding q with Some _ => true | None => false end.

(** -- name: UpdateQuotePosted :exec
    UPDATE quotes SET times_posted = times_posted + 1,
    last_posted_at = CURRENT_TIMESTAMP WHERE id = ?; *)
Definition bump_posted (now : Z) (q : Quote) : Quote :=
  {| Quote_ID := Quote_ID q; Text := Text q; TextHash := TextHash q;
     SourceBook := SourceBook q; Chapter := Chapter q;
     Character := Character q; Themes := Themes q;
     ModernRelevance := ModernRelevance q; Embedding := Embedding q;
     CharCount := CharCount q;
     TimesPosted := option_map (fun n => n + 1) (TimesPosted q);
     LastPostedAt := Some now; Quote_CreatedAt := Quote_CreatedAt q |}.

Definition UpdateQuotePosted (st : Store) (id : Z) : result unit * Store :=
  match statement st with
  | (Some e, st') => (Err e, st')
  | (None, st') =>
    (Ok tt,
     with_quotes st'
       (map (fun q => if Quote_ID q =? id then bump_posted (clock st') q else q)
            (quotes st')))
  end.

(** -- name: CountPostsToday :one
    SELECT COUNT( * ) FROM posts WHERE platform = ? AND posted_at >= date('now'); *)
Definition start_of_day (now : Z) : Z := now / 86400 * 86400.

Definition posted_today (now : Z) (platform : gostring) (p : Post) : bool :=
  gostring_eqb (Platform p) platform &&
  match PostedAt p with
  | Some t => start_of_day now <=? t
  | None => false
  end.

Definition CountPostsToday (st : Store) (platform : gostring)
  : result Z * Store :=
  match statement st with
  | (Some e, st') => (Err e, st')
  | (None, st') =>
    (Ok (len (filter (posted_today (clock st') platform) (posts st'))), st')
  end.

(** -- name: CreatePost :one
    INSERT INTO posts (...) VALUES (...) RETURNING *;
    with the unique index idx_posts_trend_platform on (trend_hash, platform)
    and the two foreign keys (PRAGMA foreign_keys=ON). *)
Definition post_conflicts (arg : CreatePostParams) (p : Post) : bool :=
  gostring_eqb (TrendHash p) (cp_TrendHash arg) &&
  gostring_eqb (Platform p) (cp_Platform arg).

Definition post_refs_ok (st : Store) (arg : CreatePostParams) : bool :=
  existsb (fun q => Quote_ID q =? cp_QuoteID arg) (quotes st) &&
  match cp_TrendID arg with
  | Some t => existsb (fun r => Trend_ID r =? t) (trends st)
  | None => true
  end.

Definition CreatePost (st : Store) (arg : CreatePostParams)
  : result Post * Store :=
  match statement st with
  | (Some e, st') => (Err e, st')
  | (None, st') =>
    if existsb (post_conflicts arg) (posts st') then
      (Err (errorString "UNIQUE constraint failed: posts.trend_hash, posts.platform"), st')
    else if negb (post_refs_ok st' arg) then
      (Err (errorString "FOREIGN KEY constraint failed"), st')
    else
      let row :=
        {| Post_ID := posts_seq st' + 1; QuoteID := cp_QuoteID arg;
           Platform := cp_Platform arg;
           PlatformPostID := cp_PlatformPostID arg;
           PostUrl := cp_PostUrl arg; TrendID := cp_TrendID arg;
           TrendTitle := cp_TrendTitle arg;
           TrendSource := cp_TrendSource arg;
           TrendHash := cp_TrendHash arg;
           RelevanceScore := cp_RelevanceScore arg;
           RelevanceReasoning := cp_RelevanceReasoning arg;
           VectorSimilarity := cp_VectorSimilarity arg;
           Likes := Some 0; Reposts := Some 0; Replies := Some 0;
           PostedAt := Some (clock st') |} in
      (Ok row, with_posts st' (posts st' ++ [row]) (posts_seq st' + 1))
  end.

(** -- name: GetTrendBySourceAndExternalID :one
    SELECT * FROM trends WHERE source = ? AND external_id = ? LIMIT 1; *)
Definition trend_matches (source : gostring) (external : Null gostring)
           (t : Trend) : bool :=
  gostring_eqb (Source t) source && sql_eq (ExternalID t) external.

Definition GetTrendBySourceAndExternalID (st : Store) (source : gostring)
           (external : Null gostring) : result Trend * Store :=
  match statement st with
  | (Some e, st') => (Err e, st')
  | (None, st') =>
    match find (trend_matches source external) (trends st') with
    | Some t => (Ok t, st')
    | None => (Err ErrNoRows, st')
    end
  end.

(** -- name: CreateTrend :one
    INSERT INTO trends (source, external_id, title, url, description, score)
    VALUES (?, ?, ?, ?, ?, ?) RETURNING *;
    with the unique index idx_trends_source_external on
    (source, external_id), in which NULLs are distinct from each other. *)
Definition CreateTrend (st : Store) (arg : CreateTrendParams)
  : result Trend * Store :=
  match statement st with
  | (Some e, st') => (Err e, st')
  | (None, st') =>
    if existsb (trend_matches (ct_Source arg) (ct_ExternalID arg)) (trends st')
    then
      (Err (errorString "UNIQUE constraint failed: trends.source, trends.external_id"), st')
    else
      let row :=
        {| Trend_ID := trends_seq st' + 1; Source := ct_Source arg;
           ExternalID := ct_ExternalID arg; Title := ct_Title arg;
           Url := ct_Url arg; Description := ct_Description arg;
           Score := ct_Score arg; Trend_Embedding := None;
           Matched := Some false; Skipped := Some false;
           SkipReason := None; DetectedAt := Some (clock st') |} in
      (Ok row, with_trends st' (trends st' ++ [row]) (trends_seq st' + 1))
  end.

(** -- name: UpdateTrendMatched :exec
    UPDATE trends SET matched = TRUE WHERE id = ?; *)
Definition set_matched (t : Trend) : Trend :=
  {| Trend_ID := Trend_ID t; Source := Source t; ExternalID := ExternalID t;
     Title := Title t; Url := Url t; Description := Description t;
     Score := Score t; Trend_Embedding := Trend_Embedding t;
     Matched := Some true; Skipped := Skipped t;
     SkipReason := SkipReason t; DetectedAt := DetectedAt t |}.

Definition UpdateTrendMatched (st : Store) (id : Z) : result unit * Store :=
  match statement st with
  | (Some e, st') => (Err e, st')
  | (None, st') =>
    (Ok tt,
     with_trends st'
       (map (fun t => if Trend_ID t =? id then set_matched t else t) (trends st'))
       (trends_seq st'))
  end.

(** -- name: UpdateTrendSkipped :exec
    UPDATE trends SET skipped = TRUE, skip_reason = ? WHERE id = ?; *)
Definition set_skipped (reason : Null gostring) (t : Trend) : Trend :=
  {| Trend_ID := Trend_ID t; Source := Source t; ExternalID := ExternalID t;
     Title := Title t; Url := Url t; Description := Description t;
     Score := Score t; Trend_Embedding := Trend_Embedding t;
     Matched := Matched t; Skipped := Some true;
     SkipReason := reason; DetectedAt := DetectedAt t |}.

Definition UpdateTrendSkipped (st : Store) (id : Z) (reason : Null gostring)
  : result unit * Store :=
  match statement st with
  | (Some e, st') => (Err e, st')
  | (None, st') =>
    (Ok tt,
     with_trends st'
       (map (fun t => if Trend_ID t =? id then set_skipped reason t else t)
            (trends st'))
       (trends_seq st'))
  end.

Section Ordered.

Context {sorter : sort.Sorter}.

(** -- name: ListQuotesWithEmbeddings :many
    SELECT * FROM quotes WHERE embedding IS NOT NULL ORDER BY id; *)
Definition ListQuotesWithEmbeddings (st : Store) : result (list Quote) * Store :=
  match statement st with
  | (Some e, st') => (Err e, st')
  | (None, st') =>
    (Ok (sort.Slice (fun a b => Quote_ID a <? Quote_ID b)
                    (filter has_embedding (quotes st'))), st')
  end.

(** -- name: ListUnmatchedTrends :many
    SELECT * FROM trends WHERE matched = FALSE AND skipped = FALSE
    ORDER BY detected_at DESC LIMIT ?;
    NULL sorts below every timestamp, and a negative LIMIT is no limit. *)
Definition detected_later (a b : Trend) : bool :=
  match DetectedAt a, DetectedAt b with
  | Some x, Some y => y <? x
  | Some _, None => true
  | None, _ => false
  end.

Definition limit {A} (n : Z) (l : list A) : list A :=
  if n <? 0 then l else firstn (Z.to_nat n) l.

Definition ListUnmatchedTrends (st : Store) (n : Z)
  : result (list Trend) * Store :=
  match statement st with
  | (Some e, st') => (Err e, st')
  | (None, st') =>
    (Ok (limit n
           (sort.Slice detected_later
              (filter (fun t => is_false (Matched t) && is_false (Skipped t))
                      (trends st')))), st')
  end.

End Ordered.

End db.

(* ================================================================== *)
(** * internal/monitor: trends, the safety filter, the aggregator *)
(* ================================================================== *)

Module monitor.

(** A detected trend, as a monitor reports it. *)
Record Trend : Type := {
  Source : gostring;
  ExternalID : gostring;
  Title : gostring;
  URL : gostring;
  Description : gostring;
  Score : Z
}.

(** The [Monitor] interface.  What a source answers comes from the
    network: [FetchTrends] is the answer it gives when it is asked. *)
Record Monitor : Type := {
  Name : gostring;
  FetchTrends : result (list Trend)
}.

(** [SensitiveTopics] *)
Definition SensitiveTopics : list gostring := map str
  [ "trump"; "biden"; "obama"; "clinton"; "putin"; "xi jinping";
    "maga"; "democrat"; "republican"; "liberal"; "conservative";
    "abortion"; "pro-life"; "pro-choice";
    "gun control"; "second amendment"; "2nd amendment";
    "immigration"; "border"; "deportation";
    "lgbtq"; "transgender"; "gay rights";
    "shooting"; "massacre"; "terrorist"; "terrorism";
    "murder"; "killed"; "death toll"; "casualties";
    "suicide"; "self-harm";
    "atheism"; "christian"; "muslim"; "jewish"; "religion debate";
    "nsfw"; "porn"; "sex"; "nude";
    "racist"; "racism"; "nazi"; "white supremac"; "hate crime";
    "ukraine"; "russia war"; "gaza"; "israel"; "hamas";
    "qanon"; "deep state"; "illuminati"; "flat earth";
    "anti-vax"; "plandemic" ]%string.

Record Filter : Type := {
  sensitiveTerms : list gostring;
  minScore : Z
}.

Record FilterConfig : Type := {
  AdditionalTerms : list gostring;
  MinScore : Z
}.

Record FilterResult : Type := {
  Pass : bool;
  Reason : gostring
}.

Section Filtering.

Variable lowerTable : Z -> Z.

Definition NewFilter (cfg : FilterConfig) : Filter :=
  {| sensitiveTerms :=
       map (strings.ToLower lowerTable) (SensitiveTopics ++ AdditionalTerms cfg);
     minScore := MinScore cfg |}.

(** [Check]: the score first, then the first sensitive term found in the
    lower-cased title and description. *)
Definition Check (f : Filter) (trend : Trend) : FilterResult :=
  if (0 <? minScore f) && (Score trend <? minScore f) then
    {| Pass := false; Reason := str "score below threshold" |}
  else
    let text :=
      strings.ToLower lowerTable (Title trend ++ str " " ++ Description trend) in
    match find (fun term => strings.Contains text term) (sensitiveTerms f) with
    | Some term =>
      {| Pass := false; Reason := str "contains sensitive topic: " ++ term |}
    | None => {| Pass := true; Reason := [] |}
    end.

Definition FilterTrends (f : Filter) (trends : list Trend) : list Trend :=
  fold_left (fun result trend =>
               if Pass (Check f trend) then result ++ [trend] else result)
            trends [].

End Filtering.

(** ** The aggregator *)

Record Aggregator : Type := {
  monitors : list Monitor;
  filter : Filter
}.

(** [storeTrend]: look the trend up by (source, external id); insert it
    when the lookup finds no row. *)
Definition storeTrend (st : db.Store) (trend : Trend) : result bool * db.Store :=
  match db.GetTrendBySourceAndExternalID st (Source trend)
                                         (Some (ExternalID trend)) with
  | (Ok _, st1) => (Ok false, st1)
  | (Err ErrNoRows, st1) =>
    match db.CreateTrend st1
            {| db.ct_Source := Source trend;
               db.ct_ExternalID := db.null_if_empty (ExternalID trend);
               db.ct_Title := Title trend;
               db.ct_Url := db.null_if_empty (URL trend);
               db.ct_Description := db.null_if_empty (Description trend);
               db.ct_Score := Some (Score trend) |} with
    | (Ok _, st2) => (Ok true, st2)
    | (Err e, st2) => (Err (wrapError "create trend" e), st2)
    end
  | (Err e, st1) => (Err (wrapError "check existing" e), st1)
  end.

(** The first loop of [FetchAndStore]: a failing monitor is skipped. *)
Definition fetch_all (ms : list Monitor) : list Trend :=
  fold_left (fun allTrends m =>
               match FetchTrends m with
               | Ok trends => allTrends ++ trends
               | Err _ => allTrends
               end) ms [].

(** The last loop of [FetchAndStore]: a trend that cannot be stored is
    skipped, a trend that is stored is new. *)
Definition store_step (acc : list Trend * db.Store) (trend : Trend)
  : list Trend * db.Store :=
  let (newTrends, st) := acc in
  match storeTrend st trend with
  | (Ok true, st') => (newTrends ++ [trend], st')
  | (Ok false, st') => (newTrends, st')
  | (Err _, st') => (newTrends, st')
  end.

Section Aggregating.

Variable lowerTable : Z -> Z.

Definition FetchAndStore (a : Aggregator) (st : db.Store)
  : result (list Trend) * db.Store :=
  let allTrends := fetch_all (monitors a) in
  let filtered := FilterTrends lowerTable (filter a) allTrends in
  let (newTrends, st') := fold_left store_step filtered ([], st) in
  (Ok newTrends, st').

End Aggregating.

Section Listing.

Context {sorter : sort.Sorter}.

Definition GetUnmatchedTrends (st : db.Store) (limit : Z)
  : result (list db.Trend) * db.Store :=
  db.ListUnmatchedTrends st limit.

End Listing.

(** [truncate] of the Reddit monitor: [s[:maxLen-3] + "..."] for a string
    longer than [maxLen]; the slice expression panics on a bound that is
    negative or past the end of the string. *)
Definition truncate (s : gostring) (maxLen : Z) : outcome gostring :=
  if len s <=? maxLen then Returned s
  else
    let hi := sub64 maxLen 3 in
    if (hi <? 0) || (len s <? hi) then Panicked "slice bounds out of range"
    else Returned (firstn (Z.to_nat hi) s ++ str "...").

Section Hashing.

(** [sha256.Sum256], of the Go distribution. *)
Variable Sum256 : gostring -> list ascii.

Definition hex_digit (n : Z) : ascii :=
  if n <? 10 then byte_of (48 + n) else byte_of (87 + n).

(** [hex.EncodeToString] *)
Definition hex_encode (bs : list ascii) : gostring :=
  flat_map (fun b => [hex_digit (byte_val b / 16); hex_digit (byte_val b mod 16)]) bs.

(** [HashTrend]: the first 16 bytes of the digest of source:id:title. *)
Definition HashTrend (trend : Trend) : gostring :=
  let data := Source trend ++ str ":" ++ ExternalID trend ++ str ":" ++ Title trend in
  hex_encode (firstn 16 (Sum256 data)).

End Hashing.

End monitor.

(* ================================================================== *)
(** * encoding/json, as [json.Unmarshal] decodes the selector's results *)
(* ================================================================== *)

Module json.

(** ** The lexical layer: what the scanner of [checkValid] accepts *)

Inductive token : Type :=
| TLBrace | TRBrace | TLBrack | TRBrack | TColon | TComma
| TString (raw : gostring)
| TNumber (lit : gostring)
| TTrue | TFalse | TNull.

Definition one_of (c : ascii) (s : string) : bool :=
  existsb (Ascii.eqb c) (list_ascii_of_string s).

Definition is_space (c : ascii) : bool :=
  let b := byte_val c in (b =? 32) || (b =? 9) || (b =? 13) || (b =? 10).

Definition is_digit (c : ascii) : bool := one_of c "0123456789".

Definition is_hex (c : ascii) : bool := one_of c "0123456789abcdefABCDEF".

Definition is_dq (c : ascii) : bool := byte_val c =? 34.

Definition is_backslash (c : ascii) : bool := byte_val c =? 92.

(** The characters of a string up to its closing quote, escapes still
    written out, and what follows the quote. *)
Fixpoint lex_string (s : gostring) : option (gostring * gostring) :=
  match s with
  | [] => None
  | c :: t =>
    if is_dq c then Some ([], t)
    else if is_backslash c then
      match t with
      | e :: t1 =>
        if is_dq e || is_backslash e || one_of e "/bfnrt" then
          match lex_string t1 with
          | Some (raw, rest) => Some (c :: e :: raw, rest)
          | None => None
          end
        else if one_of e "u" then
          match t1 with
          | h1 :: h2 :: h3 :: h4 :: t2 =>
            if is_hex h1 && is_hex h2 && is_hex h3 && is_hex h4 then
              match lex_string t2 with
              | Some (raw, rest) =>
                Some (c :: e :: h1 :: h2 :: h3 :: h4 :: raw, rest)
              | None => None
              end
            else None
          | _ => None
          end
        else None
      | [] => None
      end
    else if byte_val c <? 32 then None
    else
      match lex_string t with
      | Some (raw, rest) => Some (c :: raw, rest)
      | None => None
      end
  end.

Fixpoint span_digits (s : gostring) : gostring * gostring :=
  match s with
  | c :: t =>
    if is_digit c then let (ds, rest) := span_digits t in (c :: ds, rest)
    else ([], s)
  | [] => ([], [])
  end.

Definition lex_exponent (acc s : gostring) : option (gostring * gostring) :=
  match s with
  | e :: t1 =>
    if one_of e "eE" then
      let (sg, t2) :=
        match t1 with
        | c :: t2 => if one_of c "+-" then ([c], t2) else ([], t1)
        | [] => ([], t1)
        end in
      match span_digits t2 with
      | ([], _) => None
      | (ds, rest) => Some (acc ++ e :: sg ++ ds, rest)
      end
    else Some (acc, s)
  | [] => Some (acc, s)
  end.

Definition lex_fraction (acc s : gostring) : option (gostring * gostring) :=
  match s with
  | d :: t1 =>
    if one_of d "." then
      match span_digits t1 with
      | ([], _) => None
      | (ds, rest) => lex_exponent (acc ++ d :: ds) rest
      end
    else lex_exponent acc s
  | [] => Some (acc, s)
  end.

(** A number: an optional minus; a zero, or a non-zero digit and more
    digits; an optional fraction (a point and digits); an optional exponent
    (e or E, an optional sign, digits). *)
Definition lex_number (s : gostring) : option (gostring * gostring) :=
  let (sign, s1) :=
    match s with
    | c :: t => if one_of c "-" then ([c], t) else ([], s)
    | [] => ([], s)
    end in
  match s1 with
  | d :: t =>
    if one_of d "0" then lex_fraction (sign ++ [d]) t
    else if is_digit d then
      let (ds, rest) := span_digits t in lex_fraction (sign ++ d :: ds) rest
    else None
  | [] => None
  end.

Fixpoint strip_prefix (p s : gostring) : option gostring :=
  match p, s with
  | [], _ => Some s
  | a :: p', b :: s' => if Ascii.eqb a b then strip_prefix p' s' else None
  | _ :: _, [] => None
  end.

(** The tokens of a text; every round takes at least one byte, so a fuel
    of one more than the length of the text is never used up. *)
Fixpoint lex (fuel : nat) (s : gostring) : option (list token) :=
  match fuel with
  | O => None
  | S fuel' =>
    match s with
    | [] => Some []
    | c :: t =>
      let cons_tok (tok : token) (rest : gostring) :=
        match lex fuel' rest with
        | Some toks => Some (tok :: toks)
        | None => None
        end in
      if is_space c then lex fuel' t
      else if one_of c "{" then cons_tok TLBrace t
      else if one_of c "}" then cons_tok TRBrace t
      else if one_of c "[" then cons_tok TLBrack t
      else if one_of c "]" then cons_tok TRBrack t
      else if one_of c ":" then cons_tok TColon t
      else if one_of c "," then cons_tok TComma t
      else if is_dq c then
        match lex_string t with
        | Some (raw, rest) => cons_tok (TString raw) rest
        | None => None
        end
      else if one_of c "-" || is_digit c then
        match lex_number s with
        | Some (lit, rest) => cons_tok (TNumber lit) rest
        | None => None
        end
      else if one_of c "t" then
        match strip_prefix (str "true") s with
        | Some rest => cons_tok TTrue rest
        | None => None
        end
      else if one_of c "f" then
        match strip_prefix (str "false") s with
        | Some rest => cons_tok TFalse rest
        | None => None
        end
      else if one_of c "n" then
        match strip_prefix (str "null") s with
        | Some rest => cons_tok TNull rest
        | None => None
        end
      else None
    end
  end.

Definition tokens (s : gostring) : option (list token) :=
  lex (S (List.length s)) s.

(** ** The grammar *)

Inductive value : Type :=
| JNull
| JBool (b : bool)
| JNumber (lit : gostring)
| JString (raw : gostring)
| JArray (elems : list value)
| JObject (members : list (gostring * value)).

(** [maxNestingDepth] of the scanner. *)
Definition maxNestingDepth : Z := 10000.

(** A value at the front of the tokens, [depth] arrays and objects being
    open around it.  Every call takes at least one token, so a fuel of
    twice the number of tokens plus two is never used up. *)
Fixpoint parse_value (fuel : nat) (depth : Z) (toks : list token)
  : option (value * list token) :=
  match fuel with
  | O => None
  | S fuel' =>
    match toks with
    | TNull :: r => Some (JNull, r)
    | TTrue :: r => Some (JBool true, r)
    | TFalse :: r => Some (JBool false, r)
    | TNumber lit :: r => Some (JNumber lit, r)
    | TString raw :: r => Some (JString raw, r)
    | TLBrack :: r =>
      if maxNestingDepth <? depth + 1 then None
      else
        match r with
        | TRBrack :: r' => Some (JArray [], r')
        | _ =>
          match parse_elems fuel' (depth + 1) r with
          | Some (vs, r') => Some (JArray vs, r')
          | None => None
          end
        end
    | TLBrace :: r =>
      if maxNestingDepth <? depth + 1 then None
      else
        match r with
        | TRBrace :: r' => Some (JObject [], r')
        | _ =>
          match parse_members fuel' (depth + 1) r with
          | Some (kvs, r') => Some (JObject kvs, r')
          | None => None
          end
        end
    | _ => None
    end
  end
with parse_elems (fuel : nat) (depth : Z) (toks : list token)
  : option (list value * list token) :=
  match fuel with
  | O => None
  | S fuel' =>
    match parse_value fuel' depth toks with
    | Some (v, TComma :: r) =>
      match parse_elems fuel' depth r with
      | Some (vs, r') => Some (v :: vs, r')
      | None => None
      end
    | Some (v, TRBrack :: r) => Some ([v], r)
    | _ => None
    end
  end
with parse_members (fuel : nat) (depth : Z) (toks : list token)
  : option (list (gostring * value) * list token) :=
  match fuel with
  | O => None
  | S fuel' =>
    match toks with
    | TString key :: TColon :: r =>
      match parse_value fuel' depth r with
      | Some (v, TComma :: r') =>
        match parse_members fuel' depth r' with
        | Some (kvs, r'') => Some ((key, v) :: kvs, r'')
        | None => None
        end
      | Some (v, TRBrace :: r') => Some ([(key, v)], r')
      | _ => None
      end
    | _ => None
    end
  end.

(** The one value a valid text holds. *)
Definition parse (s : gostring) : option value :=
  match tokens s with
  | Some toks =>
    match parse_value (2 * List.length toks + 2) 0 toks with
    | Some (v, []) => Some v
    | _ => None
    end
  | None => None
  end.

(** ** Decoding into the result structure of [EvaluateBatch] *)

Definition hex_val (c : ascii) : Z :=
  let b := byte_val c in
  if b <=? 57 then b - 48 else if b <=? 70 then b - 55 else b - 87.

Definition u4 (h1 h2 h3 h4 : ascii) : Z :=
  ((hex_val h1 * 16 + hex_val h2) * 16 + hex_val h3) * 16 + hex_val h4.

(** [getu4]: the code unit of a \uXXXX escape at the front of [s], or -1. *)
Definition getu4 (s : gostring) : Z :=
  match s with
  | b :: u :: h1 :: h2 :: h3 :: h4 :: _ =>
    if is_backslash b && one_of u "u" &&
       is_hex h1 && is_hex h2 && is_hex h3 && is_hex h4
    then u4 h1 h2 h3 h4 else -1
  | _ => -1
  end.

Definition IsSurrogate (r : Z) : bool := (55296 <=? r) && (r <? 57344).

(** [utf16.DecodeRune] *)
Definition utf16_DecodeRune (r1 r2 : Z) : Z :=
  if (55296 <=? r1) && (r1 <? 56320) && (56320 <=? r2) && (r2 <? 57344)
  then Z.lor (Z.shiftl (r1 - 55296) 10) (r2 - 56320) + 65536
  else utf8.RuneError.

Definition escape_char (e : ascii) : ascii :=
  if one_of e "b" then byte_of 8
  else if one_of e "f" then byte_of 12
  else if one_of e "n" then byte_of 10
  else if one_of e "r" then byte_of 13
  else if one_of e "t" then byte_of 9
  else e.

(** [unquote]: the string a valid literal denotes.  Escapes are replaced,
    surrogate pairs combined, and what is not UTF-8 becomes U+FFFD. *)
Fixpoint unquote (raw : gostring) : gostring :=
  match raw with
  | [] => []
  | c :: t =>
    if is_backslash c then
      match t with
      | e :: t1 =>
        if one_of e "u" then
          match t1 with
          | h1 :: h2 :: h3 :: h4 :: t2 =>
            let rr := u4 h1 h2 h3 h4 in
            if IsSurrogate rr then
              match t2 with
              | _ :: _ :: _ :: _ :: _ :: _ :: t3 =>
                let dec := utf16_DecodeRune rr (getu4 t2) in
                if dec =? utf8.RuneError
                then utf8.EncodeRune utf8.RuneError ++ unquote t2
                else utf8.EncodeRune dec ++ unquote t3
              | _ => utf8.EncodeRune utf8.RuneError ++ unquote t2
              end
            else utf8.EncodeRune rr ++ unquote t2
          | _ => []
          end
        else escape_char e :: unquote t1
      | [] => []
      end
    else if byte_val c <? utf8.RuneSelf then c :: unquote t
    else
      let (r, w) := utf8.DecodeRuneInString raw in
      match w, t with
      | 2%nat, _ :: t2 => utf8.EncodeRune r ++ unquote t2
      | 3%nat, _ :: _ :: t3 => utf8.EncodeRune r ++ unquote t3
      | 4%nat, _ :: _ :: _ :: t4 => utf8.EncodeRune r ++ unquote t4
      | _, _ => utf8.EncodeRune r ++ unquote t
      end
  end.

(** [foldName]: the key as it is compared with field names when no field
    has exactly that name.  ASCII letters fold to upper case; U+017F and
    U+212A fold to S and K; every other rune folds to a rune outside
    ASCII, which no field name here contains, and is written back as it
    is. *)
Definition fold_rune (r : Z) : Z :=
  if r =? 383 then 83 else if r =? 8490 then 75 else r.

Definition upper_byte (c : ascii) : ascii :=
  let b := byte_val c in
  if (97 <=? b) && (b <=? 122) then byte_of (b - 32) else c.

Fixpoint foldName (key : gostring) : gostring :=
  match key with
  | [] => []
  | c :: t =>
    if byte_val c <? utf8.RuneSelf then upper_byte c :: foldName t
    else
      let (r, w) := utf8.DecodeRuneInString key in
      match w, t with
      | 2%nat, _ :: t2 => utf8.EncodeRune (fold_rune r) ++ foldName t2
      | 3%nat, _ :: _ :: t3 => utf8.EncodeRune (fold_rune r) ++ foldName t3
      | 4%nat, _ :: _ :: _ :: t4 => utf8.EncodeRune (fold_rune r) ++ foldName t4
      | _, _ => utf8.EncodeRune (fold_rune r) ++ foldName t
      end
  end.

(** The field a key selects: the one of that name, else the one whose
    folded name is the folded key. *)
Definition key_is (name : string) (key : gostring) : bool :=
  gostring_eqb key (str name) || gostring_eqb (foldName key) (foldName (str name)).

Definition digits_val (ds : gostring) : Z :=
  fold_left (fun acc c => acc * 10 + (byte_val c - 48)) ds 0.

Definition split_sign (lit : gostring) : bool * gostring :=
  match lit with
  | c :: t => if one_of c "-" then (true, t) else (false, lit)
  | [] => (false, lit)
  end.

(** [strconv.ParseInt(lit, 10, 64)] on a number literal. *)
Definition ParseInt (lit : gostring) : option Z :=
  let (neg, ds) := split_sign lit in
  match ds with
  | [] => None
  | _ :: _ =>
    if forallb is_digit ds then
      let n := if neg then - digits_val ds else digits_val ds in
      if (- 2 ^ 63 <=? n) && (n <? 2 ^ 63) then Some n else None
    else None
  end.

Definition exponent_val (s : gostring) : Z :=
  match s with
  | _ :: c :: t =>
    if one_of c "-" then - digits_val t
    else if one_of c "+" then digits_val t
    else digits_val (c :: t)
  | _ => 0
  end.

(** [strconv.ParseFloat(lit, 64)] on a number literal: the nearest
    binary64 value; a value that rounds to an infinity is out of range. *)
Definition ParseFloat (lit : gostring) : option float.float64 :=
  let (neg, s) := split_sign lit in
  let (ip, s1) := span_digits s in
  let (fp, s2) :=
    match s1 with
    | c :: t => if one_of c "." then span_digits t else ([], s1)
    | [] => ([], s1)
    end in
  let e := exponent_val s2 - len fp in
  match digits_val (ip ++ fp) with
  | Zpos m =>
    match float.of_decimal 53 1024 neg m e with
    | S754_infinity _ => None
    | x => Some x
    end
  | _ => Some (S754_zero neg)
  end.

(** The anonymous structures [EvaluateBatch] decodes into. *)
Record evaluation : Type := {
  ev_Index : Z;
  ev_Score : float.float64;
  ev_Reasoning : gostring
}.

(** A slice under decoding: the elements written so far stay in the array
    behind the slice when its length is reset, and [Unmarshal] decodes the
    next array into them. *)
Record evaluations : Type := {
  backing : list evaluation;
  length : nat
}.

Record batch : Type := {
  b_BestMatchIndex : Z;
  b_Evaluations : evaluations;
  b_Recommendation : gostring
}.

Definition zero_evaluation : evaluation :=
  {| ev_Index := 0; ev_Score := float.zero; ev_Reasoning := [] |}.

Definition zero_batch : batch :=
  {| b_BestMatchIndex := 0;
     b_Evaluations := {| backing := []; length := 0 |};
     b_Recommendation := [] |}.

Definition elems (s : evaluations) : list evaluation :=
  firstn (length s) (backing s).

(** A value stored into a field of kind int, float64 or string: null
    leaves the field as it is, a value of another kind is a type error. *)
Definition store_int (cur : Z) (v : value) : option Z :=
  match v with
  | JNull => Some cur
  | JNumber lit => ParseInt lit
  | _ => None
  end.

Definition store_float (cur : float.float64) (v : value) : option float.float64 :=
  match v with
  | JNull => Some cur
  | JNumber lit => ParseFloat lit
  | _ => None
  end.

Definition store_string (cur : gostring) (v : value) : option gostring :=
  match v with
  | JNull => Some cur
  | JString raw => Some (unquote raw)
  | _ => None
  end.

Definition evaluation_member (acc : option evaluation) (kv : gostring * value)
  : option evaluation :=
  match acc with
  | None => None
  | Some ev =>
    let key := unquote (fst kv) in
    if key_is "index" key then
      option_map (fun n => {| ev_Index := n; ev_Score := ev_Score ev;
                              ev_Reasoning := ev_Reasoning ev |})
                 (store_int (ev_Index ev) (snd kv))
    else if key_is "score" key then
      option_map (fun x => {| ev_Index := ev_Index ev; ev_Score := x;
                              ev_Reasoning := ev_Reasoning ev |})
                 (store_float (ev_Score ev) (snd kv))
    else if key_is "reasoning" key then
      option_map (fun s => {| ev_Index := ev_Index ev; ev_Score := ev_Score ev;
                              ev_Reasoning := s |})
                 (store_string (ev_Reasoning ev) (snd kv))
    else Some ev
  end.

Definition store_evaluation (cur : evaluation) (v : value) : option evaluation :=
  match v with
  | JNull => Some cur
  | JObject members => fold_left evaluation_member members (Some cur)
  | _ => None
  end.

(** The elements of an array, the i-th decoded into what the array behind
    the slice holds at i. *)
Fixpoint store_elements (old : list evaluation) (vs : list value)
  : option (list evaluation) :=
  match vs with
  | [] => Some old
  | v :: vs' =>
    match store_evaluation (hd zero_evaluation old) v with
    | None => None
    | Some ev =>
      match store_elements (tl old) vs' with
      | None => None
      | Some rest => Some (ev :: rest)
      end
    end
  end.

Definition store_evaluations (cur : evaluations) (v : value)
  : option evaluations :=
  match v with
  | JNull => Some {| backing := []; length := 0 |}
  | JArray [] => Some {| backing := []; length := 0 |}
  | JArray vs =>
    option_map (fun b => {| backing := b; length := List.length vs |})
               (store_elements (backing cur) vs)
  | _ => None
  end.

Definition batch_member (acc : option batch) (kv : gostring * value)
  : option batch :=
  match acc with
  | None => None
  | Some b =>
    let key := unquote (fst kv) in
    if key_is "best_match_index" key then
      option_map (fun n => {| b_BestMatchIndex := n;
                              b_Evaluations := b_Evaluations b;
                              b_Recommendation := b_Recommendation b |})
                 (store_int (b_BestMatchIndex b) (snd kv))
    else if key_is "evaluations" key then
      option_map (fun es => {| b_BestMatchIndex := b_BestMatchIndex b;
                               b_Evaluations := es;
                               b_Recommendation := b_Recommendation b |})
                 (store_evaluations (b_Evaluations b) (snd kv))
    else if key_is "recommendation" key then
      option_map (fun s => {| b_BestMatchIndex := b_BestMatchIndex b;
                              b_Evaluations := b_Evaluations b;
                              b_Recommendation := s |})
                 (store_string (b_Recommendation b) (snd kv))
    else Some b
  end.

Definition store_batch (v : value) : option batch :=
  match v with
  | JNull => Some zero_batch
  | JObject members => fold_left batch_member members (Some zero_batch)
  | _ => None
  end.

(** [json.Unmarshal([]byte(s), &result)] for the result structure of
    [EvaluateBatch], [result] being its zero value: a syntax error when
    the text is not one JSON value, a type error when a value does not fit
    its field. *)
Definition Unmarshal (s : gostring) : result batch :=
  match parse s with
  | None => Err (errorString "json: syntax error")
  | Some v =>
    match store_batch v with
    | None => Err (errorString "json: cannot unmarshal value into Go struct field")
    | Some b => Ok b
    end
  end.

End json.

(* ================================================================== *)
(** * internal/poster: the formatter *)
(* ================================================================== *)

Module poster.

Definition BlueskyMaxLength : Z := 300.

Definition emdash : gostring := map byte_of [226; 128; 148].

(** [FormatQuote]: the quote in double quotes, a blank line, the
    attribution. *)
Definition FormatQuote (quoteText sourceBook author : gostring) : gostring :=
  let attribution :=
    if negb (gostring_eqb author []) && negb (gostring_eqb author (str "Narrator"))
    then emdash ++ str " " ++ author ++ str ", " ++ sourceBook
    else emdash ++ str " " ++ sourceBook in
  dq ++ quoteText ++ dq ++ str (String "010" (String "010" EmptyString))
     ++ attribution.

(** [available := maxLen - (4 + len(attribution) + 4)] *)
Definition available (maxLen : Z) (attribution : gostring) : Z :=
  sub64 maxLen (add64 (add64 4 (len attribution)) 4).

Definition cutset : gostring := str " .,;:!?".

(** [TruncateQuote].  The slice expression [runes[:available]] panics on a
    negative bound; [available / 2] truncates toward zero. *)
Definition TruncateQuote (quote : gostring) (maxLen : Z) (attribution : gostring)
  : outcome gostring :=
  let available := available maxLen attribution in
  if utf8.RuneCountInString quote <=? add64 available 3 then Returned quote
  else
    let runes := utf8.runes quote in
    if len runes <=? available then Returned quote
    else if available <? 0 then Panicked "slice bounds out of range"
    else
      let truncated := utf8.string_of_runes (firstn (Z.to_nat available) runes) in
      let lastSpace := strings.LastIndex truncated (str " ") in
      let truncated :=
        if Z.quot available 2 <? lastSpace
        then firstn (Z.to_nat lastSpace) truncated
        else truncated in
      Returned (strings.TrimRight truncated cutset ++ str "...").

Definition FitsInLimit (formatted : gostring) (limit : Z) : bool :=
  utf8.RuneCountInString formatted <=? limit.

End poster.

(* ================================================================== *)
(** * internal/matcher: the in-memory vector index *)
(* ================================================================== *)

Module matcher.

Import embedder.

Record QuoteWithEmbedding : Type := {
  qe_Quote : db.Quote;
  qe_Embedding : list float.float32
}.

Record VectorMatch : Type := {
  Quote : db.Quote;
  Similarity : float.float32
}.

(** The two parallel slices of a [VectorIndex]. *)
Record VectorIndex : Type := {
  quotes : list db.Quote;
  embeddings : list (list float.float32)
}.

Definition NewVectorIndex (quotesWithEmbed : list QuoteWithEmbedding)
  : VectorIndex :=
  {| quotes := map qe_Quote quotesWithEmbed;
     embeddings := map (fun qe => Normalize (qe_Embedding qe)) quotesWithEmbed |}.

Definition Size (v : VectorIndex) : Z := len (quotes v).

(** [scoredQuote]: an index into [quotes] and a similarity. *)
Abbreviation scoredQuote := (nat * float.float32)%type.

(** [scores[i] = scoredQuote{i, CosineSimilarity(q, emb)}] for each stored
    embedding, counting from [i]. *)
Fixpoint score_from (i : nat) (q : list float.float32)
         (embs : list (list float.float32)) : list scoredQuote :=
  match embs with
  | [] => []
  | emb :: rest => (i, CosineSimilarity q emb) :: score_from (S i) q rest
  end.

(** [results[i] = VectorMatch{v.quotes[scores[i].index], ...}]; an index
    out of range panics. *)
Fixpoint pick (qs : list db.Quote) (scores : list scoredQuote)
  : outcome (list VectorMatch) :=
  match scores with
  | [] => Returned []
  | (i, sim) :: rest =>
    match nth_error qs i with
    | None => Panicked "index out of range"
    | Some q =>
      match pick qs rest with
      | Returned ms => Returned ({| Quote := q; Similarity := sim |} :: ms)
      | Panicked why => Panicked why
      end
    end
  end.

(** [scores], as the loop leaves it: an entry for each stored embedding,
    and [scoredQuote{}] for a quote past the embeddings. *)
Definition scores_of (v : VectorIndex) (normalizedQuery : list float.float32)
  : list scoredQuote :=
  score_from 0 normalizedQuery (embeddings v)
  ++ repeat (0%nat, float.zero)
            (List.length (quotes v) - List.length (embeddings v)).

(** [scores[i].similarity > scores[j].similarity] *)
Definition by_similarity (a b : scoredQuote) : bool :=
  float.gtb (snd a) (snd b).

(** The end of [Search], from the sorted scores.
    [make([]VectorMatch, k)] panics when [k] is negative. *)
Definition top (v : VectorIndex) (scores : list scoredQuote) (k : Z)
  : outcome (list VectorMatch) :=
  let k := if len scores <? k then len scores else k in
  if k <? 0 then Panicked "makeslice: len out of range"
  else pick (quotes v) (firstn (Z.to_nat k) scores).

(** [Search] with [sort.Slice] as the Go distribution implements it;
    [None] where the model of the sort does not reach. *)
Definition Search_go (v : VectorIndex) (queryEmbed : list float.float32) (k : Z)
  : option (outcome (list VectorMatch)) :=
  if len (quotes v) =? 0 then Some (Returned [])
  else
    let normalizedQuery := Normalize queryEmbed in
    if len (quotes v) <? len (embeddings v)
    then Some (Panicked "index out of range")
    else
      match sort.GoSlice by_similarity (scores_of v normalizedQuery) with
      | Some scores => Some (top v scores k)
      | None => None
      end.

Section Searching.

Context {sorter : sort.Sorter}.

(** [Search]: the [k] best quotes for a query, with [sort.Slice] taken by
    its contract.  Writing [scores[i]] past [len(v.quotes)] panics. *)
Definition Search (v : VectorIndex) (queryEmbed : list float.float32) (k : Z)
  : outcome (list VectorMatch) :=
  if len (quotes v) =? 0 then Returned []
  else
    let normalizedQuery := Normalize queryEmbed in
    if len (quotes v) <? len (embeddings v) then Panicked "index out of range"
    else
      top v (sort.Slice by_similarity (scores_of v normalizedQuery)) k.

(** The loop of [SearchWithThreshold]: the quotes whose similarity is at
    least the threshold, in index order; [v.quotes[i]] past the end
    panics. *)
Fixpoint above_threshold (qs : list db.Quote) (q : list float.float32)
         (threshold : float.float32) (embs : list (list float.float32))
  : outcome (list VectorMatch) :=
  match embs with
  | [] => Returned []
  | emb :: rest =>
    let sim := CosineSimilarity q emb in
    if float.geb sim threshold then
      match qs with
      | [] => Panicked "index out of range"
      | quote :: qs' =>
        match above_threshold qs' q threshold rest with
        | Returned ms => Returned ({| Quote := quote; Similarity := sim |} :: ms)
        | Panicked why => Panicked why
        end
      end
    else above_threshold (tl qs) q threshold rest
  end.

Definition SearchWithThreshold (v : VectorIndex) (queryEmbed : list float.float32)
           (threshold : float.float32) (maxResults : Z)
  : outcome (list VectorMatch) :=
  if len (quotes v) =? 0 then Returned []
  else
    let normalizedQuery := Normalize queryEmbed in
    match above_threshold (quotes v) normalizedQuery threshold (embeddings v) with
    | Panicked why => Panicked why
    | Returned results =>
      let results :=
        sort.Slice (fun a b => float.gtb (Similarity a) (Similarity b)) results in
      if (0 <? maxResults) && (maxResults <? len results)
      then Returned (firstn (Z.to_nat maxResults) results)
      else Returned results
    end.

End Searching.

(** ** The selector *)

(** [SelectionSystemPrompt] *)
Definition SelectionSystemPrompt : gostring := str
"You are an expert at connecting Dostoyevsky's literary wisdom to contemporary topics. Your task is to evaluate whether a quote would make a thoughtful, relevant social media post in response to a current trending topic.

Guidelines for evaluation:
1. RELEVANCE: The quote should genuinely connect to the topic's themes, not just share keywords
2. TONE: The quote should add thoughtful commentary, not seem opportunistic or inappropriate
3. DEPTH: Prefer quotes that offer insight rather than surface-level connections
4. APPROPRIATENESS: The pairing should not trivialize serious topics or seem insensitive

Rate the match on a scale of 0.0 to 1.0:
- 0.0-0.3: Poor match, irrelevant or inappropriate
- 0.4-0.5: Weak connection, forced or superficial
- 0.6-0.7: Decent match, reasonable thematic connection
- 0.8-0.9: Strong match, insightful and appropriate
- 1.0: Perfect match, profound connection".

(** [BatchSelectionPrompt], cut at its three verbs. *)
Definition BatchSelectionPrompt_0 : gostring := str
"Evaluate these candidate quotes for responding to the following trending topic.

TRENDING TOPIC:
Title: ".

Definition BatchSelectionPrompt_1 : gostring := str "
Description: ".

Definition BatchSelectionPrompt_2 : gostring := str "

CANDIDATE QUOTES:
".

Definition BatchSelectionPrompt_3 : gostring :=
  str "

For each quote, provide a relevance score (0.0-1.0) and brief reasoning.
Return the single best match, or indicate if none are suitable.

Respond with JSON:
{
  " ++ dq ++ str "best_match_index" ++ dq ++ str ": 0-based index or -1 if none suitable,
  " ++ dq ++ str "evaluations" ++ dq ++ str ": [
    {
      " ++ dq ++ str "index" ++ dq ++ str ": 0,
      " ++ dq ++ str "score" ++ dq ++ str ": 0.0-1.0,
      " ++ dq ++ str "reasoning" ++ dq ++ str ": " ++ dq ++ str "brief explanation" ++ dq ++ str "
    }
  ],
  " ++ dq ++ str "recommendation" ++ dq ++ str ": " ++ dq
  ++ str "The best quote is #X because..." ++ dq ++ str " or " ++ dq
  ++ str "None are suitable because..." ++ dq ++ str "
}".

(** [fmt.Sprintf(BatchSelectionPrompt, title, description, quotesList)] *)
Definition BatchSelectionPrompt (title description quotesList : gostring)
  : gostring :=
  BatchSelectionPrompt_0 ++ title ++
  BatchSelectionPrompt_1 ++ description ++
  BatchSelectionPrompt_2 ++ quotesList ++
  BatchSelectionPrompt_3.

(** [%d] *)
Definition itoa (n : Z) : gostring := str (NilZero.string_of_int (Z.to_int n)).

(** One entry of the list of quotes in the prompt. *)
Definition quote_entry (i : Z) (q : db.Quote) : gostring :=
  str "
" ++ itoa (i + 1) ++ str ". " ++ dq ++ db.Text q ++ dq ++ str "
   — From " ++ db.SourceBook q ++ str "
   Themes: " ++ db.Themes q ++ str "
".

Fixpoint quotes_list (i : Z) (qs : list db.Quote) : gostring :=
  match qs with
  | [] => []
  | q :: rest => quote_entry i q ++ quotes_list (i + 1) rest
  end.

Record QuoteEvaluation : Type := {
  Index : Z;
  Score : float.float64;
  Reasoning : gostring
}.

Record BatchEvaluationResult : Type := {
  BestMatchIndex : Z;
  Evaluations : list QuoteEvaluation;
  Recommendation : gostring
}.

(** The loop of [extractJSON]: how many bytes the text reaches to, the
    brace that brings the depth back to zero included. *)
Fixpoint closing_brace (depth : Z) (text : gostring) : option nat :=
  match text with
  | [] => None
  | c :: t =>
    if json.one_of c "{" then option_map S (closing_brace (depth + 1) t)
    else if json.one_of c "}" then
      if depth - 1 =? 0 then Some 1%nat
      else option_map S (closing_brace (depth - 1) t)
    else option_map S (closing_brace depth t)
  end.

(** [extractJSON]: from the first opening brace to the brace that closes
    it, or the empty string. *)
Definition extractJSON (text : gostring) : gostring :=
  let start := strings.Index text (str "{") in
  if start =? -1 then []
  else
    let tail := skipn (Z.to_nat start) text in
    match closing_brace 0 tail with
    | Some n => firstn n tail
    | None => []
    end.

Section Selecting.

(** The text-completion capability: [s.claude.Complete(ctx, system, user)]. *)
Variable Complete : gostring -> gostring -> result gostring.

Definition EvaluateBatch (trend : db.Trend) (quotes : list db.Quote)
  : result BatchEvaluationResult :=
  if len quotes =? 0 then
    Ok {| BestMatchIndex := -1; Evaluations := []; Recommendation := [] |}
  else
    let description := db.String_of (db.Description trend) in
    let quotesList := quotes_list 0 quotes in
    let prompt :=
      BatchSelectionPrompt (db.Title trend) description quotesList in
    match Complete SelectionSystemPrompt prompt with
    | Err e => Err (wrapError "claude complete" e)
    | Ok response =>
      let jsonStr := extractJSON response in
      let jsonStr := match jsonStr with [] => response | _ :: _ => jsonStr end in
      match json.Unmarshal jsonStr with
      | Err e => Err (wrapError "parse response" e)
      | Ok result =>
        Ok {| BestMatchIndex := json.b_BestMatchIndex result;
              Evaluations :=
                map (fun e => {| Index := json.ev_Index e;
                                 Score := json.ev_Score e;
                                 Reasoning := json.ev_Reasoning e |})
                    (json.elems (json.b_Evaluations result));
              Recommendation := json.b_Recommendation result |}
      end
    end.

End Selecting.

(** ** The matcher *)

Record MatchResult : Type := {
  mr_Quote : db.Quote;
  mr_Trend : db.Trend;
  mr_VectorSimilarity : float.float32;
  mr_RelevanceScore : float.float64;
  mr_Reasoning : gostring
}.

(** [vectorstore.SearchResult] *)
Record SearchResult : Type := {
  VecLiteID : Z;
  SQLiteID : Z;
  sr_Text : gostring;
  sr_Book : gostring;
  sr_Character : gostring;
  sr_Themes : gostring;
  sr_Similarity : float.float32
}.

(** A [*vectorstore.QuoteStore]: the hybrid search capability. *)
Record QuoteStore : Type := {
  Count : Z;
  HybridSearch : gostring -> Z -> float.float64 -> float.float64 ->
                 result (list SearchResult)
}.

Record Matcher : Type := {
  vectorIndex : option VectorIndex;
  quoteStore : option QuoteStore;
  minSimilarity : float.float32;
  minRelevance : float.float64;
  candidateCount : Z
}.

Record Config : Type := {
  cfg_QuoteStore : option QuoteStore;
  MinSimilarity : float.float32;
  MinRelevance : float.float64;
  CandidateCount : Z
}.

(** [New]: a zero setting takes its default. *)
Definition New (cfg : Config) : Matcher :=
  {| vectorIndex := None;
     quoteStore := cfg_QuoteStore cfg;
     minSimilarity :=
       if float.eqb (MinSimilarity cfg) float.zero
       then float.of_decimal 24 128 false 1 (-2)
       else MinSimilarity cfg;
     minRelevance :=
       if float.eqb (MinRelevance cfg) float.zero
       then float.of_decimal 53 1024 false 6 (-1)
       else MinRelevance cfg;
     candidateCount :=
       if CandidateCount cfg =? 0 then 10 else CandidateCount cfg |}.

Definition with_index (m : Matcher) (v : VectorIndex) : Matcher :=
  {| vectorIndex := Some v; quoteStore := quoteStore m;
     minSimilarity := minSimilarity m; minRelevance := minRelevance m;
     candidateCount := candidateCount m |}.

(** [embedder.BytesToEmbedding]: little-endian binary32 values. *)
Definition float32_of_bits (b : Z) : float.float32 :=
  let s := Z.testbit b 31 in
  let e := Z.land (Z.shiftr b 23) 255 in
  let m := Z.land b 8388607 in
  if e =? 0 then
    match m with Zpos p => S754_finite s p (-149) | _ => S754_zero s end
  else if e =? 255 then
    (if m =? 0 then S754_infinity s else S754_nan)
  else S754_finite s (Z.to_pos (m + 8388608)) (e - 150).

Fixpoint floats_of_bytes (data : list ascii) : list float.float32 :=
  match data with
  | b0 :: b1 :: b2 :: b3 :: rest =>
    float32_of_bits (byte_val b0 + 256 * (byte_val b1 + 256 *
                      (byte_val b2 + 256 * byte_val b3)))
    :: floats_of_bytes rest
  | _ => []
  end.

Definition BytesToEmbedding (data : list ascii) : result (list float.float32) :=
  if len data =? 0 then Ok []
  else if negb (Z.rem (len data) 4 =? 0) then
    Err (errorString ("invalid embedding data length: "
                      ++ NilZero.string_of_int (Z.to_int (len data)))%string)
  else Ok (floats_of_bytes data).

(** [math.Float32bits]: the binary32 representation of a value.  A NaN
    carries no payload here; it is written as the quiet NaN 0x7FC00000. *)
Definition float32_bits (x : float.float32) : Z :=
  match x with
  | S754_zero s => if s then 2147483648 else 0
  | S754_infinity s => (if s then 2147483648 else 0) + 2139095040
  | S754_nan => 2143289344
  | S754_finite s m e =>
    (if s then 2147483648 else 0) +
    (if Zpos m <? 8388608 then Zpos m
     else (e + 150) * 8388608 + (Zpos m - 8388608))
  end.

(** [binary.LittleEndian.PutUint32] *)
Definition le_bytes (b : Z) : list ascii :=
  [byte_of b; byte_of (Z.shiftr b 8); byte_of (Z.shiftr b 16);
   byte_of (Z.shiftr b 24)].

(** [embedder.EmbeddingToBytes]: four bytes for each value. *)
Definition EmbeddingToBytes (embedding : list float.float32) : list ascii :=
  flat_map (fun v => le_bytes (float32_bits v)) embedding.

Section Matching.

Context {sorter : sort.Sorter}.

(** The capabilities a matcher holds: the embedding provider and the
    completion provider. *)
Variable Embed : gostring -> result (list float.float32).

Variable Complete : gostring -> gostring -> result gostring.

(** [batchEmbedder.LoadAllEmbeddings]: the quotes whose stored embedding
    parses and is not empty. *)
Definition LoadAllEmbeddings (st : db.Store)
  : result (list QuoteWithEmbedding) * db.Store :=
  match db.ListQuotesWithEmbeddings st with
  | (Err e, st') => (Err (wrapError "list quotes" e), st')
  | (Ok quotes, st') =>
    (Ok (flat_map
           (fun quote =>
              match BytesToEmbedding (match db.Embedding quote with
                                      | Some d => d | None => [] end) with
              | Err _ => []
              | Ok [] => []
              | Ok embedding =>
                [{| qe_Quote := quote; qe_Embedding := embedding |}]
              end) quotes), st')
  end.

Definition LoadIndex (m : Matcher) (st : db.Store)
  : result unit * Matcher * db.Store :=
  match quoteStore m with
  | Some _ => (Ok tt, m, st)
  | None =>
    match LoadAllEmbeddings st with
    | (Err e, st') => (Err (wrapError "load embeddings" e), m, st')
    | (Ok quotesWithEmbed, st') =>
      (Ok tt, with_index m (NewVectorIndex quotesWithEmbed), st')
    end
  end.

Definition IndexSize (m : Matcher) : Z :=
  match quoteStore m with
  | Some qs => Count qs
  | None =>
    match vectorIndex m with
    | Some v => Size v
    | None => 0
    end
  end.

(** The conversion loop of the hybrid path: a result under the similarity
    threshold is dropped, and so is one whose quote the store does not
    return. *)
Fixpoint veclite_candidates (minSim : float.float32) (st : db.Store)
         (results : list SearchResult) : list VectorMatch * db.Store :=
  match results with
  | [] => ([], st)
  | r :: rest =>
    if float.ltb (sr_Similarity r) minSim then veclite_candidates minSim st rest
    else
      match db.GetQuote st (SQLiteID r) with
      | (Err _, st1) => veclite_candidates minSim st1 rest
      | (Ok quote, st1) =>
        let (cs, st2) := veclite_candidates minSim st1 rest in
        ({| Quote := quote; Similarity := sr_Similarity r |} :: cs, st2)
      end
  end.

Definition trend_text (trend : db.Trend) : gostring :=
  match db.Description trend with
  | Some (c :: d) => db.Title trend ++ str "

" ++ c :: d
  | _ => db.Title trend
  end.

(** Retrieval: the candidates of a trend, by hybrid search when a quote
    store is configured, else from the in-memory index. *)
Definition retrieve (m : Matcher) (st : db.Store) (trend : db.Trend)
  : outcome (result (list VectorMatch) * db.Store) :=
  let trendText := trend_text trend in
  match quoteStore m with
  | Some qs =>
    match HybridSearch qs trendText (candidateCount m)
            (float.of_decimal 53 1024 false 1 0)
            (float.of_decimal 53 1024 false 3 (-1)) with
    | Err e => Returned (Err (wrapError "veclite search" e), st)
    | Ok results =>
      let (cs, st') := veclite_candidates (minSimilarity m) st results in
      Returned (Ok cs, st')
    end
  | None =>
    match Embed trendText with
    | Err e => Returned (Err (wrapError "embed trend" e), st)
    | Ok trendEmbed =>
      match vectorIndex m with
      | None => Panicked "nil pointer dereference"
      | Some v =>
        match SearchWithThreshold v trendEmbed (minSimilarity m)
                                  (candidateCount m) with
        | Panicked why => Panicked why
        | Returned cs => Returned (Ok cs, st)
        end
      end
    end
  end.

(** Selection: what [Match] does with a non-empty list of candidates. *)
Definition select (m : Matcher) (trend : db.Trend)
           (candidates : list VectorMatch) : result (option MatchResult) :=
  match EvaluateBatch Complete trend (map Quote candidates) with
  | Err e => Err (wrapError "evaluate batch" e)
  | Ok batchResult =>
    if (BestMatchIndex batchResult <? 0) ||
       (len candidates <=? BestMatchIndex batchResult) then Ok None
    else
      match nth_error candidates (Z.to_nat (BestMatchIndex batchResult)) with
      | None => Ok None
      | Some bestCandidate =>
        let bestEval :=
          find (fun eval => Index eval =? BestMatchIndex batchResult)
               (Evaluations batchResult) in
        let relevance :=
          match bestEval with
          | Some eval => Score eval
          | None => float.zero
          end in
        let reasoning :=
          match bestEval with
          | Some eval =>
            match Reasoning eval with
            | [] => Recommendation batchResult
            | _ :: _ => Reasoning eval
            end
          | None => Recommendation batchResult
          end in
        if float.ltb relevance (minRelevance m) then Ok None
        else
          Ok (Some {| mr_Quote := Quote bestCandidate;
                      mr_Trend := trend;
                      mr_VectorSimilarity := Similarity bestCandidate;
                      mr_RelevanceScore := relevance;
                      mr_Reasoning := reasoning |})
      end
  end.

(** [Match]: the best quote for a trend, no quote, or an error. *)
Definition Match (m : Matcher) (st : db.Store) (trend : db.Trend)
  : outcome (result (option MatchResult) * Matcher * db.Store) :=
  let '(loaded, m, st) :=
    match quoteStore m, vectorIndex m with
    | None, None => LoadIndex m st
    | _, _ => (Ok tt, m, st)
    end in
  match loaded with
  | Err e => Returned (Err e, m, st)
  | Ok _ =>
    if IndexSize m =? 0 then
      Returned (Err (errorString "no quotes in index"), m, st)
    else
      match retrieve m st trend with
      | Panicked why => Panicked why
      | Returned (Err e, st') => Returned (Err e, m, st')
      | Returned (Ok candidates, st') =>
        match candidates with
        | [] => Returned (Ok None, m, st')
        | _ :: _ => Returned (select m trend candidates, m, st')
        end
      end
  end.

End Matching.

End matcher.

(* ================================================================== *)
(** * internal/scheduler: health and the post cycle *)
(* ================================================================== *)

Module scheduler.

(** [err.Error()] *)
Fixpoint error_string (e : error) : gostring :=
  match e with
  | ErrNoRows => str "sql: no rows in result set"
  | errorString msg => str msg
  | wrapError ctx cause => str ctx ++ str ": " ++ error_string cause
  end.

(** A [time.Time] is a number of seconds; [None] is the zero time. *)
Record HealthStatus : Type := {
  Healthy : bool;
  LastCheck : option Z;
  LastSuccess : option Z;
  LastError : option error;
  Message : gostring
}.

(** The map of a [Health], component by component. *)
Definition Health : Type := list (gostring * HealthStatus).

Definition zero_status : HealthStatus :=
  {| Healthy := false; LastCheck := None; LastSuccess := None;
     LastError := None; Message := [] |}.

Definition lookup (h : Health) (component : gostring) : option HealthStatus :=
  option_map snd (find (fun kv => gostring_eqb (fst kv) component) h).

Fixpoint update (h : Health) (component : gostring) (f : HealthStatus -> HealthStatus)
  : Health :=
  match h with
  | [] => [(component, f zero_status)]
  | (k, v) :: rest =>
    if gostring_eqb k component then (k, f v) :: rest
    else (k, v) :: update rest component f
  end.

Definition SetHealthy (h : Health) (now : Z) (component message : gostring)
  : Health :=
  update h component
    (fun _ => {| Healthy := true; LastCheck := Some now;
                 LastSuccess := Some now; LastError := None;
                 Message := message |}).

Definition SetUnhealthy (h : Health) (now : Z) (component : gostring) (err : error)
  : Health :=
  update h component
    (fun old => {| Healthy := false; LastCheck := Some now;
                   LastSuccess := LastSuccess old; LastError := Some err;
                   Message := error_string err |}).

Definition GetStatus (h : Health) (component : gostring) : option HealthStatus :=
  lookup h component.

(** [NewHealth]: no component yet. *)
Definition NewHealth : Health := [].

(** [GetAllStatuses]: a copy of every status. *)
Definition GetAllStatuses (h : Health) : Health :=
  map (fun kv =>
         (fst kv,
          {| Healthy := Healthy (snd kv); LastCheck := LastCheck (snd kv);
             LastSuccess := LastSuccess (snd kv);
             LastError := LastError (snd kv); Message := Message (snd kv) |}))
      h.

(** [IsOverallHealthy]: no component is unhealthy. *)
Definition IsOverallHealthy (h : Health) : bool :=
  forallb (fun kv => Healthy (snd kv)) h.

(** A line of the log: its level and its message. *)
Inductive level : Type := Debug | Info | Warn | Error.

Definition LogLine : Type := (level * string)%type.

(** [poster.PostContent] and [poster.PostResult] *)
Record PostContent : Type := {
  pc_Text : gostring;
  pc_QuoteText : gostring;
  pc_SourceBook : gostring;
  pc_TrendTitle : gostring
}.

Record PostResult : Type := {
  PostID : gostring;
  PostURL : gostring
}.

(** A scheduler between two cycles: its configuration, what it owns, what
    it has logged, and [published], the calls it has made to the
    publishing capability. *)
Record Scheduler : Type := {
  MaxPostsPerDay : Z;
  store : db.Store;
  matcher : matcher.Matcher;
  agg : monitor.Aggregator;
  health : Health;
  lastPost : option Z;
  log : list LogLine;
  published : list PostContent
}.

Definition with_store (s : Scheduler) (st : db.Store) : Scheduler :=
  {| MaxPostsPerDay := MaxPostsPerDay s; store := st; matcher := matcher s;
     agg := agg s; health := health s; lastPost := lastPost s;
     log := log s; published := published s |}.

Definition with_matcher (s : Scheduler) (m : matcher.Matcher) : Scheduler :=
  {| MaxPostsPerDay := MaxPostsPerDay s; store := store s; matcher := m;
     agg := agg s; health := health s; lastPost := lastPost s;
     log := log s; published := published s |}.

Definition with_health (s : Scheduler) (h : Health) : Scheduler :=
  {| MaxPostsPerDay := MaxPostsPerDay s; store := store s; matcher := matcher s;
     agg := agg s; health := h; lastPost := lastPost s;
     log := log s; published := published s |}.

Definition with_lastPost (s : Scheduler) (t : Z) : Scheduler :=
  {| MaxPostsPerDay := MaxPostsPerDay s; store := store s; matcher := matcher s;
     agg := agg s; health := health s; lastPost := Some t;
     log := log s; published := published s |}.

Definition with_published (s : Scheduler) (c : PostContent) : Scheduler :=
  {| MaxPostsPerDay := MaxPostsPerDay s; store := store s; matcher := matcher s;
     agg := agg s; health := health s; lastPost := lastPost s;
     log := log s; published := published s ++ [c] |}.

(** [slog.Debug], [slog.Info], [slog.Warn], [slog.Error] *)
Definition slog (s : Scheduler) (l : level) (msg : string) : Scheduler :=
  {| MaxPostsPerDay := MaxPostsPerDay s; store := store s; matcher := matcher s;
     agg := agg s; health := health s; lastPost := lastPost s;
     log := log s ++ [(l, msg)]; published := published s |}.

(** The wall clock, which is also what the store reads. *)
Definition now (s : Scheduler) : Z := db.clock (store s).

Section Cycles.

Context {sorter : sort.Sorter}.

Variable lowerTable : Z -> Z.

Variable Sum256 : gostring -> list ascii.

(** The capabilities: embedding, completion and publishing. *)
Variable Embed : gostring -> result (list float.float32).

Variable Complete : gostring -> gostring -> result gostring.

Variable Post : PostContent -> result PostResult.

(** [runMonitorCycle] *)
Definition runMonitorCycle (s : Scheduler) : Scheduler :=
  let s := slog s Debug "running monitor cycle" in
  match monitor.FetchAndStore lowerTable (agg s) (store s) with
  | (Err err, st) =>
    let s := with_store s st in
    let s := with_health s (SetUnhealthy (health s) (now s) (str "monitor") err) in
    slog s Error "monitor cycle failed"
  | (Ok _, st) =>
    let s := with_store s st in
    let s := with_health s
               (SetHealthy (health s) (now s) (str "monitor") (str "fetched trends")) in
    slog s Info "monitor cycle complete"
  end.

(** The loop of [runPostCycle] over the unmatched trends: the first match
    ends it; a trend without a match is marked as skipped; a trend whose
    match fails is left as it is. *)
Fixpoint find_match (s : Scheduler) (trends : list db.Trend)
  : outcome (option matcher.MatchResult * Scheduler) :=
  match trends with
  | [] => Returned (None, s)
  | trend :: rest =>
    match matcher.Match Embed Complete (matcher s) (store s) trend with
    | Panicked why => Panicked why
    | Returned (r, m, st) =>
      let s := with_store (with_matcher s m) st in
      match r with
      | Err _ => find_match (slog s Debug "match failed") rest
      | Ok (Some result) => Returned (Some result, s)
      | Ok None =>
        let (r2, st2) :=
          db.UpdateTrendSkipped (store s) (db.Trend_ID trend)
                                (Some (str "no suitable quote match")) in
        let s := with_store s st2 in
        let s := match r2 with
                 | Err _ => slog s Warn "failed to mark trend as skipped"
                 | Ok _ => s
                 end in
        find_match s rest
      end
    end
  end.

(** The end of [runPostCycle]: format, publish, record. *)
Definition publish (s : Scheduler) (bestMatch : matcher.MatchResult) : Scheduler :=
  let quote := matcher.mr_Quote bestMatch in
  let trend := matcher.mr_Trend bestMatch in
  let character := db.String_of (db.Character quote) in
  let formatted := poster.FormatQuote (db.Text quote) (db.SourceBook quote) character in
  let content :=
    {| pc_Text := formatted; pc_QuoteText := db.Text quote;
       pc_SourceBook := db.SourceBook quote; pc_TrendTitle := db.Title trend |} in
  let s := with_published s content in
  match Post content with
  | Err err =>
    let s := with_health s (SetUnhealthy (health s) (now s) (str "post") err) in
    slog s Error "failed to post"
  | Ok result =>
    let s := with_health s
               (SetHealthy (health s) (now s) (str "post")
                           (str "posted successfully")) in
    let s := with_lastPost s (now s) in
    let s := slog s Info "posted quote" in
    let trendHash :=
      monitor.HashTrend Sum256
        {| monitor.Source := db.Source trend;
           monitor.ExternalID := db.String_of (db.ExternalID trend);
           monitor.Title := db.Title trend;
           monitor.URL := []; monitor.Description := []; monitor.Score := 0 |} in
    let (r1, st1) :=
      db.CreatePost (store s)
        {| db.cp_QuoteID := db.Quote_ID quote;
           db.cp_Platform := str "bluesky";
           db.cp_PlatformPostID := Some (PostID result);
           db.cp_PostUrl := Some (PostURL result);
           db.cp_TrendID := Some (db.Trend_ID trend);
           db.cp_TrendTitle := db.Title trend;
           db.cp_TrendSource := db.Source trend;
           db.cp_TrendHash := trendHash;
           db.cp_RelevanceScore := matcher.mr_RelevanceScore bestMatch;
           db.cp_RelevanceReasoning := db.null_if_empty (matcher.mr_Reasoning bestMatch);
           db.cp_VectorSimilarity := float.to64 (matcher.mr_VectorSimilarity bestMatch) |} in
    let s := with_store s st1 in
    let s := match r1 with
             | Err _ => slog s Warn "failed to record post"
             | Ok _ => s
             end in
    let (r2, st2) := db.UpdateTrendMatched (store s) (db.Trend_ID trend) in
    let s := with_store s st2 in
    let s := match r2 with
             | Err _ => slog s Warn "failed to mark trend as matched"
             | Ok _ => s
             end in
    let (r3, st3) := db.UpdateQuotePosted (store s) (db.Quote_ID quote) in
    let s := with_store s st3 in
    match r3 with
    | Err _ => slog s Warn "failed to update quote posted count"
    | Ok _ => s
    end
  end.

(** [runPostCycle] from "Get unmatched trends" on. *)
Definition post_after_quota (s : Scheduler) : outcome Scheduler :=
  match monitor.GetUnmatchedTrends (store s) 10 with
  | (Err err, st) =>
    let s := with_store s st in
    let s := with_health s (SetUnhealthy (health s) (now s) (str "post") err) in
    Returned (slog s Error "failed to get unmatched trends")
  | (Ok unmatchedTrends, st) =>
    let s := with_store s st in
    match unmatchedTrends with
    | [] => Returned (slog s Debug "no unmatched trends to post about")
    | _ :: _ =>
      match find_match s unmatchedTrends with
      | Panicked why => Panicked why
      | Returned (None, s) =>
        Returned (slog s Debug "no suitable quote-trend match found")
      | Returned (Some bestMatch, s) => Returned (publish s bestMatch)
      end
    end
  end.

(** [runPostCycle]: the daily limit first.  A count that fails is logged
    and the cycle goes on; a count at or over the limit ends the cycle. *)
Definition runPostCycle (s : Scheduler) : outcome Scheduler :=
  let s := slog s Debug "running post cycle" in
  match db.CountPostsToday (store s) (str "bluesky") with
  | (Err _, st) =>
    post_after_quota (slog (with_store s st) Error "failed to count today's posts")
  | (Ok postsToday, st) =>
    let s := with_store s st in
    if MaxPostsPerDay s <=? postsToday
    then Returned (slog s Info "daily post limit reached")
    else post_after_quota s
  end.

End Cycles.

End scheduler.

(* ================================================================== *)
(** * poster/bluesky.go: the text of a post *)
(* ================================================================== *)

Module bluesky.

Import poster.

(** [BlueskyPoster.Post], from "Format the post text" to "Create the
    post": the text of the record that is sent once the poster is
    authenticated.  A text that does not fit is written again from the
    quote, truncated, without the author. *)
Definition record_text (content : scheduler.PostContent) : outcome gostring :=
  let text :=
    match scheduler.pc_Text content with
    | [] => FormatQuote (scheduler.pc_QuoteText content)
                        (scheduler.pc_SourceBook content) []
    | _ :: _ => scheduler.pc_Text content
    end in
  if negb (FitsInLimit text BlueskyMaxLength) then
    let attribution := emdash ++ str " " ++ scheduler.pc_SourceBook content in
    match TruncateQuote (scheduler.pc_QuoteText content) BlueskyMaxLength
                        attribution with
    | Panicked why => Panicked why
    | Returned truncated =>
      Returned (FormatQuote truncated (scheduler.pc_SourceBook content) [])
    end
  else Returned text.

End bluesky.

(* ================================================================== *)
(** * Part II: properties *)
(* ================================================================== *)

(* ================================================================== *)
(** * A sorting procedure that honours the contract of sort.Slice *)
(* ================================================================== *)

Module sort_facts.

Import sort.

Lemma insert_after_perm {A} (less : A -> A -> bool) x l :
  Permutation (x :: l) (insert_after less x l).
Proof.
  induction l as [|y t IH]; simpl; [reflexivity|].
  destruct (less x y); [reflexivity|].
  rewrite perm_swap. now apply perm_skip.
Qed.

Lemma fold_insert_perm {A} (ins : A -> list A -> list A) :
  (forall x l, Permutation (x :: l) (ins x l)) ->
  forall l acc, Permutation (acc ++ l) (fold_left (fun a x => ins x a) l acc).
Proof.
  intros Hins l; induction l as [|x t IH]; intros acc; simpl.
  - now rewrite app_nil_r.
  - rewrite <- IH. rewrite <- Hins.
    now rewrite <- Permutation_middle.
Qed.

Lemma asym_of_strict_weak {A} (less : A -> A -> bool) l x y :
  strict_weak_on less l -> In x l -> In y l ->
  less x y = true -> less y x = false.
Proof.
  intros (Hirr & Htr & _) Hx Hy Hxy.
  destruct (less y x) eqn:Hyx; [|reflexivity].
  rewrite <- (Hirr x Hx). symmetry. now apply (Htr x y x).
Qed.

Lemma insert_after_ordered {A} (less : A -> A -> bool) dom x l :
  strict_weak_on less dom -> In x dom -> incl l dom ->
  ordered less l -> ordered less (insert_after less x l).
Proof.
  intros Hswo Hx Hl Hord.
  induction l as [|y t IH]; simpl.
  - constructor; constructor.
  - assert (Hy : In y dom) by (apply Hl; now left).
    assert (Ht : incl t dom) by (intros z Hz; apply Hl; now right).
    inversion Hord as [|? ? Hsub Hall]; subst.
    destruct (less x y) eqn:Hxy.
    + constructor; [exact Hord|].
      constructor.
      * now apply (asym_of_strict_weak less dom x y).
      * rewrite Forall_forall in *. intros z Hz.
        destruct (less z x) eqn:Hzx; [|reflexivity].
        destruct Hswo as (_ & Htr & _).
        rewrite <- (Hall z Hz). symmetry.
        apply (Htr z x y); auto.
    + constructor; [now apply IH|].
      rewrite Forall_forall in *. intros z Hz.
      apply (Permutation_in _ (Permutation_sym (insert_after_perm less x t))) in Hz.
      destruct Hz as [<-|Hz]; auto.
Qed.

Lemma fold_insert_ordered {A} (less : A -> A -> bool)
      (ins : A -> list A -> list A) dom :
  (forall x l, Permutation (x :: l) (ins x l)) ->
  (forall x l, In x dom -> incl l dom -> ordered less l ->
               ordered less (ins x l)) ->
  forall l acc, incl l dom -> incl acc dom -> ordered less acc ->
    ordered less (fold_left (fun a x => ins x a) l acc).
Proof.
  intros Hperm Hins l; induction l as [|x t IH]; intros acc Hl Hacc Hord; simpl.
  - exact Hord.
  - apply IH.
    + intros z Hz; apply Hl; now right.
    + intros z Hz. apply (Permutation_in _ (Permutation_sym (Hperm x acc))) in Hz.
      destruct Hz as [<-|Hz]; [apply Hl; now left|now apply Hacc].
    + apply Hins; auto. apply Hl; now left.
Qed.

#[export] Instance StableSorter : Sorter.
Proof.
  refine {| Slice := fun A less l => stable_sort less l |}.
  - intros A less l. unfold stable_sort.
    apply (fold_insert_perm (insert_after less) (insert_after_perm less) l []).
  - intros A less l Hswo. unfold stable_sort.
    apply (fold_insert_ordered less (insert_after less) l
             (insert_after_perm less)).
    + intros x l0 Hx Hl0 Ho. now apply (insert_after_ordered less l).
    + apply incl_refl.
    + intros z [].
    + constructor.
Defined.

End sort_facts.

(* ================================================================== *)
(** * The order of floating-point values *)
(* ================================================================== *)

Module float_facts.

Import float.

(** A value that is not NaN, as a point of a lexicographic order: the
    class (negative infinity, negative, zero, positive, positive
    infinity), then exponent and mantissa, reversed for negative values. *)
Definition key (x : spec_float) : Z * Z * Z :=
  match x with
  | S754_zero _ => (0, 0, 0)
  | S754_infinity false => (2, 0, 0)
  | S754_infinity true => (-2, 0, 0)
  | S754_nan => (0, 0, 0)
  | S754_finite false m e => (1, e, Zpos m)
  | S754_finite true m e => (-1, - e, Zneg m)
  end.

Definition lex (k1 k2 : Z * Z * Z) : comparison :=
  let '(a1, b1, c1) := k1 in
  let '(a2, b2, c2) := k2 in
  match a1 ?= a2 with
  | Eq => match b1 ?= b2 with Eq => c1 ?= c2 | r => r end
  | r => r
  end.

Definition klt (k1 k2 : Z * Z * Z) : Prop :=
  let '(a1, b1, c1) := k1 in
  let '(a2, b2, c2) := k2 in
  a1 < a2 \/ (a1 = a2 /\ (b1 < b2 \/ (b1 = b2 /\ c1 < c2))).

Lemma lex_Lt k1 k2 : lex k1 k2 = Lt <-> klt k1 k2.
Proof.
  destruct k1 as [[a1 b1] c1], k2 as [[a2 b2] c2]. unfold lex, klt.
  destruct (Z.compare_spec a1 a2), (Z.compare_spec b1 b2),
    (Z.compare_spec c1 c2); split; intros K; try discriminate;
    try reflexivity; lia.
Qed.

Lemma lex_Eq k1 k2 : lex k1 k2 = Eq <-> k1 = k2.
Proof.
  destruct k1 as [[a1 b1] c1], k2 as [[a2 b2] c2]. unfold lex.
  destruct (Z.compare_spec a1 a2), (Z.compare_spec b1 b2),
    (Z.compare_spec c1 c2); split; intros K; try discriminate;
    try reflexivity; try (inversion K; lia); subst; reflexivity.
Qed.

Lemma SFcompare_key x y :
  is_nan x = false -> is_nan y = false ->
  SFcompare x y = Some (lex (key x) (key y)).
Proof.
  destruct x as [sx|sx| |sx mx ex], y as [sy|sy| |sy my ey];
    try discriminate; intros _ _;
    try (destruct sx; reflexivity);
    try (destruct sy; reflexivity);
    try (destruct sx, sy; reflexivity).
  destruct sx, sy; try reflexivity; unfold SFcompare, key, lex.
  rewrite Z.compare_opp.
  change (-1 ?= -1) with Eq. cbv iota.
  rewrite (Z.compare_antisym ex ey).
  destruct (ex ?= ey); reflexivity.
Qed.

Lemma ltb_key x y :
  is_nan x = false -> is_nan y = false ->
  (ltb x y = true <-> klt (key x) (key y)).
Proof.
  intros Hx Hy. unfold ltb, SFltb. rewrite (SFcompare_key x y Hx Hy).
  rewrite <- lex_Lt. destruct (lex (key x) (key y)); split; congruence.
Qed.

Lemma leb_key x y :
  is_nan x = false -> is_nan y = false ->
  (SFleb x y = true <-> klt (key x) (key y) \/ key x = key y).
Proof.
  intros Hx Hy. unfold SFleb. rewrite (SFcompare_key x y Hx Hy).
  rewrite <- lex_Lt, <- lex_Eq.
  destruct (lex (key x) (key y)); split; intros H; try reflexivity;
    try discriminate; auto; destruct H; discriminate.
Qed.

Lemma ltb_not_nan x y : ltb x y = true -> is_nan x = false /\ is_nan y = false.
Proof.
  unfold ltb, SFltb.
  destruct x, y; try discriminate; intros _; split; reflexivity.
Qed.

Lemma geb_not_nan x y : geb x y = true -> is_nan x = false /\ is_nan y = false.
Proof.
  unfold geb, SFleb.
  destruct x, y; try discriminate; intros _; split; reflexivity.
Qed.

Lemma ltb_irrefl x : ltb x x = false.
Proof.
  destruct (is_nan x) eqn:E.
  - destruct x; try discriminate. reflexivity.
  - destruct (ltb x x) eqn:L; [|reflexivity].
    apply (ltb_key x x E E) in L.
    destruct (key x) as [[a b] c]. unfold klt in L. lia.
Qed.

Lemma ltb_trans x y z : ltb x y = true -> ltb y z = true -> ltb x z = true.
Proof.
  intros Hxy Hyz.
  destruct (ltb_not_nan _ _ Hxy) as [Nx Ny].
  destruct (ltb_not_nan _ _ Hyz) as [_ Nz].
  apply (ltb_key x y Nx Ny) in Hxy. apply (ltb_key y z Ny Nz) in Hyz.
  apply (ltb_key x z Nx Nz).
  destruct (key x) as [[a1 b1] c1], (key y) as [[a2 b2] c2],
    (key z) as [[a3 b3] c3].
  unfold klt in *. lia.
Qed.

Lemma ltb_false_trans x y z :
  is_nan x = false -> is_nan y = false -> is_nan z = false ->
  ltb x y = false -> ltb y z = false -> ltb x z = false.
Proof.
  intros Nx Ny Nz Hxy Hyz.
  destruct (ltb x z) eqn:Hxz; [|reflexivity].
  apply (ltb_key x z Nx Nz) in Hxz.
  assert (H1 : ~ klt (key x) (key y))
    by (intros H; apply (ltb_key x y Nx Ny) in H; congruence).
  assert (H2 : ~ klt (key y) (key z))
    by (intros H; apply (ltb_key y z Ny Nz) in H; congruence).
  destruct (key x) as [[a1 b1] c1], (key y) as [[a2 b2] c2],
    (key z) as [[a3 b3] c3].
  unfold klt in *. lia.
Qed.

(** Between two values that are not NaN, "not greater" is "at most". *)
Lemma not_gtb_geb x y :
  is_nan x = false -> is_nan y = false ->
  gtb y x = false -> geb x y = true.
Proof.
  intros Nx Ny H. unfold gtb in H. unfold geb.
  apply (leb_key y x Ny Nx).
  assert (H1 : ~ klt (key x) (key y))
    by (intros K; apply (ltb_key x y Nx Ny) in K; unfold ltb in K; congruence).
  destruct (key x) as [[a1 b1] c1], (key y) as [[a2 b2] c2].
  unfold klt in *.
  destruct (Z.eq_dec a1 a2), (Z.eq_dec b1 b2), (Z.eq_dec c1 c2);
    subst; auto; left; lia.
Qed.

(** [>] on values that are not NaN is a strict weak ordering: what
    [sort.Slice] needs of its [less]. *)
Lemma gtb_strict_weak {A} (sim : A -> spec_float) (l : list A) :
  (forall a, In a l -> is_nan (sim a) = false) ->
  sort.strict_weak_on (fun a b => gtb (sim a) (sim b)) l.
Proof.
  intros Hn. unfold gtb. repeat split.
  - intros x _. apply ltb_irrefl.
  - intros x y z _ _ _ Hxy Hyz. exact (ltb_trans _ _ _ Hyz Hxy).
  - intros x y z Hx Hy Hz Hxy Hyz.
    apply (ltb_false_trans (sim z) (sim y) (sim x)); auto.
Qed.

End float_facts.

(* ================================================================== *)
(** * Bytes, runes and substrings *)
(* ================================================================== *)

Module strings_facts.

Import strings.

Lemma byte_val_range c : 0 <= byte_val c < 256.
Proof.
  unfold byte_val.
  pose proof (N_ascii_bounded c) as H.
  lia.
Qed.

Lemma byte_of_val c : byte_of (byte_val c) = c.
Proof.
  unfold byte_of.
  pose proof (byte_val_range c) as H.
  rewrite Z.mod_small by lia.
  unfold byte_val. rewrite N2Z.id. apply ascii_N_embedding.
Qed.

Lemma byte_val_of z : 0 <= z < 256 -> byte_val (byte_of z) = z.
Proof.
  intros H. unfold byte_val, byte_of.
  rewrite Z.mod_small by lia.
  rewrite N_ascii_embedding; [apply Z2N.id; lia|].
  apply N2Z.inj_lt. rewrite Z2N.id by lia. simpl. lia.
Qed.

Lemma gostring_eqb_eq a b : gostring_eqb a b = true <-> a = b.
Proof.
  unfold gostring_eqb. destruct (list_eq_dec ascii_dec a b); split; congruence.
Qed.

Lemma gostring_eqb_refl a : gostring_eqb a a = true.
Proof. now apply gostring_eqb_eq. Qed.

Lemma HasPrefix_app sub rest : HasPrefix (sub ++ rest) sub = true.
Proof.
  induction sub as [|c t IH]; simpl; [reflexivity|].
  now rewrite Ascii.eqb_refl.
Qed.

Lemma HasPrefix_split s sub :
  HasPrefix s sub = true -> exists rest, s = sub ++ rest.
Proof.
  revert s; induction sub as [|p ps IH]; intros s H.
  - now exists s.
  - destruct s as [|c cs]; simpl in H; [discriminate|].
    apply andb_true_iff in H as [Hc Hr].
    apply Ascii.eqb_eq in Hc as ->.
    destruct (IH _ Hr) as [rest ->]. now exists rest.
Qed.

Lemma Index_unfold s sub :
  Index s sub =
  if HasPrefix s sub then 0
  else match s with
       | [] => -1
       | _ :: t => let r := Index t sub in if r <? 0 then -1 else r + 1
       end.
Proof. destruct s; reflexivity. Qed.

Lemma Index_lower s sub : -1 <= Index s sub.
Proof.
  induction s as [|c t IH]; rewrite Index_unfold.
  - destruct (HasPrefix [] sub); lia.
  - destruct (HasPrefix (c :: t) sub); [lia|].
    cbv zeta. destruct (Index t sub <? 0) eqn:E; [lia|].
    apply Z.ltb_ge in E. lia.
Qed.

(** A string contains every string that occurs in it. *)
Lemma Contains_occurs pre sub post : Contains (pre ++ sub ++ post) sub = true.
Proof.
  unfold Contains. apply Z.leb_le.
  induction pre as [|c t IH].
  - simpl app. rewrite Index_unfold, HasPrefix_app. lia.
  - change ((c :: t) ++ sub ++ post) with (c :: (t ++ sub ++ post)).
    rewrite Index_unfold.
    destruct (HasPrefix (c :: t ++ sub ++ post) sub); [lia|].
    cbv zeta. destruct (Index (t ++ sub ++ post) sub <? 0) eqn:E.
    + apply Z.ltb_lt in E. lia.
    + lia.
Qed.

(** And what it contains occurs in it. *)
Lemma Contains_inv s sub :
  Contains s sub = true -> exists pre post, s = pre ++ sub ++ post.
Proof.
  unfold Contains. intros H. apply Z.leb_le in H.
  induction s as [|c t IH]; rewrite Index_unfold in H.
  - destruct (HasPrefix [] sub) eqn:E; [|lia].
    apply HasPrefix_split in E as [rest E]. exists [], rest. exact E.
  - destruct (HasPrefix (c :: t) sub) eqn:E.
    + apply HasPrefix_split in E as [rest E]. exists [], rest. exact E.
    + cbv zeta in H. destruct (Index t sub <? 0) eqn:E2; [lia|].
      apply Z.ltb_ge in E2. destruct (IH E2) as (pre & post & ->).
      now exists (c :: pre), post.
Qed.

(** *** Decoding *)

Lemma first_multi b sz lo hi :
  utf8.first b = utf8.LeadMulti sz lo hi ->
  128 <= lo /\ (sz = 2 \/ sz = 3 \/ sz = 4)%nat.
Proof.
  unfold utf8.first.
  repeat match goal with
         | |- context [if ?c then _ else _] => destruct c
         end; intros H; inversion H; subst; split; auto; lia.
Qed.

Lemma cont_high b : utf8.cont b = true -> 128 <= b.
Proof. unfold utf8.cont. intros H. apply andb_true_iff in H as [H _]. lia. Qed.

(** What a decoding step takes: one byte, or a leading byte and one to
    three bytes above 127. *)
Inductive step_shape (t : gostring) : nat -> gostring -> Prop :=
| shape1 : step_shape t 1 t
| shape2 c1 t2 : t = c1 :: t2 -> 128 <= byte_val c1 -> step_shape t 2 t2
| shape3 c1 c2 t3 :
    t = c1 :: c2 :: t3 -> 128 <= byte_val c1 -> 128 <= byte_val c2 ->
    step_shape t 3 t3
| shape4 c1 c2 c3 t4 :
    t = c1 :: c2 :: c3 :: t4 -> 128 <= byte_val c1 -> 128 <= byte_val c2 ->
    128 <= byte_val c3 -> step_shape t 4 t4.

Lemma runes_cons c t :
  utf8.runes (c :: t) =
  let (r, w) := utf8.DecodeRuneInString (c :: t) in
  match w, t with
  | 2%nat, _ :: t2 => r :: utf8.runes t2
  | 3%nat, _ :: _ :: t3 => r :: utf8.runes t3
  | 4%nat, _ :: _ :: _ :: t4 => r :: utf8.runes t4
  | _, _ => r :: utf8.runes t
  end.
Proof. reflexivity. Qed.

Lemma runes_step c t :
  exists r w rest, step_shape t w rest /\ utf8.runes (c :: t) = r :: utf8.runes rest.
Proof.
  rewrite runes_cons.
  unfold utf8.DecodeRuneInString.
  destruct (utf8.first (byte_val c)) as [| |sz lo hi] eqn:Hf;
    try (do 3 eexists; split; [apply shape1|reflexivity]).
  apply first_multi in Hf as [Hlo Hsz].
  destruct (List.length (c :: t) <? sz)%nat;
    [do 3 eexists; split; [apply shape1|reflexivity]|].
  destruct t as [|c1 t1]; [do 3 eexists; split; [apply shape1|reflexivity]|].
  destruct ((byte_val c1 <? lo) || (lo + (hi - lo) <? byte_val c1)) eqn:E1.
  - replace (lo + (hi - lo)) with hi in E1 by lia. rewrite E1.
    do 3 eexists; split; [apply shape1|reflexivity].
  - replace (lo + (hi - lo)) with hi in E1 by lia. rewrite E1.
    apply orb_false_iff in E1 as [E1 _]. apply Z.ltb_ge in E1.
    assert (H1 : 128 <= byte_val c1) by lia.
    destruct (sz <=? 2)%nat eqn:E2.
    { do 3 eexists; split; [eapply shape2; eauto|reflexivity]. }
    destruct t1 as [|c2 t2]; [do 3 eexists; split; [apply shape1|reflexivity]|].
    destruct (utf8.cont (byte_val c2)) eqn:Hc2; simpl negb; cbv iota;
      [|do 3 eexists; split; [apply shape1|reflexivity]].
    apply cont_high in Hc2.
    destruct (sz <=? 3)%nat eqn:E3.
    { do 3 eexists; split; [eapply shape3; eauto|reflexivity]. }
    destruct t2 as [|c3 t3]; [do 3 eexists; split; [apply shape1|reflexivity]|].
    destruct (utf8.cont (byte_val c3)) eqn:Hc3; simpl negb; cbv iota;
      [|do 3 eexists; split; [apply shape1|reflexivity]].
    apply cont_high in Hc3.
    do 3 eexists; split; [eapply shape4; eauto|reflexivity].
Qed.

Lemma runes_ascii_cons c t :
  byte_val c < 128 -> utf8.runes (c :: t) = byte_val c :: utf8.runes t.
Proof.
  intros H. rewrite runes_cons. unfold utf8.DecodeRuneInString, utf8.first.
  destruct (byte_val c <? 128) eqn:E; [|apply Z.ltb_ge in E; lia].
  destruct t as [|? [|? [|? ?]]]; reflexivity.
Qed.

Lemma isASCII_cons c t :
  isASCII (c :: t) = true <-> byte_val c < 128 /\ isASCII t = true.
Proof.
  unfold isASCII, utf8.RuneSelf. simpl. rewrite andb_true_iff, Z.ltb_lt.
  reflexivity.
Qed.

Lemma runes_ascii_app u post :
  isASCII u = true -> utf8.runes (u ++ post) = map byte_val u ++ utf8.runes post.
Proof.
  induction u as [|c t IH]; intros H; [reflexivity|].
  apply isASCII_cons in H as [Hc Ht].
  simpl app. rewrite runes_ascii_cons by exact Hc.
  simpl. now rewrite IH.
Qed.

(** The runes of an ASCII stretch of a string stand together among the
    runes of the string, whatever surrounds the stretch. *)
Lemma runes_ascii_middle u :
  isASCII u = true -> u <> [] ->
  forall n pre post, (List.length pre <= n)%nat ->
    exists R1 R2, utf8.runes (pre ++ u ++ post) = R1 ++ map byte_val u ++ R2.
Proof.
  intros Hu Hne. induction n as [|n IH]; intros pre post Hlen.
  - destruct pre; [|simpl in Hlen; lia].
    exists [], (utf8.runes post). simpl app. now apply runes_ascii_app.
  - destruct pre as [|c t].
    { exists [], (utf8.runes post). simpl app. now apply runes_ascii_app. }
    simpl in Hlen.
    change ((c :: t) ++ u ++ post) with (c :: (t ++ u ++ post)).
    destruct (runes_step c (t ++ u ++ post)) as (r & w & rest & Hshape & Heq).
    rewrite Heq.
    destruct u as [|u0 u']; [congruence|].
    apply isASCII_cons in Hu as Hu0. destruct Hu0 as [Hu0 _].
    assert (Hrest : exists t', rest = t' ++ (u0 :: u') ++ post /\
                               (List.length t' <= n)%nat).
    { inversion Hshape as [|c1 t2 E H1|c1 c2 t3 E H1 H2|c1 c2 c3 t4 E H1 H2 H3];
        subst.
      - exists t. split; [reflexivity|lia].
      - destruct t as [|a t]; simpl in E; inversion E; subst; [lia|].
        exists t. split; [reflexivity|simpl in Hlen; lia].
      - destruct t as [|a [|b t]]; simpl in E; inversion E; subst; try lia.
        exists t. split; [reflexivity|simpl in Hlen; lia].
      - destruct t as [|a [|b [|d t]]]; simpl in E; inversion E; subst; try lia.
        exists t. split; [reflexivity|simpl in Hlen; lia]. }
    destruct Hrest as (t' & -> & Hlen').
    destruct (IH t' post Hlen') as (R1 & R2 & ->).
    now exists (r :: R1), R2.
Qed.

Section Lowering.

Variable lowerTable : Z -> Z.

Lemma lower_rune_of_byte c :
  byte_val c < 128 ->
  write_mapped (unicode_ToLower lowerTable) (byte_val c) = [lower_byte c].
Proof.
  intros H. pose proof (byte_val_range c) as Hr.
  unfold write_mapped, unicode_ToLower, lower_byte. cbv zeta.
  destruct (byte_val c <=? 127) eqn:E; [|apply Z.leb_gt in E; lia].
  destruct ((65 <=? byte_val c) && (byte_val c <=? 90)) eqn:E2.
  - apply andb_true_iff in E2 as [A B]. apply Z.leb_le in A, B.
    destruct (0 <=? byte_val c + 32) eqn:E3; [|apply Z.leb_gt in E3; lia].
    unfold utf8.EncodeRune.
    destruct ((0 <=? byte_val c + 32) && (byte_val c + 32 <=? 127)) eqn:E4;
      [reflexivity|].
    apply andb_false_iff in E4 as [E4|E4]; apply Z.leb_gt in E4; lia.
  - destruct (0 <=? byte_val c) eqn:E3; [|apply Z.leb_gt in E3; lia].
    unfold utf8.EncodeRune.
    destruct ((0 <=? byte_val c) && (byte_val c <=? 127)) eqn:E4.
    + now rewrite byte_of_val.
    + apply andb_false_iff in E4 as [E4|E4]; apply Z.leb_gt in E4; lia.
Qed.

Lemma Map_lower_ascii u :
  isASCII u = true ->
  flat_map (write_mapped (unicode_ToLower lowerTable)) (map byte_val u)
  = map lower_byte u.
Proof.
  induction u as [|c t IH]; intros H; [reflexivity|].
  apply isASCII_cons in H as [Hc Ht].
  simpl map. simpl flat_map.
  rewrite (lower_rune_of_byte c Hc). simpl. now rewrite IH.
Qed.

Lemma ToLower_ascii s : isASCII s = true -> ToLower lowerTable s = map lower_byte s.
Proof. intros H. unfold ToLower. now rewrite H. Qed.

(** Lower-casing a string lower-cases each ASCII stretch of it in place. *)
Lemma ToLower_occurs u pre post :
  isASCII u = true ->
  exists X Y, ToLower lowerTable (pre ++ u ++ post) = X ++ map lower_byte u ++ Y.
Proof.
  intros Hu. unfold ToLower.
  destruct (isASCII (pre ++ u ++ post)).
  - exists (map lower_byte pre), (map lower_byte post).
    now rewrite !map_app.
  - destruct u as [|u0 u'].
    + exists (Map (unicode_ToLower lowerTable) (pre ++ [] ++ post)), [].
      simpl. now rewrite app_nil_r.
    + assert (Hne : u0 :: u' <> []) by discriminate.
      destruct (runes_ascii_middle (u0 :: u') Hu Hne (List.length pre) pre post (le_n _))
        as (R1 & R2 & E).
      unfold Map. rewrite E. rewrite !flat_map_app.
      rewrite (Map_lower_ascii _ Hu). eauto.
Qed.

End Lowering.

Lemma lower_byte_ascii c : byte_val c < 128 <-> byte_val (lower_byte c) < 128.
Proof.
  unfold lower_byte. pose proof (byte_val_range c).
  destruct ((65 <=? byte_val c) && (byte_val c <=? 90)) eqn:E; [|reflexivity].
  apply andb_true_iff in E as [A B]. apply Z.leb_le in A, B.
  rewrite byte_val_of by lia. lia.
Qed.

Lemma isASCII_lower u v :
  map lower_byte u = map lower_byte v -> isASCII v = true -> isASCII u = true.
Proof.
  revert v; induction u as [|c t IH]; intros [|d v] E H; try discriminate;
    [reflexivity|].
  simpl in E. inversion E as [[Ec Et]].
  apply isASCII_cons in H as [Hd Hv]. apply isASCII_cons. split.
  - apply (proj2 (lower_byte_ascii c)). rewrite Ec.
    now apply (proj1 (lower_byte_ascii d)).
  - now apply (IH v).
Qed.

End strings_facts.

(* ================================================================== *)
(** * The safety filter *)
(* ================================================================== *)

Module filter_facts.

Import strings strings_facts monitor.

(** [occ] occurs in [s]. *)
Definition occurs (occ s : gostring) : Prop :=
  exists pre post, s = pre ++ occ ++ post.

Section Filter.

Variable lowerTable : Z -> Z.

Lemma FilterTrends_acc f ts acc :
  fold_left (fun result trend =>
               if Pass (Check lowerTable f trend) then result ++ [trend] else result)
            ts acc
  = acc ++ List.filter (fun t => Pass (Check lowerTable f t)) ts.
Proof.
  revert acc; induction ts as [|t ts IH]; intros acc; simpl.
  - now rewrite app_nil_r.
  - rewrite IH. destruct (Pass (Check lowerTable f t)); [|reflexivity].
    now rewrite <- app_assoc.
Qed.

Lemma FilterTrends_filter f ts :
  FilterTrends lowerTable f ts
  = List.filter (fun t => Pass (Check lowerTable f t)) ts.
Proof. unfold FilterTrends. now rewrite FilterTrends_acc. Qed.

Lemma Check_sensitive f t term :
  In term (sensitiveTerms f) ->
  Contains (ToLower lowerTable (Title t ++ str " " ++ Description t)) term = true ->
  Pass (Check lowerTable f t) = false.
Proof.
  intros Hin Hc. unfold Check.
  destruct ((0 <? minScore f) && (Score t <? minScore f)); [reflexivity|].
  destruct (find _ (sensitiveTerms f)) as [found|] eqn:E; [reflexivity|].
  apply find_none with (x := term) in E; [|exact Hin].
  cbv beta in E. congruence.
Qed.

Lemma Check_score f t :
  0 < minScore f -> Score t < minScore f -> Pass (Check lowerTable f t) = false.
Proof.
  intros H1 H2. unfold Check.
  apply Z.ltb_lt in H1, H2. now rewrite H1, H2.
Qed.

Lemma occurs_in_text occ t :
  occurs occ (Title t) \/ occurs occ (Description t) ->
  occurs occ (Title t ++ str " " ++ Description t).
Proof.
  intros [(pre & post & E)|(pre & post & E)]; rewrite E.
  - exists pre, (post ++ str " " ++ Description t).
    now rewrite <- !app_assoc.
  - exists (Title t ++ str " " ++ pre), post.
    now rewrite <- !app_assoc.
Qed.

(** A trend in which a term of the denylist occurs in any mix of upper and
    lower case does not pass. *)
Lemma Check_denylisted cfg t term occ :
  In term (SensitiveTopics ++ AdditionalTerms cfg) ->
  isASCII term = true ->
  map lower_byte occ = map lower_byte term ->
  occurs occ (Title t) \/ occurs occ (Description t) ->
  Pass (Check lowerTable (NewFilter lowerTable cfg) t) = false.
Proof.
  intros Hin Hascii Hfold Hocc.
  apply (Check_sensitive _ t (ToLower lowerTable term)).
  - unfold NewFilter. cbn [sensitiveTerms]. now apply in_map.
  - rewrite (ToLower_ascii lowerTable term Hascii), <- Hfold.
    destruct (occurs_in_text occ t Hocc) as (pre & post & ->).
    destruct (ToLower_occurs lowerTable occ pre post
                (isASCII_lower occ term Hfold Hascii)) as (X & Y & ->).
    apply Contains_occurs.
Qed.

(** C7.  [FilterTrends] keeps, in their order, exactly the trends that
    pass [Check]; a trend in whose title or description a denylisted term
    occurs, in whatever case, is not in its output; and with a minimum
    score configured (a positive one), neither is a trend whose score is
    below it. *)
Theorem FilterTrends_safe (cfg : FilterConfig) (ts : list Trend) :
  let f := NewFilter lowerTable cfg in
  FilterTrends lowerTable f ts
    = List.filter (fun t => Pass (Check lowerTable f t)) ts
  /\ (forall t term occ,
        In term (SensitiveTopics ++ AdditionalTerms cfg) ->
        isASCII term = true ->
        map lower_byte occ = map lower_byte term ->
        occurs occ (Title t) \/ occurs occ (Description t) ->
        ~ In t (FilterTrends lowerTable f ts))
  /\ (forall t, 0 < MinScore cfg -> Score t < MinScore cfg ->
        ~ In t (FilterTrends lowerTable f ts)).
Proof.
  intros f. split; [apply FilterTrends_filter|]. split.
  - intros t term occ Hin Ha Hf Ho Hmem.
    rewrite FilterTrends_filter in Hmem. apply filter_In in Hmem as [_ Hp].
    unfold f in Hp. rewrite (Check_denylisted cfg t term occ Hin Ha Hf Ho) in Hp.
    discriminate.
  - intros t H1 H2 Hmem.
    rewrite FilterTrends_filter in Hmem. apply filter_In in Hmem as [_ Hp].
    rewrite Check_score in Hp; [discriminate| |]; assumption.
Qed.

End Filter.

(** The trends of the aggregator's test, and one of low score. *)
Definition trend (id title : string) (score : Z) : Trend :=
  {| Source := str "test"; ExternalID := str id; Title := str title;
     URL := []; Description := []; Score := score |}.

Definition sample : list Trend :=
  [ trend "1" "Normal topic" 100;
    trend "2" "Trump did something" 200;
    trend "3" "Philosophy discussion" 150;
    trend "4" "A quiet corner" 3 ].

Definition sample_cfg : FilterConfig := {| AdditionalTerms := []; MinScore := 50 |}.

Lemma FilterTrends_safe_witness :
  FilterTrends (fun r => r) (NewFilter (fun r => r) sample_cfg) sample
    = [trend "1" "Normal topic" 100; trend "3" "Philosophy discussion" 150]
  /\ ~ In (trend "2" "Trump did something" 200)
          (FilterTrends (fun r => r) (NewFilter (fun r => r) sample_cfg) sample)
  /\ ~ In (trend "4" "A quiet corner" 3)
          (FilterTrends (fun r => r) (NewFilter (fun r => r) sample_cfg) sample).
Proof.
  destruct (FilterTrends_safe (fun r => r) sample_cfg sample) as (H1 & H2 & H3).
  split; [rewrite H1; reflexivity|]. split.
  - apply (H2 _ (str "trump") (str "Trump")).
    + left; reflexivity.
    + reflexivity.
    + reflexivity.
    + left. exists [], (str " did something"). reflexivity.
  - apply H3; simpl; lia.
Defined.

End filter_facts.

(* ================================================================== *)
(** * The formatter *)
(* ================================================================== *)

Module poster_facts.

Import strings strings_facts poster.

Lemma LastIndex_unfold c t sub :
  LastIndex (c :: t) sub =
  let r := LastIndex t sub in
  if 0 <=? r then r + 1 else if HasPrefix (c :: t) sub then 0 else -1.
Proof. reflexivity. Qed.

(** Where [LastIndex] points, the substring stands. *)
Lemma LastIndex_found s sub :
  0 <= LastIndex s sub ->
  exists rest, skipn (Z.to_nat (LastIndex s sub)) s = sub ++ rest.
Proof.
  induction s as [|c t IH].
  - simpl. destruct sub; [|lia]. intros _. now exists [].
  - rewrite LastIndex_unfold. cbv zeta.
    destruct (0 <=? LastIndex t sub) eqn:E.
    + apply Z.leb_le in E. intros _.
      destruct (IH E) as [rest Hrest]. exists rest.
      rewrite Z2Nat.inj_add by lia. rewrite Nat.add_comm. simpl. exact Hrest.
    + destruct (HasPrefix (c :: t) sub) eqn:E2; [|lia].
      intros _. apply HasPrefix_split in E2 as [rest ->]. now exists rest.
Qed.

(** [TrimRight] takes bytes of the cutset off the end, and only those. *)
Lemma TrimRight_split s cs :
  exists trimmed,
    s = TrimRight s cs ++ trimmed /\ forallb (in_cutset cs) trimmed = true.
Proof.
  induction s as [|c t (trimmed & Ht & Hall)].
  - now exists [].
  - simpl. destruct (TrimRight t cs) as [|d t'] eqn:E.
    + destruct (in_cutset cs c) eqn:Hc.
      * exists (c :: trimmed). simpl in Ht. subst t. split; [reflexivity|].
        simpl. now rewrite Hc.
      * exists trimmed. simpl in *. now subst t.
    + exists trimmed. split; [|exact Hall]. simpl. now rewrite Ht at 1.
Qed.







End poster_facts.

(* ================================================================== *)
(** * The aggregator: storing a trend once *)
(* ================================================================== *)

Module aggregator_facts.

Import strings_facts monitor.

(** The rows of a (source, external id) pair. *)
Definition rows (st : db.Store) (source external : gostring) : list db.Trend :=
  List.filter (db.trend_matches source (Some external)) (db.trends st).

(** What idx_trends_source_external enforces. *)
Definition unique_index (st : db.Store) : Prop :=
  forall source external, (List.length (rows st source external) <= 1)%nat.

Definition empty_store : db.Store :=
  {| db.quotes := []; db.trends := []; db.posts := [];
     db.trends_seq := 0; db.posts_seq := 0; db.clock := 0; db.faults := [] |}.

Lemma statement_tables st e st' :
  db.statement st = (e, st') ->
  db.trends st' = db.trends st /\ db.posts st' = db.posts st /\
  db.quotes st' = db.quotes st /\ db.clock st' = db.clock st.
Proof.
  unfold db.statement. destruct (db.faults st); intros H; inversion H; auto.
Qed.

Lemma statement_quiet st : db.faults st = [] -> db.statement st = (None, st).
Proof. unfold db.statement. now intros ->. Qed.

Lemma null_if_empty_some s : s <> [] -> db.null_if_empty s = Some s.
Proof. destruct s; [congruence|reflexivity]. Qed.

Lemma rows_app st ts seq source external :
  rows (db.with_trends st ts seq) source external
  = List.filter (db.trend_matches source (Some external)) ts.
Proof. reflexivity. Qed.

(** The four ways [storeTrend] ends. *)
Inductive stored (st : db.Store) (t : Trend) : result bool -> db.Store -> Prop :=
| stored_exists st1 :
    db.trends st1 = db.trends st ->
    rows st (Source t) (ExternalID t) <> [] ->
    stored st t (Ok false) st1
| stored_new st2 row :
    db.trends st2 = db.trends st ++ [row] ->
    db.Source row = Source t ->
    db.ExternalID row = db.null_if_empty (ExternalID t) ->
    existsb (db.trend_matches (Source t) (db.null_if_empty (ExternalID t)))
            (db.trends st) = false ->
    stored st t (Ok true) st2
| stored_failed e st1 :
    db.trends st1 = db.trends st ->
    stored st t (Err e) st1.

Lemma GetTrend_cases st source external :
  let (r, st1) := db.GetTrendBySourceAndExternalID st source external in
  db.trends st1 = db.trends st /\
  match r with
  | Ok row => In row (db.trends st) /\ db.trend_matches source external row = true
  | Err _ => True
  end.
Proof.
  unfold db.GetTrendBySourceAndExternalID.
  destruct (db.statement st) as [[e|] st1] eqn:E1;
    apply statement_tables in E1 as (T1 & _); [auto|].
  rewrite T1.
  destruct (find _ (db.trends st)) as [found|] eqn:Ef; [|auto].
  apply find_some in Ef. auto.
Qed.

Lemma CreateTrend_cases st arg :
  let (r, st2) := db.CreateTrend st arg in
  match r with
  | Ok row =>
    db.trends st2 = db.trends st ++ [row] /\
    db.Source row = db.ct_Source arg /\
    db.ExternalID row = db.ct_ExternalID arg /\
    existsb (db.trend_matches (db.ct_Source arg) (db.ct_ExternalID arg))
            (db.trends st) = false
  | Err _ => db.trends st2 = db.trends st
  end.
Proof.
  unfold db.CreateTrend.
  destruct (db.statement st) as [[e|] st1] eqn:E1;
    apply statement_tables in E1 as (T1 & _); [auto|].
  rewrite T1.
  destruct (existsb _ (db.trends st)) eqn:Ex; [auto|].
  cbn. auto.
Qed.

Lemma storeTrend_cases st t :
  stored st t (fst (storeTrend st t)) (snd (storeTrend st t)).
Proof.
  unfold storeTrend.
  pose proof (GetTrend_cases st (Source t) (Some (ExternalID t))) as Hg.
  destruct (db.GetTrendBySourceAndExternalID st (Source t) (Some (ExternalID t)))
    as [r st1].
  destruct Hg as [T1 Hr].
  assert (Hcreate :
    forall arg, arg = {| db.ct_Source := Source t;
               db.ct_ExternalID := db.null_if_empty (ExternalID t);
               db.ct_Title := Title t;
               db.ct_Url := db.null_if_empty (URL t);
               db.ct_Description := db.null_if_empty (Description t);
               db.ct_Score := Some (Score t) |} ->
    stored st t
      (fst (match db.CreateTrend st1 arg with
            | (Ok _, st2) => (Ok true, st2)
            | (Err e, st2) => (Err (wrapError "create trend" e), st2)
            end))
      (snd (match db.CreateTrend st1 arg with
            | (Ok _, st2) => (Ok true, st2)
            | (Err e, st2) => (Err (wrapError "create trend" e), st2)
            end))).
  { intros arg Harg.
    pose proof (CreateTrend_cases st1 arg) as Hc.
    destruct (db.CreateTrend st1 arg) as [[row|e] st2]; cbn [fst snd].
    - destruct Hc as (T2 & Hs & He & Hex). rewrite T1 in T2, Hex.
      subst arg. cbn in Hs, He, Hex. eapply stored_new; eauto.
    - apply stored_failed. congruence. }
  destruct r as [row|e].
  - cbn [fst snd]. apply stored_exists; [exact T1|].
    destruct Hr as [Hin Hm]. unfold rows. intros Hnil.
    assert (Hf : In row (List.filter (db.trend_matches (Source t)
                  (Some (ExternalID t))) (db.trends st)))
      by (apply filter_In; auto).
    rewrite Hnil in Hf. contradiction.
  - destruct e.
    + apply Hcreate. reflexivity.
    + cbn [fst snd]. apply stored_failed. exact T1.
    + cbn [fst snd]. apply stored_failed. exact T1.
Qed.

Lemma filter_none_length {A} (f : A -> bool) l :
  existsb f l = false -> List.filter f l = [].
Proof.
  induction l as [|x l IH]; simpl; [reflexivity|].
  intros H. apply orb_false_iff in H as [-> H]. now apply IH.
Qed.

Lemma trend_matches_row row t :
  ExternalID t <> [] ->
  db.Source row = Source t ->
  db.ExternalID row = db.null_if_empty (ExternalID t) ->
  db.trend_matches (Source t) (Some (ExternalID t)) row = true.
Proof.
  intros Hne Hs He. unfold db.trend_matches, db.sql_eq.
  rewrite Hs, He, (null_if_empty_some _ Hne).
  now rewrite !gostring_eqb_refl.
Qed.

(** After a successful [storeTrend] of a trend with an identifier, its
    pair has exactly one row. *)
Lemma storeTrend_one_row st t b st1 :
  ExternalID t <> [] -> unique_index st ->
  storeTrend st t = (Ok b, st1) ->
  List.length (rows st1 (Source t) (ExternalID t)) = 1%nat.
Proof.
  intros Hne Huniq Hrun.
  pose proof (storeTrend_cases st t) as Hc. rewrite Hrun in Hc; simpl in Hc.
  inversion Hc as [st' T Hrows|st' row T Hs He Hex|]; subst.
  - unfold rows in *. rewrite T.
    specialize (Huniq (Source t) (ExternalID t)). unfold rows in Huniq.
    destruct (List.filter _ (db.trends st)) as [|x [|y l]];
      [congruence|reflexivity|simpl in Huniq; lia].
  - unfold rows. rewrite T, filter_app.
    rewrite (null_if_empty_some _ Hne) in Hex.
    rewrite (filter_none_length _ _ Hex). simpl.
    now rewrite (trend_matches_row row t Hne Hs He).
Qed.

Lemma storeTrend_keeps_rows st t r st1 source external :
  storeTrend st t = (r, st1) ->
  rows st source external <> [] -> rows st1 source external <> [].
Proof.
  intros Hrun Hrows.
  pose proof (storeTrend_cases st t) as Hc. rewrite Hrun in Hc; simpl in Hc.
  unfold rows in *.
  inversion Hc as [st' T _|st' row T _ _ _|e st' T]; subst; rewrite T; auto.
  rewrite filter_app. intros H. apply app_eq_nil in H as [H _]. auto.
Qed.

(** A trend is never reported new while its pair has a row. *)
Lemma storeTrend_not_new st t st1 :
  ExternalID t <> [] ->
  rows st (Source t) (ExternalID t) <> [] ->
  storeTrend st t <> (Ok true, st1).
Proof.
  intros Hne Hrows Hrun.
  pose proof (storeTrend_cases st t) as Hc. rewrite Hrun in Hc; simpl in Hc.
  inversion Hc as [|st' row T Hs He Hex|]; subst.
  rewrite (null_if_empty_some _ Hne) in Hex.
  apply Hrows. unfold rows. now apply filter_none_length.
Qed.

Lemma storeTrend_again st t :
  ExternalID t <> [] ->
  rows st (Source t) (ExternalID t) <> [] ->
  db.faults st = [] ->
  storeTrend st t = (Ok false, st).
Proof.
  intros Hne Hrows Hq.
  unfold storeTrend, db.GetTrendBySourceAndExternalID.
  rewrite (statement_quiet st Hq).
  destruct (find _ (db.trends st)) as [found|] eqn:Ef; [reflexivity|].
  exfalso. apply Hrows. unfold rows.
  apply filter_none_length.
  destruct (existsb _ (db.trends st)) eqn:Ex; [|reflexivity].
  apply existsb_exists in Ex as (x & Hin & Hx).
  apply find_none with (x := x) in Ef; [congruence|exact Hin].
Qed.

Section Fetching.

Variable lowerTable : Z -> Z.

(** The trends [FetchAndStore] reports new had no row when it reached
    them. *)
Lemma store_step_new ts :
  forall acc st news st',
    fold_left store_step ts (acc, st) = (news, st') ->
    forall source external,
      external <> [] ->
      rows st source external <> [] ->
      (forall t, In t acc -> ~ (Source t = source /\ ExternalID t = external)) ->
      forall t, In t news -> ~ (Source t = source /\ ExternalID t = external).
Proof.
  induction ts as [|t0 ts IH]; intros acc st news st' Hrun source external
    Hne Hrows Hacc; simpl in Hrun.
  - inversion Hrun; subst. exact Hacc.
  - destruct (storeTrend st t0) as [r st1] eqn:E.
    assert (Hrows1 : rows st1 source external <> [])
      by (eapply storeTrend_keeps_rows; eauto).
    destruct r as [[|]|e].
    + apply (IH _ _ _ _ Hrun source external Hne Hrows1).
      intros t Hin. apply in_app_or in Hin as [Hin|[<-|[]]]; [auto|].
      intros [Hs He]. subst source external.
      now apply (storeTrend_not_new st t0 st1 Hne Hrows).
    + apply (IH _ _ _ _ Hrun source external Hne Hrows1 Hacc).
    + apply (IH _ _ _ _ Hrun source external Hne Hrows1 Hacc).
Qed.

Lemma FetchAndStore_skips_stored a st news st' source external :
  FetchAndStore lowerTable a st = (Ok news, st') ->
  external <> [] ->
  rows st source external <> [] ->
  forall t, In t news -> ~ (Source t = source /\ ExternalID t = external).
Proof.
  unfold FetchAndStore. intros Hrun Hne Hrows.
  destruct (fold_left store_step _ ([], st)) as [news' st''] eqn:E.
  inversion Hrun; subst.
  eapply store_step_new; eauto.
Qed.

(** C5, for a trend that has an external identifier.  Once [storeTrend]
    has succeeded for it, its (source, externalId) pair has exactly one
    row; a second call does not report it new and adds no row -- it
    answers "not new" outright when no statement fails; and no later
    [FetchAndStore] lists a trend of that pair among the new ones. *)
Theorem storeTrend_idempotent (st : db.Store) (t : Trend) (b : bool)
        (st1 : db.Store) :
  ExternalID t <> [] ->
  unique_index st ->
  storeTrend st t = (Ok b, st1) ->
  List.length (rows st1 (Source t) (ExternalID t)) = 1%nat
  /\ (forall r st2, storeTrend st1 t = (r, st2) ->
        r <> Ok true /\ db.trends st2 = db.trends st1)
  /\ (db.faults st1 = [] -> storeTrend st1 t = (Ok false, st1))
  /\ (forall a news st2,
        FetchAndStore lowerTable a st1 = (Ok news, st2) ->
        forall t', In t' news ->
          ~ (Source t' = Source t /\ ExternalID t' = ExternalID t)).
Proof.
  intros Hne Huniq Hrun.
  pose proof (storeTrend_one_row st t b st1 Hne Huniq Hrun) as Hone.
  assert (Hrows : rows st1 (Source t) (ExternalID t) <> []).
  { intros E. rewrite E in Hone. discriminate. }
  split; [exact Hone|]. split; [|split].
  - intros r st2 Hrun2. split.
    + intros ->. now apply (storeTrend_not_new st1 t st2 Hne Hrows).
    + pose proof (storeTrend_cases st1 t) as Hc. rewrite Hrun2 in Hc; simpl in Hc.
      inversion Hc as [st' T _|st' row T Hs He Hex|e st' T]; subst; auto.
      exfalso. now apply (storeTrend_not_new st1 t st2 Hne Hrows).
  - intros Hq. now apply storeTrend_again.
  - intros a news st2 Hf. eapply FetchAndStore_skips_stored; eauto.
Qed.

End Fetching.

Lemma unique_index_empty : unique_index empty_store.
Proof. intros source external. simpl. lia. Qed.

Definition story : Trend :=
  {| Source := str "hackernews"; ExternalID := str "8863";
     Title := str "My startup"; URL := []; Description := []; Score := 111 |}.

Definition once : db.Store := snd (storeTrend empty_store story).

Lemma storeTrend_idempotent_witness :
  List.length (rows once (Source story) (ExternalID story)) = 1%nat
  /\ storeTrend once story = (Ok false, once).
Proof.
  assert (Hne : ExternalID story <> []) by discriminate.
  assert (Hrun : storeTrend empty_store story = (Ok true, once)) by reflexivity.
  destruct (storeTrend_idempotent (fun r => r) empty_store story true once
              Hne unique_index_empty Hrun) as (H1 & _ & H3 & _).
  split; [exact H1|apply H3; reflexivity].
Defined.

(** C5 as stated fails for a trend without an external identifier: the
    lookup compares with the empty string, the row holds NULL, and each
    call inserts a row and reports the trend new. *)
Definition anonymous : Trend :=
  {| Source := str "hackernews"; ExternalID := [];
     Title := str "My startup"; URL := []; Description := []; Score := 111 |}.

Lemma storeTrend_twice_without_id :
  fst (storeTrend empty_store anonymous) = Ok true
  /\ fst (storeTrend (snd (storeTrend empty_store anonymous)) anonymous) = Ok true
  /\ List.length
       (db.trends (snd (storeTrend (snd (storeTrend empty_store anonymous))
                                   anonymous))) = 2%nat.
Proof. repeat split. Qed.

End aggregator_facts.

(* ================================================================== *)
(** * The vector index *)
(* ================================================================== *)

Module index_facts.

Import float float_facts embedder matcher.

(** A stored quote with its similarity to a query: the cosine of the
    normalized query and the normalized embedding, as [Search] and
    [SearchWithThreshold] compute it. *)
Definition entry (q : list float32) (qe : QuoteWithEmbedding) : VectorMatch :=
  {| Quote := qe_Quote qe;
     Similarity := CosineSimilarity (Normalize q) (Normalize (qe_Embedding qe)) |}.

Definition entries (qs : list QuoteWithEmbedding) (q : list float32)
  : list VectorMatch := map (entry q) qs.

(** The entries at or above a threshold, in the order of the index. *)
Definition above (qs : list QuoteWithEmbedding) (q : list float32)
           (t : float32) : list VectorMatch :=
  List.filter (fun m => geb (Similarity m) t) (entries qs q).

(** No match has a smaller similarity than a match after it. *)
Definition descending (ms : list VectorMatch) : Prop :=
  StronglySorted (fun a b => geb (Similarity a) (Similarity b) = true) ms.

Lemma In_firstn {A} n (l : list A) x : In x (firstn n l) -> In x l.
Proof.
  intros H. rewrite <- (firstn_skipn n l). apply in_or_app. now left.
Qed.

Lemma In_skipn {A} n (l : list A) x : In x (skipn n l) -> In x l.
Proof.
  intros H. rewrite <- (firstn_skipn n l). apply in_or_app. now right.
Qed.

Lemma StronglySorted_firstn {A} (R : A -> A -> Prop) n l :
  StronglySorted R l -> StronglySorted R (firstn n l).
Proof.
  revert n; induction l as [|x l IH]; intros [|n] H; simpl; try constructor.
  - inversion H; subst. now apply IH.
  - inversion H as [|? ? _ Hall]; subst.
    rewrite Forall_forall in *. intros y Hy. apply Hall.
    eapply In_firstn; eauto.
Qed.

Lemma StronglySorted_split {A} (R : A -> A -> Prop) n l :
  StronglySorted R l ->
  forall x y, In x (firstn n l) -> In y (skipn n l) -> R x y.
Proof.
  revert n; induction l as [|a l IH]; intros [|n] H x y Hx Hy; simpl in *;
    try contradiction.
  inversion H as [|? ? Hs Hall]; subst.
  destruct Hx as [<-|Hx].
  - rewrite Forall_forall in Hall. apply Hall.
    eapply In_skipn; eauto.
  - eapply IH; eauto.
Qed.

Lemma StronglySorted_map {A B} (f : A -> B) (R : B -> B -> Prop) l :
  StronglySorted (fun x y => R (f x) (f y)) l -> StronglySorted R (map f l).
Proof.
  induction 1 as [|x l Hs IH Hall]; simpl; constructor; auto.
  rewrite Forall_forall in *. intros y Hy.
  apply in_map_iff in Hy as (z & <- & Hz). auto.
Qed.

Lemma ordered_is_descending {A} (sim : A -> spec_float) (l : list A) :
  (forall a, In a l -> is_nan (sim a) = false) ->
  sort.ordered (fun a b => gtb (sim a) (sim b)) l ->
  StronglySorted (fun a b => geb (sim a) (sim b) = true) l.
Proof.
  unfold sort.ordered. intros Hn H.
  induction H as [|x l Hs IH Hall]; constructor.
  - apply IH. intros a Ha. apply Hn. now right.
  - rewrite Forall_forall in *. intros y Hy.
    apply not_gtb_geb; [apply Hn; now left|apply Hn; now right|auto].
Qed.

Section Index.

Context {sorter : sort.Sorter}.

Lemma above_threshold_entries qs q t :
  above_threshold (map qe_Quote qs) (Normalize q) t
                  (map (fun qe => Normalize (qe_Embedding qe)) qs)
  = Returned (above qs q t).
Proof.
  unfold above, entries.
  induction qs as [|qe qs IH]; [reflexivity|].
  cbn [map above_threshold List.filter entry Similarity tl].
  destruct (geb (CosineSimilarity (Normalize q) (Normalize (qe_Embedding qe))) t).
  - now rewrite IH.
  - exact IH.
Qed.

Lemma len_zero_nil {A} (l : list A) : (len l =? 0) = true -> l = [].
Proof. unfold len. destruct l; [reflexivity|]. simpl. intros H. discriminate. Qed.

(** C3.  On an index made by [NewVectorIndex], [SearchWithThreshold]
    returns; every match it returns has a similarity at or above the
    threshold; the matches are in descending order of similarity; they are
    entries of the index, and the entries at or above the threshold it
    leaves out are no better than those it returns; with [max] positive
    there are at most [max] of them; with [max] zero or negative all the
    entries at or above the threshold are returned; and an empty index
    gives the empty result. *)
Theorem SearchWithThreshold_correct (qs : list QuoteWithEmbedding)
        (q : list float32) (t : float32) (max : Z) :
  exists results rest,
    SearchWithThreshold (NewVectorIndex qs) q t max = Returned results
    /\ Forall (fun m => geb (Similarity m) t = true) results
    /\ descending results
    /\ Permutation (results ++ rest) (above qs q t)
    /\ (forall r o, In r results -> In o rest ->
          geb (Similarity r) (Similarity o) = true)
    /\ (0 < max -> len results <= max)
    /\ (max <= 0 -> rest = [])
    /\ (qs = [] -> results = []).
Proof.
  unfold SearchWithThreshold, NewVectorIndex. cbn [quotes embeddings].
  destruct (len (map qe_Quote qs) =? 0) eqn:E0.
  { apply len_zero_nil in E0.
    destruct qs; [|discriminate].
    exists [], []. split; [reflexivity|]. split; [constructor|].
    split; [constructor|]. split; [apply perm_nil|].
    split; [intros r o []|]. split; [intros H; unfold len; simpl; lia|].
    split; reflexivity. }
  rewrite above_threshold_entries.
  set (less := fun a b : VectorMatch => gtb (Similarity a) (Similarity b)).
  set (sorted := sort.Slice less (above qs q t)).
  assert (Hperm : Permutation (above qs q t) sorted) by apply sort.Slice_perm.
  assert (Habove : forall m, In m sorted -> geb (Similarity m) t = true).
  { intros m Hm. apply (Permutation_in _ (Permutation_sym Hperm)) in Hm.
    unfold above in Hm. now apply filter_In in Hm as [_ Hm]. }
  assert (Hnan : forall m, In m sorted -> is_nan (Similarity m) = false).
  { intros m Hm. now destruct (geb_not_nan _ _ (Habove m Hm)). }
  assert (Hdesc : descending sorted).
  { apply ordered_is_descending; [exact Hnan|].
    apply sort.Slice_ordered. apply gtb_strict_weak.
    intros a Ha. apply Hnan. now apply (Permutation_in _ Hperm). }
  destruct ((0 <? max) && (max <? len sorted)) eqn:Ecut.
  - apply andb_true_iff in Ecut as [E1 E2].
    apply Z.ltb_lt in E1, E2.
    exists (firstn (Z.to_nat max) sorted), (skipn (Z.to_nat max) sorted).
    split; [reflexivity|]. repeat split.
    + apply Forall_forall. intros m Hm. apply Habove.
      eapply In_firstn; eauto.
    + now apply StronglySorted_firstn.
    + rewrite firstn_skipn. now apply Permutation_sym.
    + intros r o Hr Ho.
      exact (StronglySorted_split _ (Z.to_nat max) sorted Hdesc r o Hr Ho).
    + intros _. unfold len. rewrite length_firstn. lia.
    + lia.
    + intros ->. discriminate.
  - exists sorted, []. split; [reflexivity|]. repeat split.
    + now apply Forall_forall.
    + exact Hdesc.
    + rewrite app_nil_r. now apply Permutation_sym.
    + intros r o _ [].
    + intros Hpos. apply andb_false_iff in Ecut as [E|E].
      * apply Z.ltb_ge in E. lia.
      * apply Z.ltb_ge in E. lia.
    + intros ->. discriminate.
Qed.

(** *** [Search] *)

Definition matchOf (quotes : list db.Quote) (d : db.Quote) (s : scoredQuote)
  : VectorMatch :=
  {| Quote := nth (fst s) quotes d; Similarity := snd s |}.

Lemma pick_in_range quotes d scores :
  (forall s, In s scores -> (fst s < List.length quotes)%nat) ->
  pick quotes scores = Returned (map (matchOf quotes d) scores).
Proof.
  induction scores as [|[i sim] scores IH]; intros H; [reflexivity|].
  simpl.
  assert (Hi : (i < List.length quotes)%nat) by (apply (H (i, sim)); now left).
  destruct (nth_error quotes i) as [quote|] eqn:E;
    [|apply nth_error_None in E; lia].
  rewrite IH by (intros s Hs; apply H; now right).
  unfold matchOf at 2. simpl.
  now rewrite (nth_error_nth _ _ d E).
Qed.

Lemma score_from_range i nq embs :
  forall s, In s (score_from i nq embs) ->
            (i <= fst s < i + List.length embs)%nat.
Proof.
  revert i; induction embs as [|emb embs IH]; intros i s Hs; simpl in *.
  - contradiction.
  - destruct Hs as [<-|Hs]; [simpl; lia|].
    apply IH in Hs. lia.
Qed.

Lemma score_from_entries pre qs q d :
  map (matchOf (pre ++ map qe_Quote qs) d)
      (score_from (List.length pre) (Normalize q)
                  (map (fun qe => Normalize (qe_Embedding qe)) qs))
  = entries qs q.
Proof.
  revert pre; induction qs as [|qe qs IH]; intros pre; [reflexivity|].
  cbn [map score_from entries]. f_equal.
  - unfold matchOf, entry. cbn [fst snd]. f_equal.
    rewrite app_nth2 by lia. now rewrite Nat.sub_diag.
  - specialize (IH (pre ++ [qe_Quote qe])).
    rewrite <- app_assoc in IH. cbn [app] in IH.
    rewrite length_app in IH. cbn [List.length] in IH.
    rewrite Nat.add_1_r in IH. exact IH.
Qed.

(** C4, as the code has it.  On an index made by [NewVectorIndex], for a
    [k] that is not negative and similarities that are numbers, [Search]
    returns [min k n] matches in descending order of similarity; they are
    entries of the index, each quote with its similarity, and no entry
    left out has a greater similarity than one returned. *)
Theorem Search_top_k (qs : list QuoteWithEmbedding) (q : list float32) (k : Z) :
  0 <= k ->
  (forall qe, In qe qs -> is_nan (Similarity (entry q qe)) = false) ->
  exists results rest,
    Search (NewVectorIndex qs) q k = Returned results
    /\ len results = Z.min k (len qs)
    /\ descending results
    /\ Permutation (results ++ rest) (entries qs q)
    /\ (forall r o, In r results -> In o rest ->
          geb (Similarity r) (Similarity o) = true).
Proof.
  intros Hk Hnum.
  unfold Search, top, scores_of, NewVectorIndex. cbn [quotes embeddings].
  destruct (len (map qe_Quote qs) =? 0) eqn:E0.
  { apply len_zero_nil in E0. destruct qs; [|discriminate].
    exists [], []. split; [reflexivity|].
    split; [unfold len; simpl; lia|]. split; [constructor|].
    split; [apply perm_nil|intros r o []]. }
  destruct qs as [|qe0 qs0]; [discriminate|].
  set (qs := qe0 :: qs0) in *.
  set (d := qe_Quote qe0).
  unfold len. rewrite !length_map.
  destruct (Z.of_nat (List.length qs) <? Z.of_nat (List.length qs)) eqn:E1;
    [apply Z.ltb_lt in E1; lia|].
  rewrite Nat.sub_diag. cbn [repeat]. rewrite app_nil_r.
  set (scores := score_from 0 (Normalize q)
                   (map (fun qe => Normalize (qe_Embedding qe)) qs)).
  set (sorted := sort.Slice _ scores).
  assert (Hperm : Permutation scores sorted) by apply sort.Slice_perm.
  assert (Hent : map (matchOf (map qe_Quote qs) d) scores = entries qs q)
    by apply (score_from_entries [] qs q d).
  assert (Hsnd : forall s, In s scores -> is_nan (snd s) = false).
  { intros s Hs.
    apply (in_map (matchOf (map qe_Quote qs) d)) in Hs. rewrite Hent in Hs.
    unfold entries in Hs. apply in_map_iff in Hs as (qe & Hqe & Hin).
    apply Hnum in Hin. rewrite Hqe in Hin. exact Hin. }
  assert (Hrange : forall s, In s sorted ->
                     (fst s < List.length (map qe_Quote qs))%nat).
  { intros s Hs. apply (Permutation_in _ (Permutation_sym Hperm)) in Hs.
    apply score_from_range in Hs. rewrite length_map in *. lia. }
  assert (Hlen : List.length sorted = List.length qs).
  { rewrite <- (Permutation_length Hperm). unfold scores.
    rewrite <- (length_map (matchOf (map qe_Quote qs) d)).
    fold scores. rewrite Hent. unfold entries. now rewrite length_map. }
  assert (Hdesc : descending (map (matchOf (map qe_Quote qs) d) sorted)).
  { unfold descending. apply StronglySorted_map. cbn [matchOf Similarity].
    apply ordered_is_descending.
    - intros s Hs. apply Hsnd. now apply (Permutation_in _ (Permutation_sym Hperm)).
    - apply sort.Slice_ordered.
      apply (gtb_strict_weak (fun s : scoredQuote => snd s)). exact Hsnd. }
  set (k' := if Z.of_nat (List.length sorted) <? k
             then Z.of_nat (List.length sorted) else k).
  assert (Hk' : k' = Z.min k (Z.of_nat (List.length qs))).
  { unfold k'. rewrite Hlen.
    destruct (Z.of_nat (List.length qs) <? k) eqn:E;
      [apply Z.ltb_lt in E|apply Z.ltb_ge in E]; lia. }
  destruct (k' <? 0) eqn:E2; [apply Z.ltb_lt in E2; lia|].
  exists (map (matchOf (map qe_Quote qs) d) (firstn (Z.to_nat k') sorted)),
         (map (matchOf (map qe_Quote qs) d) (skipn (Z.to_nat k') sorted)).
  split.
  { apply pick_in_range. intros s Hs. apply Hrange.
    eapply In_firstn; eauto. }
  repeat split.
  - rewrite length_map, length_firstn, Hlen. lia.
  - rewrite <- firstn_map. now apply StronglySorted_firstn.
  - rewrite <- map_app, firstn_skipn, <- Hent.
    apply Permutation_map. now apply Permutation_sym.
  - intros r o Hr Ho. rewrite <- firstn_map in Hr. rewrite <- skipn_map in Ho.
    exact (StronglySorted_split _ (Z.to_nat k') _ Hdesc r o Hr Ho).
Qed.

End Index.

(** The index of the package's tests. *)
Definition quote (id : Z) (text : string) : db.Quote :=
  {| db.Quote_ID := id; db.Text := str text; db.TextHash := [];
     db.SourceBook := []; db.Chapter := None; db.Character := None;
     db.Themes := []; db.ModernRelevance := None; db.Embedding := None;
     db.CharCount := 0; db.TimesPosted := None; db.LastPostedAt := None;
     db.Quote_CreatedAt := None |}.

(** A [float32] constant written in decimal: [m * 10 ^ e]. *)
Definition f32 (m : positive) (e : Z) : float32 := of_decimal 24 128 false m e.

Definition three : list QuoteWithEmbedding :=
  [ {| qe_Quote := quote 1 "Quote 1"; qe_Embedding := [f32 1 0; zero; zero] |};
    {| qe_Quote := quote 2 "Quote 2"; qe_Embedding := [zero; f32 1 0; zero] |};
    {| qe_Quote := quote 3 "Quote 3";
       qe_Embedding := [f32 7 (-1); f32 7 (-1); zero] |} ].

Definition twins : list QuoteWithEmbedding :=
  [ {| qe_Quote := quote 1 "Quote 1"; qe_Embedding := [f32 1 0; zero; zero] |};
    {| qe_Quote := quote 2 "Quote 2"; qe_Embedding := [f32 1 0; zero; zero] |} ].

Lemma Search_top_k_witness :
  option_map (map (fun m => db.Quote_ID (Quote m)))
    (match Search (sorter := sort_facts.StableSorter) (NewVectorIndex three)
                  [f32 1 0; zero; zero] 2 with
     | Returned ms => Some ms
     | Panicked _ => None
     end) = Some [1; 3]
  /\ exists results rest,
       Search (sorter := sort_facts.StableSorter) (NewVectorIndex three)
              [f32 1 0; zero; zero] 2 = Returned results
       /\ len results = Z.min 2 (len three)
       /\ descending results
       /\ Permutation (results ++ rest) (entries three [f32 1 0; zero; zero])
       /\ (forall r o, In r results -> In o rest ->
             geb (Similarity r) (Similarity o) = true).
Proof.
  split; [vm_compute; reflexivity|].
  apply (Search_top_k (sorter := sort_facts.StableSorter) three
                      [f32 1 0; zero; zero] 2).
  - lia.
  - intros qe [<-|[<-|[<-|[]]]]; vm_compute; reflexivity.
Defined.

(** Twelve quotes with one embedding, and a thirteenth that is the
    query. *)
Definition thirteen : list QuoteWithEmbedding :=
  map (fun i => {| qe_Quote := quote i "Quote";
                   qe_Embedding := [f32 7 (-1); f32 7 (-1); zero] |})
      [1; 2; 3; 4; 5; 6; 7; 8; 9; 10; 11; 12]
  ++ [ {| qe_Quote := quote 13 "Quote"; qe_Embedding := [f32 1 0; zero; zero] |} ].

(** A quote whose stored embedding holds a NaN, between two others. *)
Definition spoiled : list QuoteWithEmbedding :=
  [ {| qe_Quote := quote 1 "Quote 1";
       qe_Embedding := [f32 7 (-1); f32 7 (-1); zero] |};
    {| qe_Quote := quote 2 "Quote 2"; qe_Embedding := [S754_nan; zero; zero] |};
    {| qe_Quote := quote 3 "Quote 3"; qe_Embedding := [f32 1 0; zero; zero] |} ].

(** The identifiers and the similarities of what a search returns. *)
Definition found (r : option (outcome (list VectorMatch)))
  : option (list (Z * float32)) :=
  match r with
  | Some (Returned ms) =>
    Some (map (fun m => (db.Quote_ID (Quote m), Similarity m)) ms)
  | _ => None
  end.

(** Where the sort of the Go distribution and a sorter that honours the
    contract give the same scores, [Search] is [Search_go]. *)
Lemma Search_go_agrees {sorter : sort.Sorter} v q k :
  sort.GoSlice by_similarity (scores_of v (Normalize q))
  = Some (sort.Slice by_similarity (scores_of v (Normalize q))) ->
  Search_go v q k = Some (Search v q k).
Proof.
  intros H. unfold Search_go, Search.
  destruct (len (quotes v) =? 0); [reflexivity|]. cbv zeta.
  destruct (len (quotes v) <? len (embeddings v)); [reflexivity|].
  now rewrite H.
Qed.

(** C4 as stated fails, with [sort.Slice] as the Go distribution
    implements it.  Of thirteen quotes, the first twelve of one
    similarity, the three best come back as quotes 13, 7 and 3: quotes 7
    and 3 are of equal similarity and not in the order of insertion, and
    quotes 1 and 2 are left out.  Two quotes of equal similarity do come
    back in the order of insertion.  With a similarity that is NaN in
    the index the best quote is not returned.  And for [k = -1] the call
    does not return: the allocation of the result panics. *)
Lemma Search_neither_total_nor_stable :
  found (Search_go (NewVectorIndex thirteen) [f32 1 0; zero; zero] 3)
  = Some [(13, f32 1 0);
          (7, S754_finite false 11863283 (-24));
          (3, S754_finite false 11863283 (-24))]
  /\ map Similarity (entries thirteen [f32 1 0; zero; zero])
     = repeat (S754_finite false 11863283 (-24)) 12 ++ [f32 1 0]
  /\ found (Search_go (NewVectorIndex twins) [f32 1 0; zero; zero] 2)
     = Some [(1, f32 1 0); (2, f32 1 0)]
  /\ found (Search_go (NewVectorIndex spoiled) [f32 1 0; zero; zero] 1)
     = Some [(1, S754_finite false 11863283 (-24))]
  /\ map Similarity (entries spoiled [f32 1 0; zero; zero])
     = [S754_finite false 11863283 (-24); S754_nan; f32 1 0]
  /\ Search_go (NewVectorIndex three) [f32 1 0; zero; zero] (-1)
     = Some (Panicked "makeslice: len out of range")
  /\ Search (sorter := sort_facts.StableSorter) (NewVectorIndex three)
            [f32 1 0; zero; zero] (-1)
     = Panicked "makeslice: len out of range".
Proof. vm_compute. repeat split. Qed.

End index_facts.

(* ================================================================== *)
(** * Rounding in binary64 *)
(* ================================================================== *)

Module rounding_facts.

Import float.



(** ** Shifting a mantissa to the right *)




(** ** The number of binary digits *)



(** ** Rounding to nearest, ties to even *)









(** ** The square root of a normal number *)




(** ** The product of two normal numbers *)












(** ** Narrowing to binary32 *)










End rounding_facts.

(* ================================================================== *)
(** * Cosine similarity *)
(* ================================================================== *)

Module cosine_facts.

Import float embedder rounding_facts.

(** [assert.InDelta(t, expected, actual, delta)] on [float64] values. *)
Definition InDelta (expected actual delta : float64) : bool :=
  SFleb (SFabs (SFsub 53 1024 expected actual)) delta.

(** ** The sign of a rounded value *)

Lemma binary_round_aux_opp prec emax sx mx ex lx :
  binary_round_aux prec emax (negb sx) mx ex lx
  = SFopp (binary_round_aux prec emax sx mx ex lx).
Proof.
  unfold binary_round_aux.
  destruct (shr_fexp prec emax mx ex lx) as [mrs e].
  destruct (shr_fexp prec emax _ e loc_Exact) as [mrs' e'].
  destruct (shr_m mrs'); [reflexivity| |reflexivity].
  destruct (e' <=? emax - prec); reflexivity.
Qed.

Lemma binary_round_opp prec emax sx mx ex :
  binary_round prec emax (negb sx) mx ex
  = SFopp (binary_round prec emax sx mx ex).
Proof.
  unfold binary_round. destruct (shl_align mx ex _).
  apply binary_round_aux_opp.
Qed.

Lemma normalize_signed prec emax s m e z :
  binary_normalize prec emax (signed s m) e z = binary_round prec emax s m e.
Proof. destruct s; reflexivity. Qed.

Lemma to64_opp x : to64 (SFopp x) = SFopp (to64 x).
Proof.
  destruct x as [s|s| |s m e]; try reflexivity.
  cbn [SFopp to64]. rewrite !normalize_signed. apply binary_round_opp.
Qed.

Lemma to32_opp x : to32 (SFopp x) = SFopp (to32 x).
Proof.
  destruct x as [s|s| |s m e]; try reflexivity.
  cbn [SFopp to32]. rewrite !normalize_signed. apply binary_round_opp.
Qed.


Lemma fmul_opp_opp x : fmul (SFopp x) (SFopp x) = fmul x x.
Proof.
  unfold fmul.
  destruct x as [sx|sx| |sx mx ex]; cbn [SFopp SFmul]; try reflexivity;
    now destruct sx.
Qed.

Lemma fdiv_opp_l x y : fdiv (SFopp x) y = SFopp (fdiv x y).
Proof.
  unfold fdiv.
  destruct x as [sx|sx| |sx mx ex], y as [sy|sy| |sy my ey]; cbn [SFopp SFdiv];
    try reflexivity; try (now destruct sx, sy).
  destruct (SFdiv_core_binary 53 1024 (Zpos mx) ex (Zpos my) ey) as [[mz ez] lz].
  rewrite <- negb_xorb_l. apply binary_round_aux_opp.
Qed.

(** ** The accumulators *)

(** NaN, or a value whose sign bit is clear. *)
Definition nonneg (x : spec_float) : Prop :=
  match x with
  | S754_zero s | S754_infinity s | S754_finite s _ _ => s = false
  | S754_nan => True
  end.


Lemma binary_round_aux_nonneg prec emax mx ex lx :
  nonneg (binary_round_aux prec emax false mx ex lx).
Proof.
  unfold binary_round_aux.
  destruct (shr_fexp prec emax mx ex lx) as [mrs e].
  destruct (shr_fexp prec emax _ e loc_Exact) as [mrs' e'].
  destruct (shr_m mrs'); [reflexivity| |exact I].
  destruct (e' <=? emax - prec); reflexivity.
Qed.












(** The sum of squares of a vector of zeros is zero. *)
Lemma norm_sq_zeros a :
  Forall (fun x => exists s, x = S754_zero s) a -> norm_sq a = zero.
Proof.
  unfold norm_sq. induction 1 as [|x a [s ->] _ IH]; [reflexivity|].
  cbn [fold_left].
  replace (fadd zero (fmul (widen (S754_zero s)) (widen (S754_zero s))))
    with zero by now destruct s.
  exact IH.
Qed.


Lemma fsqrt_nonneg x : nonneg x -> nonneg (fsqrt x).
Proof.
  unfold fsqrt. destruct x as [s|s| |s m e]; cbn [nonneg SFsqrt];
    intros H; subst; try reflexivity; try exact I.
  destruct (SFsqrt_core_binary 53 1024 (Zpos m) e) as [[mz ez] lz].
  apply binary_round_aux_nonneg.
Qed.







(** The vectors of the package's test: small integers. *)
Definition vec (l : list Z) : list float32 :=
  map (fun z => binary_normalize 24 128 z 0 false) l.


(** Three tenths, seven and minus a million and one quarter, in binary32:
    a vector that is in no test. *)
Definition sample : list float32 :=
  [of_decimal 24 128 false 3 (-1);
   binary_normalize 24 128 7 0 false;
   binary_normalize 24 128 (-4000001) (-2) false].


(** The cases of the package's test, with its tolerance. *)
Example CosineSimilarity_tests :
  let one := of_decimal 53 1024 false 1 0 in
  let tol := of_decimal 53 1024 false 1 (-4) in
  InDelta one (to64 (CosineSimilarity (vec [1; 2; 3]) (vec [1; 2; 3]))) tol
    = true
  /\ InDelta zero (to64 (CosineSimilarity (vec [1; 0; 0]) (vec [0; 1; 0]))) tol
     = true
  /\ InDelta (SFopp one)
             (to64 (CosineSimilarity (vec [1; 0; 0]) (vec [-1; 0; 0]))) tol
     = true
  /\ CosineSimilarity (vec [1; 2]) (vec [1; 2; 3]) = zero
  /\ CosineSimilarity (vec [0; 0; 0]) (vec [1; 2; 3]) = zero.
Proof. vm_compute. repeat split. Qed.


End cosine_facts.

(* ================================================================== *)
(** * The selector's reading of a completion *)
(* ================================================================== *)

Module selector_facts.

Import matcher.

(** No byte of the text is an opening brace. *)
Definition braceless (s : gostring) : Prop :=
  Forall (fun c => json.one_of c "{" = false) s.

Lemma braceless_suffix pre s : braceless (pre ++ s) -> braceless s.
Proof. intros H. apply Forall_app in H. tauto. Qed.

Lemma Contains_braceless s :
  strings.Contains s (str "{") = false -> braceless s.
Proof.
  unfold strings.Contains, braceless.
  induction s as [|c t IH]; intros H; [constructor|].
  rewrite strings_facts.Index_unfold in H.
  change (strings.HasPrefix (c :: t) (str "{"))
    with (Ascii.eqb "{" c && true) in H.
  rewrite andb_true_r in H.
  destruct (Ascii.eqb "{" c) eqn:E; [discriminate|].
  cbv zeta in H.
  constructor.
  - unfold json.one_of. simpl. rewrite Ascii.eqb_sym, E. reflexivity.
  - apply IH. destruct (strings.Index t (str "{") <? 0) eqn:E1.
    + apply Z.ltb_lt in E1. apply Z.leb_gt. lia.
    + apply Z.ltb_ge in E1. apply Z.leb_gt in H. lia.
Qed.

Lemma extractJSON_without_brace s :
  strings.Contains s (str "{") = false -> extractJSON s = [].
Proof.
  intros H. unfold extractJSON, strings.Contains in *.
  apply Z.leb_gt in H.
  pose proof (strings_facts.Index_lower s (str "{")) as L.
  replace (strings.Index s (str "{")) with (-1) by lia.
  reflexivity.
Qed.

(** What the sub-lexers leave is a suffix of what they were given. *)
Definition suffix_of (rest s : gostring) : Prop := exists pre, s = pre ++ rest.

Lemma suffix_refl s : suffix_of s s.
Proof. now exists []. Qed.

Lemma suffix_cons c rest s : suffix_of rest s -> suffix_of rest (c :: s).
Proof. intros [pre ->]. now exists (c :: pre). Qed.

Lemma suffix_trans a b c : suffix_of a b -> suffix_of b c -> suffix_of a c.
Proof. intros [p ->] [q ->]. exists (q ++ p). now rewrite app_assoc. Qed.

Lemma braceless_of_suffix rest s : suffix_of rest s -> braceless s -> braceless rest.
Proof. intros [pre ->]. apply braceless_suffix. Qed.

Create HintDb suffix.

#[local] Hint Resolve suffix_refl suffix_cons : suffix.

Lemma lex_string_suffix : forall n s raw rest,
  (List.length s <= n)%nat ->
  json.lex_string s = Some (raw, rest) -> suffix_of rest s.
Proof.
  induction n as [|n IH]; intros s raw rest Hn H.
  - destruct s; [discriminate | simpl in Hn; lia].
  - destruct s as [|c t]; [discriminate|]. simpl in Hn, H.
    destruct (json.is_dq c).
    { injection H as _ <-. auto with suffix. }
    destruct (json.is_backslash c).
    { destruct t as [|e t1]; [discriminate|].
      destruct (json.is_dq e || json.is_backslash e || json.one_of e "/bfnrt").
      - destruct (json.lex_string t1) as [[raw1 rest1]|] eqn:E; [|discriminate].
        injection H as _ <-. simpl in Hn.
        do 2 apply suffix_cons. apply (IH t1 raw1 rest1); [lia | exact E].
      - destruct (json.one_of e "u"); [|discriminate].
        destruct t1 as [|h1 [|h2 [|h3 [|h4 t2]]]]; try discriminate.
        destruct (json.is_hex h1 && json.is_hex h2 && json.is_hex h3 && json.is_hex h4);
          [|discriminate].
        destruct (json.lex_string t2) as [[raw1 rest1]|] eqn:E; [|discriminate].
        injection H as _ <-. simpl in Hn.
        do 6 apply suffix_cons. apply (IH t2 raw1 rest1); [lia | exact E]. }
    destruct (byte_val c <? 32); [discriminate|].
    destruct (json.lex_string t) as [[raw1 rest1]|] eqn:E; [|discriminate].
    injection H as _ <-.
    apply suffix_cons. apply (IH t raw1 rest1); [lia | exact E].
Qed.

Lemma span_digits_suffix s : suffix_of (snd (json.span_digits s)) s.
Proof.
  induction s as [|c t IH]; simpl; [apply suffix_refl|].
  destruct (json.is_digit c); [|apply suffix_refl].
  destruct (json.span_digits t) as [ds rest]. simpl in *.
  now apply suffix_cons.
Qed.

Lemma lex_exponent_suffix acc s lit rest :
  json.lex_exponent acc s = Some (lit, rest) -> suffix_of rest s.
Proof.
  unfold json.lex_exponent. destruct s as [|e t1].
  - intros H. injection H as _ <-. apply suffix_refl.
  - destruct (json.one_of e "eE").
    + set (sg := match t1 with
                 | [] => ([], t1)
                 | c :: t2 => if json.one_of c "+-" then ([c], t2) else ([], t1)
                 end).
      assert (Hs : suffix_of (snd sg) t1).
      { subst sg. destruct t1 as [|c t2]; [apply suffix_refl|].
        destruct (json.one_of c "+-"); simpl; auto with suffix. }
      destruct sg as [sgn t2]. simpl in Hs.
      pose proof (span_digits_suffix t2) as Hd.
      destruct (json.span_digits t2) as [[|d ds] r]; [discriminate|].
      intros H. injection H as _ <-. simpl in Hd.
      apply suffix_cons. eapply suffix_trans; eassumption.
    + intros H. injection H as _ <-. apply suffix_refl.
Qed.

Lemma lex_fraction_suffix acc s lit rest :
  json.lex_fraction acc s = Some (lit, rest) -> suffix_of rest s.
Proof.
  unfold json.lex_fraction. destruct s as [|d t1].
  - intros H. injection H as _ <-. apply suffix_refl.
  - destruct (json.one_of d ".").
    + pose proof (span_digits_suffix t1) as Hd.
      destruct (json.span_digits t1) as [[|x ds] r]; [discriminate|].
      intros H. apply lex_exponent_suffix in H. simpl in Hd.
      apply suffix_cons. eapply suffix_trans; eassumption.
    + apply lex_exponent_suffix.
Qed.

Lemma lex_number_suffix s lit rest :
  json.lex_number s = Some (lit, rest) -> suffix_of rest s.
Proof.
  unfold json.lex_number.
  set (sg := match s with
             | [] => ([], s)
             | c :: t => if json.one_of c "-" then ([c], t) else ([], s)
             end).
  assert (Hs : suffix_of (snd sg) s).
  { subst sg. destruct s as [|c t]; [apply suffix_refl|].
    destruct (json.one_of c "-"); simpl; auto with suffix. }
  destruct sg as [sgn s1]. simpl in Hs.
  destruct s1 as [|d t]; [discriminate|].
  destruct (json.one_of d "0").
  - intros H. apply lex_fraction_suffix in H.
    eapply suffix_trans; [|exact Hs]. now apply suffix_cons.
  - destruct (json.is_digit d); [|discriminate].
    pose proof (span_digits_suffix t) as Hd.
    destruct (json.span_digits t) as [ds r]. simpl in Hd.
    intros H. apply lex_fraction_suffix in H.
    eapply suffix_trans; [|exact Hs]. apply suffix_cons.
    eapply suffix_trans; eassumption.
Qed.

Lemma strip_prefix_suffix p s rest :
  json.strip_prefix p s = Some rest -> suffix_of rest s.
Proof.
  revert s; induction p as [|a p IH]; intros s H; simpl in H.
  - injection H as <-. apply suffix_refl.
  - destruct s as [|b s']; [discriminate|].
    destruct (Ascii.eqb a b); [|discriminate].
    apply suffix_cons. now apply IH.
Qed.

(** The lexer makes an opening-brace token of an opening brace only. *)
Lemma lex_braceless : forall fuel s toks,
  json.lex fuel s = Some toks -> braceless s -> ~ In json.TLBrace toks.
Proof.
  induction fuel as [|fuel IH]; intros s toks H Hs; [discriminate|].
  destruct s as [|c t]; cbn [json.lex] in H.
  { injection H as <-. intros []. }
  assert (Ht : braceless t) by (now inversion Hs).
  assert (Hc : json.one_of c "{" = false) by (now inversion Hs).
  assert (step : forall tok rest,
             tok <> json.TLBrace -> suffix_of rest (c :: t) ->
             match json.lex fuel rest with
             | Some toks0 => Some (tok :: toks0)
             | None => None
             end = Some toks -> ~ In json.TLBrace toks).
  { intros tok rest Htok Hrest E.
    destruct (json.lex fuel rest) as [toks0|] eqn:E0; [|discriminate].
    injection E as <-. intros [K|K]; [now apply Htok|].
    apply (IH rest toks0 E0); [|exact K].
    eapply braceless_of_suffix; eassumption. }
  assert (St : suffix_of t (c :: t)) by auto with suffix.
  destruct (json.is_space c); [now apply (IH t)|].
  rewrite Hc in H.
  destruct (json.one_of c "}"); [now apply (step json.TRBrace t)|].
  destruct (json.one_of c "["); [now apply (step json.TLBrack t)|].
  destruct (json.one_of c "]"); [now apply (step json.TRBrack t)|].
  destruct (json.one_of c ":"); [now apply (step json.TColon t)|].
  destruct (json.one_of c ","); [now apply (step json.TComma t)|].
  destruct (json.is_dq c).
  { destruct (json.lex_string t) as [[raw rest]|] eqn:E; [|discriminate].
    apply (step (json.TString raw) rest); [discriminate| |exact H].
    apply suffix_cons. eapply lex_string_suffix; [apply le_n | exact E]. }
  destruct (json.one_of c "-" || json.is_digit c).
  { destruct (json.lex_number (c :: t)) as [[lit rest]|] eqn:E; [|discriminate].
    apply (step (json.TNumber lit) rest); [discriminate| |exact H].
    eapply lex_number_suffix; exact E. }
  destruct (json.one_of c "t").
  { destruct (json.strip_prefix (str "true") (c :: t)) as [rest|] eqn:E;
      [|discriminate].
    apply (step json.TTrue rest); [discriminate| |exact H].
    eapply strip_prefix_suffix; exact E. }
  destruct (json.one_of c "f").
  { destruct (json.strip_prefix (str "false") (c :: t)) as [rest|] eqn:E;
      [|discriminate].
    apply (step json.TFalse rest); [discriminate| |exact H].
    eapply strip_prefix_suffix; exact E. }
  destruct (json.one_of c "n"); [|discriminate].
  destruct (json.strip_prefix (str "null") (c :: t)) as [rest|] eqn:E;
    [|discriminate].
  apply (step json.TNull rest); [discriminate| |exact H].
  eapply strip_prefix_suffix; exact E.
Qed.

(** An object is parsed from an opening brace, and null from [null]. *)
Lemma parse_value_object fuel depth toks kvs r :
  json.parse_value fuel depth toks = Some (json.JObject kvs, r) ->
  In json.TLBrace toks.
Proof.
  destruct fuel as [|fuel]; [discriminate|]. simpl.
  destruct toks as [|[] toks]; try discriminate; intros H.
  - now left.
  - destruct (json.maxNestingDepth <? depth + 1); [discriminate|].
    destruct toks as [|[] ?]; try discriminate;
      destruct (json.parse_elems _ _ _) as [[? ?]|]; discriminate.
Qed.

Lemma parse_value_null fuel depth toks r :
  json.parse_value fuel depth toks = Some (json.JNull, r) ->
  toks = json.TNull :: r.
Proof.
  destruct fuel as [|fuel]; [discriminate|]. simpl.
  destruct toks as [|[] toks]; try discriminate; intros H.
  - destruct (json.maxNestingDepth <? depth + 1); [discriminate|].
    destruct toks as [|[] ?]; try discriminate;
      destruct (json.parse_members _ _ _) as [[? ?]|]; discriminate.
  - destruct (json.maxNestingDepth <? depth + 1); [discriminate|].
    destruct toks as [|[] ?]; try discriminate;
      destruct (json.parse_elems _ _ _) as [[? ?]|]; discriminate.
  - now injection H as <-.
Qed.

(** A text without an opening brace decodes only when it is [null]. *)
Lemma Unmarshal_braceless s b :
  braceless s -> json.Unmarshal s = Ok b ->
  json.parse s = Some json.JNull /\ b = json.zero_batch.
Proof.
  intros Hs. unfold json.Unmarshal.
  destruct (json.parse s) as [v|] eqn:P; [|discriminate].
  destruct v; simpl; try discriminate.
  - intros H. injection H as <-. now split.
  - exfalso. unfold json.parse in P.
    destruct (json.tokens s) as [toks|] eqn:T; [|discriminate].
    destruct (json.parse_value _ 0 toks) as [[v [|? ?]]|] eqn:V; try discriminate.
    injection P as ->.
    apply parse_value_object in V.
    exact (lex_braceless _ _ _ T Hs V).
Qed.

(** A member that is no [best_match_index] leaves the index as it is. *)
Lemma batch_member_index b kv b' :
  json.key_is "best_match_index" (json.unquote (fst kv)) = false ->
  json.batch_member (Some b) kv = Some b' ->
  json.b_BestMatchIndex b' = json.b_BestMatchIndex b.
Proof.
  intros K. unfold json.batch_member. rewrite K.
  destruct (json.key_is "evaluations" _).
  { destruct (json.store_evaluations _ _); simpl; [|discriminate].
    intros H. now injection H as <-. }
  destruct (json.key_is "recommendation" _).
  { destruct (json.store_string _ _); simpl; [|discriminate].
    intros H. now injection H as <-. }
  intros H. now injection H as <-.
Qed.

Lemma batch_members_none members :
  fold_left json.batch_member members None = None.
Proof. induction members; simpl; auto. Qed.

Lemma batch_members_index members : forall b b',
  Forall (fun kv => json.key_is "best_match_index" (json.unquote (fst kv)) = false)
         members ->
  fold_left json.batch_member members (Some b) = Some b' ->
  json.b_BestMatchIndex b' = json.b_BestMatchIndex b.
Proof.
  induction members as [|kv members IH]; intros b b' HF H;
    cbn [fold_left] in H.
  - now injection H as <-.
  - inversion HF as [|? ? K HF']; subst.
    destruct (json.batch_member (Some b) kv) as [b1|] eqn:E.
    + rewrite (IH b1 b' HF' H). now apply (batch_member_index b kv).
    + now rewrite batch_members_none in H.
Qed.

Section Selecting.

Variable Complete : gostring -> gostring -> result gostring.

(** The user prompt of a batch. *)
Definition request (trend : db.Trend) (quotes : list db.Quote) : gostring :=
  BatchSelectionPrompt (db.Title trend) (db.String_of (db.Description trend))
                       (quotes_list 0 quotes).

(** The text that is decoded: what [extractJSON] finds, else all of it. *)
Definition located (response : gostring) : gostring :=
  match extractJSON response with
  | [] => response
  | _ :: _ => extractJSON response
  end.

Lemma EvaluateBatch_answered trend quotes response :
  quotes <> [] ->
  Complete SelectionSystemPrompt (request trend quotes) = Ok response ->
  EvaluateBatch Complete trend quotes =
  match json.Unmarshal (located response) with
  | Err e => Err (wrapError "parse response" e)
  | Ok result =>
    Ok {| BestMatchIndex := json.b_BestMatchIndex result;
          Evaluations :=
            map (fun e => {| Index := json.ev_Index e;
                             Score := json.ev_Score e;
                             Reasoning := json.ev_Reasoning e |})
                (json.elems (json.b_Evaluations result));
          Recommendation := json.b_Recommendation result |}
  end.
Proof.
  intros Hq HC. unfold EvaluateBatch.
  destruct quotes as [|q quotes]; [congruence|].
  replace (len (q :: quotes) =? 0) with false
    by (symmetry; apply Z.eqb_neq; unfold len; simpl; lia).
  cbv zeta. fold (request trend (q :: quotes)). rewrite HC.
  unfold located. destruct (extractJSON response); reflexivity.
Qed.

(** C1, as the code has it.  With at least one quote and a completion
    that was answered: when [extractJSON] finds no balanced object, the
    whole response is decoded, and a decoding error is returned as the
    error "parse response".  In particular a response with no opening
    brace yields that error, unless it is the JSON text [null], for
    which the result names candidate 0 and has no evaluations.  And when
    the decoded object has no [best_match_index] member, a result that
    is returned names candidate 0, not -1. *)
Theorem EvaluateBatch_without_object trend quotes response :
  quotes <> [] ->
  Complete SelectionSystemPrompt (request trend quotes) = Ok response ->
  (forall e,
     extractJSON response = [] -> json.Unmarshal response = Err e ->
     EvaluateBatch Complete trend quotes = Err (wrapError "parse response" e))
  /\ (strings.Contains response (str "{") = false ->
      (exists e,
         EvaluateBatch Complete trend quotes = Err (wrapError "parse response" e))
      \/ (json.parse response = Some json.JNull /\
          EvaluateBatch Complete trend quotes
          = Ok {| BestMatchIndex := 0; Evaluations := [];
                  Recommendation := [] |}))
  /\ (forall members,
        json.parse (located response) = Some (json.JObject members) ->
        Forall (fun kv => json.key_is "best_match_index"
                                      (json.unquote (fst kv)) = false) members ->
        (exists e,
           EvaluateBatch Complete trend quotes = Err (wrapError "parse response" e))
        \/ (exists r,
              EvaluateBatch Complete trend quotes = Ok r /\ BestMatchIndex r = 0)).
Proof.
  intros Hq HC. rewrite (EvaluateBatch_answered trend quotes response Hq HC).
  split; [|split].
  - intros e HX HU. unfold located. rewrite HX, HU. reflexivity.
  - intros Hb. unfold located. rewrite (extractJSON_without_brace _ Hb).
    destruct (json.Unmarshal response) as [b|e] eqn:U.
    + right.
      destruct (Unmarshal_braceless response b (Contains_braceless _ Hb) U)
        as [P ->].
      split; [exact P | reflexivity].
    + left. now exists e.
  - intros members P HF. unfold json.Unmarshal. rewrite P. simpl.
    destruct (fold_left json.batch_member members (Some json.zero_batch))
      as [b|] eqn:E.
    + right. eexists. split; [reflexivity|]. simpl.
      exact (batch_members_index members _ b HF E).
    + left. eexists. reflexivity.
Qed.

End Selecting.

End selector_facts.

(* ================================================================== *)
(** * The matching engine: no result, or an error *)
(* ================================================================== *)

Module matching_facts.

Import float embedder matcher.

(** A retrieval backend is there: [Match] does not load the index. *)
Definition ready (m : Matcher) : bool :=
  match quoteStore m, vectorIndex m with
  | None, None => false
  | _, _ => true
  end.

(** The score of the candidate a result names: that of the first
    evaluation with its index, or 0.0. *)
Definition relevance (r : BatchEvaluationResult) : float64 :=
  match find (fun eval => Index eval =? BestMatchIndex r) (Evaluations r) with
  | Some eval => Score eval
  | None => zero
  end.

Definition one : float64 := of_decimal 53 1024 false 1 0.

Definition three_tenths : float64 := of_decimal 53 1024 false 3 (-1).

Section Matching.

Context {sorter : sort.Sorter}.

Variable Embed : gostring -> result (list float32).

Variable Complete : gostring -> gostring -> result gostring.

Lemma veclite_candidates_none minSim st results :
  Forall (fun r => ltb (sr_Similarity r) minSim = true) results ->
  veclite_candidates minSim st results = ([], st).
Proof.
  induction 1 as [|r results Hr _ IH]; simpl; [reflexivity|].
  now rewrite Hr.
Qed.

Lemma above_threshold_none q threshold embs : forall qs,
  Forall (fun emb => geb (CosineSimilarity q emb) threshold = false) embs ->
  above_threshold qs q threshold embs = Returned [].
Proof.
  induction embs as [|emb embs IH]; intros qs H; simpl; [reflexivity|].
  inversion H as [|? ? He H']; subst. rewrite He. now apply IH.
Qed.

Lemma Slice_nil A (less : A -> A -> bool) : sort.Slice less [] = [].
Proof.
  apply Permutation_nil. apply sort.Slice_perm.
Qed.

Lemma select_cases m trend cs :
  match EvaluateBatch Complete trend (map Quote cs) with
  | Err e => select Complete m trend cs = Err (wrapError "evaluate batch" e)
  | Ok r =>
    (BestMatchIndex r < 0 \/ len cs <= BestMatchIndex r ->
     select Complete m trend cs = Ok None)
    /\ (ltb (relevance r) (minRelevance m) = true ->
        select Complete m trend cs = Ok None)
    /\ (0 <= BestMatchIndex r < len cs ->
        ltb (relevance r) (minRelevance m) = false ->
        exists mr,
          select Complete m trend cs = Ok (Some mr)
          /\ mr_RelevanceScore mr = relevance r
          /\ mr_Trend mr = trend
          /\ nth_error (map Quote cs) (Z.to_nat (BestMatchIndex r))
             = Some (mr_Quote mr))
  end.
Proof.
  unfold select.
  destruct (EvaluateBatch Complete trend (map Quote cs)) as [r|e];
    [|reflexivity].
  fold (relevance r).
  destruct ((BestMatchIndex r <? 0) || (len cs <=? BestMatchIndex r)) eqn:B.
  - split; [reflexivity|]. split; [reflexivity|].
    intros [H1 H2]. apply orb_true_iff in B.
    destruct B as [B|B]; [apply Z.ltb_lt in B | apply Z.leb_le in B]; lia.
  - apply orb_false_iff in B. destruct B as [B1 B2].
    apply Z.ltb_ge in B1. apply Z.leb_gt in B2.
    destruct (nth_error cs (Z.to_nat (BestMatchIndex r))) as [best|] eqn:N.
    + split; [intros [H|H]; lia|].
      destruct (ltb (relevance r) (minRelevance m)).
      * split; [reflexivity|]. intros _ H. discriminate.
      * split; [discriminate|]. intros _ _.
        eexists. split; [reflexivity|]. simpl.
        split; [reflexivity|]. split; [reflexivity|].
        rewrite nth_error_map, N. reflexivity.
    + exfalso. apply nth_error_None in N. unfold len in B2. lia.
Qed.

(** What [Match] works with: the matcher and the store as they are, or
    as [LoadIndex] leaves them when there is no backend yet. *)
Definition prepared (m : Matcher) (st : db.Store)
  : result unit * Matcher * db.Store :=
  if ready m then (Ok tt, m, st) else LoadIndex m st.

Lemma Match_prepared m st trend :
  Match Embed Complete m st trend =
  match prepared m st with
  | (Err e, m0, st0) => Returned (Err e, m0, st0)
  | (Ok _, m0, st0) =>
    if IndexSize m0 =? 0
    then Returned (Err (errorString "no quotes in index"), m0, st0)
    else
      match retrieve Embed m0 st0 trend with
      | Panicked why => Panicked why
      | Returned (Err e, st') => Returned (Err e, m0, st')
      | Returned (Ok [], st') => Returned (Ok None, m0, st')
      | Returned (Ok (c :: cs), st') =>
        Returned (select Complete m0 trend (c :: cs), m0, st')
      end
  end.
Proof.
  unfold prepared, ready, Match.
  destruct (quoteStore m) as [qs|]; [|destruct (vectorIndex m)].
  - destruct (IndexSize m =? 0); [reflexivity|].
    destruct (retrieve Embed m st trend) as [[[[|c cs]|e] st']|why];
      reflexivity.
  - destruct (IndexSize m =? 0); [reflexivity|].
    destruct (retrieve Embed m st trend) as [[[[|c cs]|e] st']|why];
      reflexivity.
  - destruct (LoadIndex m st) as [[[u|e] m0] st0]; [|reflexivity].
    destruct (IndexSize m0 =? 0); [reflexivity|].
    destruct (retrieve Embed m0 st0 trend) as [[[[|c cs]|e] st']|why];
      reflexivity.
Qed.

Lemma prepared_load_error m st e m0 st0 :
  prepared m st = (Err e, m0, st0) ->
  exists cause, e = wrapError "load embeddings" cause.
Proof.
  unfold prepared, LoadIndex.
  destruct (ready m); [discriminate|].
  destruct (quoteStore m); [discriminate|].
  destruct (LoadAllEmbeddings st) as [[l|e0] st']; [discriminate|].
  intros H. injection H as <- _ _. now exists e0.
Qed.

(** C2, as the code has it.  For every matcher, store and trend.  With no
    backend, [Match] first loads the index, and a failure to load it is
    the error it returns.  With an index that holds no quote it returns
    the error "no quotes in index".  With an index that holds a quote: a
    failing hybrid search and a failing embedding are returned as errors,
    and so is a failing selector, a failing completion included; [Match]
    returns no result and no error when no candidate reaches
    [minSimilarity], when the selector's index names no candidate, and
    when the relevance of the candidate it names is below
    [minRelevance]; otherwise it returns the candidate with that
    relevance.  A configuration that leaves [MinRelevance] zero gets
    0.6. *)
Theorem Match_no_result_or_error m st trend :
  match prepared m st with
  | (Err e, m0, st0) =>
    Match Embed Complete m st trend = Returned (Err e, m0, st0)
    /\ exists cause, e = wrapError "load embeddings" cause
  | (Ok _, m0, st0) =>
  (IndexSize m0 = 0 ->
   Match Embed Complete m st trend
   = Returned (Err (errorString "no quotes in index"), m0, st0))
  /\ (IndexSize m0 <> 0 ->
  (forall qs e,
     quoteStore m0 = Some qs ->
     HybridSearch qs (trend_text trend) (candidateCount m0) one three_tenths
     = Err e ->
     Match Embed Complete m st trend
     = Returned (Err (wrapError "veclite search" e), m0, st0))
  /\ (forall e,
        quoteStore m0 = None -> Embed (trend_text trend) = Err e ->
        Match Embed Complete m st trend
        = Returned (Err (wrapError "embed trend" e), m0, st0))
  /\ (forall qs results,
        quoteStore m0 = Some qs ->
        HybridSearch qs (trend_text trend) (candidateCount m0) one three_tenths
        = Ok results ->
        Forall (fun r => ltb (sr_Similarity r) (minSimilarity m0) = true)
               results ->
        Match Embed Complete m st trend = Returned (Ok None, m0, st0))
  /\ (forall v q,
        quoteStore m0 = None -> vectorIndex m0 = Some v ->
        Embed (trend_text trend) = Ok q ->
        Forall (fun emb => geb (CosineSimilarity (Normalize q) emb)
                               (minSimilarity m0) = false) (embeddings v) ->
        Match Embed Complete m st trend = Returned (Ok None, m0, st0))
  /\ (forall cs st',
        retrieve Embed m0 st0 trend = Returned (Ok cs, st') ->
        (cs = [] ->
         Match Embed Complete m st trend = Returned (Ok None, m0, st'))
        /\ (cs <> [] ->
            (forall e,
               EvaluateBatch Complete trend (map Quote cs) = Err e ->
               Match Embed Complete m st trend
               = Returned (Err (wrapError "evaluate batch" e), m0, st'))
            /\ (forall e,
                  Complete SelectionSystemPrompt
                           (selector_facts.request trend (map Quote cs)) = Err e ->
                  Match Embed Complete m st trend
                  = Returned (Err (wrapError "evaluate batch"
                                     (wrapError "claude complete" e)), m0, st'))
            /\ (forall r,
                  EvaluateBatch Complete trend (map Quote cs) = Ok r ->
                  (BestMatchIndex r < 0 \/ len cs <= BestMatchIndex r ->
                   Match Embed Complete m st trend
                   = Returned (Ok None, m0, st'))
                  /\ (ltb (relevance r) (minRelevance m0) = true ->
                      Match Embed Complete m st trend
                      = Returned (Ok None, m0, st'))
                  /\ (0 <= BestMatchIndex r < len cs ->
                      ltb (relevance r) (minRelevance m0) = false ->
                      exists mr,
                        Match Embed Complete m st trend
                        = Returned (Ok (Some mr), m0, st')
                        /\ mr_RelevanceScore mr = relevance r
                        /\ mr_Trend mr = trend
                        /\ nth_error (map Quote cs)
                                     (Z.to_nat (BestMatchIndex r))
                           = Some (mr_Quote mr))))))
  end
  /\ (forall cfg,
        eqb (MinRelevance cfg) zero = true ->
        minRelevance (New cfg) = of_decimal 53 1024 false 6 (-1)).
Proof.
  split; [|intros cfg H; unfold New; simpl; now rewrite H].
  rewrite (Match_prepared m st trend).
  destruct (prepared m st) as [[[u|e0] m0] st0] eqn:P.
  2:{ split; [reflexivity|]. eapply prepared_load_error; exact P. }
  split.
  { intros Hz. apply Z.eqb_eq in Hz. now rewrite Hz. }
  intros Hs. apply Z.eqb_neq in Hs. rewrite Hs.
  split; [|split; [|split; [|split]]].
  - intros qs e Q H. unfold retrieve. rewrite Q.
    fold one three_tenths. rewrite H. reflexivity.
  - intros e Q H. unfold retrieve. rewrite Q, H. reflexivity.
  - intros qs results Q H HF. unfold retrieve. rewrite Q.
    fold one three_tenths. rewrite H.
    rewrite (veclite_candidates_none _ st0 results HF). reflexivity.
  - intros v q Q V H HF. unfold retrieve. rewrite Q, H, V.
    unfold SearchWithThreshold.
    destruct (len (quotes v) =? 0); [reflexivity|].
    rewrite (above_threshold_none _ _ _ (quotes v) HF).
    rewrite Slice_nil.
    destruct ((0 <? candidateCount m0) && (candidateCount m0 <? len []));
      [rewrite firstn_nil|]; reflexivity.
  - intros cs st' R. rewrite R. split.
    + intros ->. reflexivity.
    + intros Hne. destruct cs as [|c cs]; [congruence|].
      pose proof (select_cases m0 trend (c :: cs)) as S.
      split; [|split].
      * intros e E. rewrite E in S. now rewrite S.
      * intros e E.
        assert (EB : EvaluateBatch Complete trend (map Quote (c :: cs))
                     = Err (wrapError "claude complete" e)).
        { unfold EvaluateBatch.
          replace (len (map Quote (c :: cs)) =? 0) with false
            by (symmetry; apply Z.eqb_neq; unfold len; simpl; lia).
          cbv zeta.
          fold (selector_facts.request trend (map Quote (c :: cs))).
          now rewrite E. }
        rewrite EB in S. now rewrite S.
      * intros r E. rewrite E in S. destruct S as (S1 & S2 & S3).
        split; [|split].
        -- intros H. now rewrite (S1 H).
        -- intros H. now rewrite (S2 H).
        -- intros H1 H2. destruct (S3 H1 H2) as (mr & -> & Hmr).
           now exists mr.
Qed.

End Matching.

End matching_facts.

(* ================================================================== *)
(** * The post cycle and the daily limit *)
(* ================================================================== *)

Module scheduler_facts.

Import scheduler.

(** The posts already recorded today for a platform. *)
Definition posts_today (s : Scheduler) (platform : gostring) : Z :=
  len (List.filter (db.posted_today (now s) platform) (db.posts (store s))).

(** The next statement sent to the store is not failed by the driver. *)
Definition next_statement_succeeds (st : db.Store) : Prop :=
  hd None (db.faults st) = None.

Section Cycle.

Context {sorter : sort.Sorter}.

Variable Sum256 : gostring -> list ascii.

Variable Embed : gostring -> result (list float.float32).

Variable Complete : gostring -> gostring -> result gostring.

Variable Post : PostContent -> result PostResult.

Lemma CountPostsToday_ok (s : Scheduler) platform :
  next_statement_succeeds (store s) ->
  exists st,
    db.CountPostsToday (store s) platform = (Ok (posts_today s platform), st) /\
    db.posts st = db.posts (store s).
Proof.
  unfold next_statement_succeeds, db.CountPostsToday, db.statement, posts_today, now.
  destruct (db.faults (store s)) as [|f rest]; simpl; intros H.
  - eexists; split; reflexivity.
  - subst f. eexists; split; reflexivity.
Qed.

(** C8.  When the statement that counts today's posts succeeds and the
    count is at or over [MaxPostsPerDay], the cycle returns at once: it
    makes no call to the publishing capability and the table of posts is
    as it was. *)
Theorem runPostCycle_enforces_quota (s : Scheduler) :
  next_statement_succeeds (store s) ->
  MaxPostsPerDay s <= posts_today s (str "bluesky") ->
  exists s',
    runPostCycle Sum256 Embed Complete Post s = Returned s' /\
    published s' = published s /\
    db.posts (store s') = db.posts (store s) /\
    db.trends (store s') = db.trends (store s).
Proof.
  intros Hok Hmax.
  unfold runPostCycle.
  unfold next_statement_succeeds in Hok.
  unfold db.CountPostsToday, db.statement.
  change (store (slog s Debug "running post cycle")) with (store s).
  destruct (db.faults (store s)) as [|f rest] eqn:Ef; simpl in Hok.
  - cbn [with_store MaxPostsPerDay slog].
    unfold posts_today, now in Hmax. apply Z.leb_le in Hmax. rewrite Hmax.
    eexists. split; [reflexivity|]. repeat split.
  - subst f. cbn [with_store MaxPostsPerDay slog db.posts db.clock db.with_faults].
    unfold posts_today, now in Hmax. apply Z.leb_le in Hmax. rewrite Hmax.
    eexists. split; [reflexivity|]. repeat split.
Qed.

(** The log only grows. *)
Lemma find_match_log trends :
  forall s r s' line,
    find_match Embed Complete s trends = Returned (r, s') ->
    In line (log s) -> In line (log s').
Proof.
  induction trends as [|trend rest IH]; intros s r s' line Hrun Hin;
    simpl in Hrun.
  - inversion Hrun; subst. exact Hin.
  - destruct (matcher.Match Embed Complete (matcher s) (store s) trend)
      as [[[res m] st]|why]; [|discriminate].
    destruct res as [[found|]|e].
    + inversion Hrun; subst. exact Hin.
    + destruct (db.UpdateTrendSkipped _ _ _) as [r2 st2].
      destruct r2; apply (IH _ _ _ line Hrun); simpl;
        try apply in_or_app; auto.
    + apply (IH _ _ _ line Hrun). simpl. apply in_or_app; auto.
Qed.

Lemma publish_log s bestMatch line :
  In line (log s) -> In line (log (publish Sum256 Post s bestMatch)).
Proof.
  intros Hin. unfold publish.
  destruct (Post _) as [result|err].
  - destruct (db.CreatePost _ _) as [r1 st1].
    destruct (db.UpdateTrendMatched _ _) as [r2 st2].
    destruct (db.UpdateQuotePosted _ _) as [r3 st3].
    destruct r1, r2, r3; simpl; repeat (apply in_or_app; left); exact Hin.
  - simpl. apply in_or_app; left. exact Hin.
Qed.

Lemma post_after_quota_log s s' line :
  post_after_quota Sum256 Embed Complete Post s = Returned s' ->
  In line (log s) -> In line (log s').
Proof.
  unfold post_after_quota. intros Hrun Hin.
  destruct (monitor.GetUnmatchedTrends (store s) 10) as [[trends|err] st].
  - destruct trends as [|t ts].
    + inversion Hrun; subst. simpl. apply in_or_app; left. exact Hin.
    + destruct (find_match _ _ _ _) as [[[found|] s1]|why] eqn:Ef;
        [| |discriminate]; inversion Hrun; subst.
      * apply publish_log. eapply find_match_log; eauto.
      * simpl. apply in_or_app; left. eapply find_match_log; eauto.
  - inversion Hrun; subst. simpl. apply in_or_app; left. exact Hin.
Qed.

(** The state in which the rest of the cycle starts after a count that
    failed: the first entry of the script is used up, the tables are as
    they were, and the failure is on the log. *)
Definition after_failed_count (s : Scheduler) (rest : list (option error))
  : Scheduler :=
  slog (with_store (slog s Debug "running post cycle")
                   (db.with_faults (store s) rest))
       Error "failed to count today's posts".

(** C10.  When the statement that counts today's posts fails, whatever the
    number of posts recorded today and whatever [MaxPostsPerDay], the
    cycle is the rest of the cycle -- unmatched trends, matching,
    publishing -- run from a state whose tables are unchanged, and the
    failure stays on the log of the state the cycle ends in. *)
Theorem runPostCycle_count_failure (s : Scheduler) (e : error)
        (rest : list (option error)) :
  db.faults (store s) = Some e :: rest ->
  runPostCycle Sum256 Embed Complete Post s
    = post_after_quota Sum256 Embed Complete Post (after_failed_count s rest)
  /\ db.posts (store (after_failed_count s rest)) = db.posts (store s)
  /\ db.trends (store (after_failed_count s rest)) = db.trends (store s)
  /\ published (after_failed_count s rest) = published s
  /\ forall s',
       runPostCycle Sum256 Embed Complete Post s = Returned s' ->
       In (Error, "failed to count today's posts"%string) (log s').
Proof.
  intros Hf.
  assert (Hrun : runPostCycle Sum256 Embed Complete Post s
                 = post_after_quota Sum256 Embed Complete Post
                                    (after_failed_count s rest)).
  { unfold runPostCycle, db.CountPostsToday, db.statement.
    change (store (slog s Debug "running post cycle")) with (store s).
    rewrite Hf. reflexivity. }
  split; [exact Hrun|]. repeat split.
  intros s' Hret. rewrite Hrun in Hret.
  apply (post_after_quota_log _ _ _ Hret).
  simpl. apply in_or_app; right. now left.
Qed.

(** The cycle ends before the unmatched trends are read only on a count
    that succeeded and is at or over the limit. *)
Lemma runPostCycle_early_exit (s : Scheduler) :
  (exists n st,
     db.CountPostsToday (store s) (str "bluesky") = (Ok n, st) /\
     MaxPostsPerDay s <= n)
  \/ (exists s1,
        runPostCycle Sum256 Embed Complete Post s
        = post_after_quota Sum256 Embed Complete Post s1).
Proof.
  unfold runPostCycle.
  change (store (slog s Debug "running post cycle")) with (store s).
  destruct (db.CountPostsToday (store s) (str "bluesky")) as [[n|e] st].
  - cbn [with_store MaxPostsPerDay slog].
    destruct (MaxPostsPerDay s <=? n) eqn:E.
    + left. exists n, st. split; [reflexivity|]. now apply Z.leb_le.
    + right. eexists. reflexivity.
  - right. eexists. reflexivity.
Qed.

End Cycle.

End scheduler_facts.

(* ================================================================== *)
(** * A day in the life of the bot: concrete collaborators *)
(* ================================================================== *)

Module scenario.

Import scheduler scheduler_facts.

Definition returned {A} (o : outcome A) : option A :=
  match o with Returned a => Some a | Panicked _ => None end.

Definition quoted (s : string) : gostring := dq ++ str s ++ dq.

(** The selector's answer of the specification's scenario, candidate 0
    being the one it names. *)
Definition answer : gostring :=
  str "Here is my evaluation: {" ++ quoted "best_match_index" ++ str ": 0, "
  ++ quoted "evaluations" ++ str ":[{" ++ quoted "index" ++ str ":0,"
  ++ quoted "score" ++ str ":0.75," ++ quoted "reasoning" ++ str ":"
  ++ quoted "apt" ++ str "}], " ++ quoted "recommendation" ++ str ":"
  ++ quoted "ok" ++ str "}".

Definition pain : db.Quote :=
  {| db.Quote_ID := 1; db.Text := str "Pain and suffering are inevitable.";
     db.TextHash := str "h1"; db.SourceBook := str "Crime and Punishment";
     db.Chapter := None; db.Character := Some (str "Raskolnikov");
     db.Themes := str "suffering"; db.ModernRelevance := None;
     db.Embedding := None; db.CharCount := 34; db.TimesPosted := Some 0;
     db.LastPostedAt := None; db.Quote_CreatedAt := Some 0 |}.

Definition burnout : db.Trend :=
  {| db.Trend_ID := 1; db.Source := str "hackernews";
     db.ExternalID := Some (str "8863"); db.Title := str "On burnout";
     db.Url := None; db.Description := None; db.Score := Some 120;
     db.Trend_Embedding := None; db.Matched := Some false;
     db.Skipped := Some false; db.SkipReason := None;
     db.DetectedAt := Some 90000 |}.

Definition earlier_post : db.Post :=
  {| db.Post_ID := 1; db.QuoteID := 1; db.Platform := str "bluesky";
     db.PlatformPostID := Some (str "p0"); db.PostUrl := None;
     db.TrendID := None; db.TrendTitle := str "Earlier";
     db.TrendSource := str "hackernews"; db.TrendHash := str "00";
     db.RelevanceScore := float.of_decimal 53 1024 false 8 (-1);
     db.RelevanceReasoning := None;
     db.VectorSimilarity := float.of_decimal 53 1024 false 5 (-1);
     db.Likes := Some 0; db.Reposts := Some 0; db.Replies := Some 0;
     db.PostedAt := Some 90500 |}.

(** A store at 01:23:20 of its second day, with one post made that day. *)
Definition store_with (faults : list (option error)) : db.Store :=
  {| db.quotes := [pain]; db.trends := [burnout]; db.posts := [earlier_post];
     db.trends_seq := 1; db.posts_seq := 1; db.clock := 91400;
     db.faults := faults |}.

Definition hit : matcher.SearchResult :=
  {| matcher.VecLiteID := 7; matcher.SQLiteID := 1; matcher.sr_Text := [];
     matcher.sr_Book := []; matcher.sr_Character := []; matcher.sr_Themes := [];
     matcher.sr_Similarity := float.of_decimal 24 128 false 9 (-1) |}.

Definition hybrid : matcher.QuoteStore :=
  {| matcher.Count := 1;
     matcher.HybridSearch := fun _ _ _ _ => Ok [hit] |}.

Definition bot (faults : list (option error)) : Scheduler :=
  {| MaxPostsPerDay := 1;
     store := store_with faults;
     scheduler.matcher :=
       matcher.New {| matcher.cfg_QuoteStore := Some hybrid;
                      matcher.MinSimilarity := float.zero;
                      matcher.MinRelevance := float.zero;
                      matcher.CandidateCount := 0 |};
     agg := {| monitor.monitors := [];
               monitor.filter := {| monitor.sensitiveTerms := [];
                                    monitor.minScore := 0 |} |};
     health := []; lastPost := None; log := []; published := [] |}.

Definition digest (data : gostring) : list ascii := repeat (byte_of 171) 32.

Definition embed (text : gostring) : result (list float.float32) :=
  Err (errorString "embedding provider not configured").

Definition complete (system user : gostring) : result gostring := Ok answer.

Definition post (content : PostContent) : result PostResult :=
  Ok {| PostID := str "at://did:plc:bot/app.bsky.feed.post/1";
        PostURL := str "https://bsky.app/profile/bot/post/1" |}.

Definition cycle (s : Scheduler) : outcome Scheduler :=
  runPostCycle (sorter := sort_facts.StableSorter) digest embed complete post s.

(** With the count succeeding, the one post of the day is the limit. *)
Lemma runPostCycle_enforces_quota_witness :
  posts_today (bot []) (str "bluesky") = 1 /\
  exists s',
    cycle (bot []) = Returned s' /\
    published s' = published (bot []) /\
    db.posts (store s') = db.posts (store (bot [])) /\
    db.trends (store s') = db.trends (store (bot [])).
Proof.
  split; [reflexivity|].
  apply (runPostCycle_enforces_quota (sorter := sort_facts.StableSorter)
           digest embed complete post (bot [])).
  - reflexivity.
  - vm_compute. discriminate.
Defined.

(** With the count failing, the same bot publishes a second post. *)
Lemma runPostCycle_count_failure_witness :
  posts_today (bot [Some (errorString "database is locked")]) (str "bluesky") = 1 /\
  cycle (bot [Some (errorString "database is locked")])
    = post_after_quota (sorter := sort_facts.StableSorter)
        digest embed complete post
        (after_failed_count (bot [Some (errorString "database is locked")]) []) /\
  option_map (fun s' => (List.length (published s'),
                         List.length (db.posts (store s'))))
             (returned (cycle (bot [Some (errorString "database is locked")])))
    = Some (1%nat, 2%nat).
Proof.
  split; [reflexivity|]. split.
  - apply (runPostCycle_count_failure (sorter := sort_facts.StableSorter)
             digest embed complete post
             (bot [Some (errorString "database is locked")])
             (errorString "database is locked") []).
    reflexivity.
  - vm_compute. reflexivity.
Defined.

(** C8 as stated fails when the count of the day cannot be read: the
    failure is logged and the cycle goes on.  The bot has made the one
    post its limit allows; the driver fails the count; the cycle calls
    the publishing capability and records a second post. *)
Lemma runPostCycle_publishes_over_quota :
  MaxPostsPerDay (bot [Some (errorString "database is locked")]) = 1
  /\ posts_today (bot [Some (errorString "database is locked")])
                 (str "bluesky") = 1
  /\ option_map (fun s' => (List.length (published s'),
                            List.length (db.posts (store s')),
                            map fst (log s')))
                (returned (cycle (bot [Some (errorString "database is locked")])))
     = Some (1%nat, 2%nat, [Debug; Error; Info]).
Proof. vm_compute. repeat split. Qed.

(** ** The selector and the matcher on the scenario *)

Definition plain (system user : gostring) : result gostring :=
  Ok (str "Just plain text").

Definition empty_object (system user : gostring) : result gostring :=
  Ok (str "{}").

Definition none_suitable (system user : gostring) : result gostring :=
  Ok (str "{" ++ quoted "best_match_index" ++ str ": -1, "
      ++ quoted "evaluations" ++ str ": [], "
      ++ quoted "recommendation" ++ str ": " ++ quoted "None are suitable"
      ++ str "}").

Definition overloaded (system user : gostring) : result gostring :=
  Err (errorString "API error (status 529)").

Definition candidate : matcher.VectorMatch :=
  {| matcher.Quote := pain; matcher.Similarity := matcher.sr_Similarity hit |}.

(** A completion in plain text is an error of the selector. *)
Lemma EvaluateBatch_without_object_witness :
  matcher.EvaluateBatch plain burnout [pain]
  = Err (wrapError "parse response" (errorString "json: syntax error")).
Proof.
  apply (proj1 (selector_facts.EvaluateBatch_without_object
                  plain burnout [pain] (str "Just plain text")
                  ltac:(discriminate) eq_refl)).
  - vm_compute. reflexivity.
  - vm_compute. reflexivity.
Defined.

(** C1 as stated fails: for the plain text of the package's test, in
    which [extractJSON] finds nothing, the selector returns an error; and
    for an object without a best-match index it names candidate 0. *)
Lemma EvaluateBatch_fails_on_plain_text :
  matcher.extractJSON (str "Just plain text") = []
  /\ is_err (matcher.EvaluateBatch plain burnout [pain]) = true
  /\ matcher.EvaluateBatch plain burnout [pain]
     = Err (wrapError "parse response" (errorString "json: syntax error"))
  /\ matcher.EvaluateBatch empty_object burnout [pain]
     = Ok {| matcher.BestMatchIndex := 0; matcher.Evaluations := [];
             matcher.Recommendation := [] |}.
Proof. vm_compute. repeat split. Qed.

(** The matcher of the scenario: none suitable is no result, an
    overloaded completion provider is an error. *)
Lemma Match_no_result_or_error_witness :
  matcher.Match (sorter := sort_facts.StableSorter) embed none_suitable
                (matcher (bot [])) (store_with []) burnout
  = Returned (Ok None, matcher (bot []), store_with [])
  /\ matcher.Match (sorter := sort_facts.StableSorter) embed overloaded
                   (matcher (bot [])) (store_with []) burnout
     = Returned (Err (wrapError "evaluate batch"
                        (wrapError "claude complete"
                           (errorString "API error (status 529)"))),
                 matcher (bot []), store_with []).
Proof.
  split.
  - destruct (matching_facts.Match_no_result_or_error
                (sorter := sort_facts.StableSorter) embed none_suitable
                (matcher (bot [])) (store_with []) burnout) as [H _].
    change (matching_facts.prepared (matcher (bot [])) (store_with []))
      with (Ok tt, matcher (bot []), store_with []) in H.
    destruct H as [_ H].
    destruct (H ltac:(vm_compute; discriminate)) as (_ & _ & _ & _ & H5).
    destruct (H5 [candidate] (store_with []) eq_refl) as (_ & H1).
    destruct (H1 ltac:(discriminate)) as (_ & _ & H2).
    destruct (H2 {| matcher.BestMatchIndex := -1; matcher.Evaluations := [];
                    matcher.Recommendation := str "None are suitable" |}
                 eq_refl) as (H3 & _).
    apply H3. left. simpl. lia.
  - destruct (matching_facts.Match_no_result_or_error
                (sorter := sort_facts.StableSorter) embed overloaded
                (matcher (bot [])) (store_with []) burnout) as [H _].
    change (matching_facts.prepared (matcher (bot [])) (store_with []))
      with (Ok tt, matcher (bot []), store_with []) in H.
    destruct H as [_ H].
    destruct (H ltac:(vm_compute; discriminate)) as (_ & _ & _ & _ & H5).
    destruct (H5 [candidate] (store_with []) eq_refl) as (_ & H1).
    destruct (H1 ltac:(discriminate)) as (_ & H2 & _).
    apply H2. reflexivity.
Defined.

(** A matcher without a quote store, on the store of the scenario, in
    which no quote has an embedding: the index it loads is empty. *)
Definition legacy : matcher.Matcher :=
  matcher.New {| matcher.cfg_QuoteStore := None;
                 matcher.MinSimilarity := float.zero;
                 matcher.MinRelevance := float.zero;
                 matcher.CandidateCount := 0 |}.

(** A quote store that holds nothing. *)
Definition vacant : matcher.QuoteStore :=
  {| matcher.Count := 0;
     matcher.HybridSearch := fun _ _ _ _ => Ok [] |}.

(** C2 as stated fails on an index that holds no quote.  No candidate
    reaches the threshold -- the search of the index returns none, and so
    does the hybrid search -- yet [Match] returns an error, not the
    result that is no result. *)
Lemma Match_fails_on_empty_index :
  matcher.Match (sorter := sort_facts.StableSorter) embed complete
                legacy (store_with []) burnout
  = Returned (Err (errorString "no quotes in index"),
              matcher.with_index legacy (matcher.NewVectorIndex []),
              store_with [])
  /\ matcher.SearchWithThreshold (sorter := sort_facts.StableSorter)
       (matcher.NewVectorIndex []) [index_facts.f32 1 0]
       (matcher.minSimilarity legacy) (matcher.candidateCount legacy)
     = Returned []
  /\ matcher.Match (sorter := sort_facts.StableSorter) embed complete
       (matcher.New {| matcher.cfg_QuoteStore := Some vacant;
                       matcher.MinSimilarity := float.zero;
                       matcher.MinRelevance := float.zero;
                       matcher.CandidateCount := 0 |})
       (store_with []) burnout
     = Returned (Err (errorString "no quotes in index"),
                 matcher.New {| matcher.cfg_QuoteStore := Some vacant;
                                matcher.MinSimilarity := float.zero;
                                matcher.MinRelevance := float.zero;
                                matcher.CandidateCount := 0 |},
                 store_with [])
  /\ matcher.HybridSearch vacant (matcher.trend_text burnout) 10
       matching_facts.one matching_facts.three_tenths = Ok [].
Proof. vm_compute. repeat split. Qed.

End scenario.

(* ================================================================== *)
(** * Part III: further properties of the code *)
(* ================================================================== *)

(* ================================================================== *)
(** * extractJSON: the first balanced object of a text *)
(* ================================================================== *)

Module extract_facts.

Import matcher selector_facts.

Definition lbrace : ascii := "{"%char.

Definition rbrace : ascii := "}"%char.

(** What a byte adds to the depth of the loop of [extractJSON]. *)
Definition weight (c : ascii) : Z :=
  if json.one_of c "{" then 1 else if json.one_of c "}" then -1 else 0.

(** Opening braces less closing braces. *)
Definition depth (s : gostring) : Z := fold_right (fun c d => weight c + d) 0 s.

(** An object: it opens with a brace, the depth is positive inside it, and
    it comes back to zero with its last byte. *)
Definition balanced_object (obj : gostring) : Prop :=
  (exists body, obj = lbrace :: body)
  /\ depth obj = 0
  /\ forall k, (0 < k < List.length obj)%nat -> 0 < depth (firstn k obj).

Lemma one_of_lbrace c : json.one_of c "{" = true <-> c = lbrace.
Proof.
  unfold json.one_of. simpl. rewrite orb_false_r. apply Ascii.eqb_eq.
Qed.

Lemma one_of_rbrace c : json.one_of c "}" = true <-> c = rbrace.
Proof.
  unfold json.one_of. simpl. rewrite orb_false_r. apply Ascii.eqb_eq.
Qed.

Lemma depth_cons c t : depth (c :: t) = weight c + depth t.
Proof. reflexivity. Qed.

Lemma depth_nil : depth [] = 0.
Proof. reflexivity. Qed.

Arguments depth : simpl never.

(** Where [strings.Index] finds the first opening brace. *)
Lemma Index_brace s :
  (braceless s /\ strings.Index s (str "{") = -1)
  \/ exists pre rest,
       s = pre ++ lbrace :: rest /\ braceless pre
       /\ strings.Index s (str "{") = len pre.
Proof.
  induction s as [|c t IH].
  - left. split; [constructor | reflexivity].
  - rewrite strings_facts.Index_unfold.
    change (strings.HasPrefix (c :: t) (str "{"))
      with (Ascii.eqb "{" c && true).
    rewrite andb_true_r.
    destruct (Ascii.eqb "{" c) eqn:E.
    + right. apply Ascii.eqb_eq in E. subst c.
      exists [], t. split; [reflexivity|]. split; [constructor | reflexivity].
    + assert (Hc : json.one_of c "{" = false).
      { unfold json.one_of. simpl. now rewrite Ascii.eqb_sym, E. }
      cbv zeta. destruct IH as [[Hb Hi] | (pre & rest & -> & Hb & Hi)].
      * left. split; [now constructor|]. now rewrite Hi.
      * right. exists (c :: pre), rest.
        split; [reflexivity|]. split; [now constructor|].
        rewrite Hi. unfold len. simpl List.length.
        destruct (Z.of_nat (List.length pre) <? 0) eqn:E1; [|lia].
        apply Z.ltb_lt in E1. lia.
Qed.

Lemma skipn_len_app {A} (pre rest : list A) :
  skipn (Z.to_nat (len pre)) (pre ++ rest) = rest.
Proof.
  unfold len. rewrite Nat2Z.id.
  rewrite skipn_app, skipn_all, Nat.sub_diag. reflexivity.
Qed.

(** The loop stops at the first byte that brings the depth to zero. *)
Lemma closing_brace_complete : forall s d post,
  1 <= d -> s <> [] -> d + depth s = 0 ->
  (forall k, (0 < k < List.length s)%nat -> 0 < d + depth (firstn k s)) ->
  closing_brace d (s ++ post) = Some (List.length s).
Proof.
  induction s as [|c t IH]; intros d post Hd Hne Hz Hpos; [congruence|].
  simpl app. cbn [closing_brace]. rewrite depth_cons in Hz.
  assert (Hstep : t <> [] ->
            forall k, (0 < k < List.length t)%nat ->
                      0 < (d + weight c) + depth (firstn k t)).
  { intros _ k Hk. specialize (Hpos (S k)). simpl in Hpos.
    rewrite depth_cons in Hpos. lia. }
  assert (H1 : t <> [] -> 0 < d + weight c).
  { intros Ht. specialize (Hpos 1%nat).
    destruct t as [|c' t']; [congruence|].
    simpl in Hpos. unfold depth in Hpos. simpl in Hpos. lia. }
  unfold weight in *.
  destruct (json.one_of c "{") eqn:E1.
  - destruct t as [|c' t']; [simpl in Hz; unfold depth in Hz; simpl in Hz; lia|].
    rewrite (IH (d + 1) post); [reflexivity | lia | discriminate | lia |].
    apply Hstep. discriminate.
  - destruct (json.one_of c "}") eqn:E2.
    + destruct (d - 1 =? 0) eqn:E3.
      * apply Z.eqb_eq in E3.
        destruct t as [|c' t']; [reflexivity|].
        assert (0 < d + -1) by (apply H1; discriminate). lia.
      * apply Z.eqb_neq in E3.
        destruct t as [|c' t'];
          [simpl in Hz; unfold depth in Hz; simpl in Hz; lia|].
        assert (0 < d + -1) by (apply H1; discriminate).
        rewrite (IH (d - 1) post); [reflexivity | lia | discriminate | lia |].
        intros k Hk. replace (d - 1) with (d + -1) by lia.
        apply Hstep; [discriminate | exact Hk].
    + destruct t as [|c' t'];
        [simpl in Hz; unfold depth in Hz; simpl in Hz; lia|].
      rewrite (IH d post); [reflexivity | lia | discriminate | lia |].
      intros k Hk. replace d with (d + 0) by lia.
      apply Hstep; [discriminate | exact Hk].
Qed.

(** And where it stops, the depth is zero for the first time, at a
    closing brace. *)
Lemma closing_brace_sound : forall s d n,
  1 <= d -> closing_brace d s = Some n ->
  (1 <= n <= List.length s)%nat
  /\ d + depth (firstn n s) = 0
  /\ (forall k, (0 < k < n)%nat -> 0 < d + depth (firstn k s))
  /\ exists p, firstn n s = p ++ [rbrace].
Proof.
  induction s as [|c t IH]; intros d n Hd H; [discriminate|].
  cbn [closing_brace] in H.
  assert (Hrec : forall d', 1 <= d' -> d' = d + weight c ->
            option_map S (closing_brace d' t) = Some n ->
            (1 <= n <= List.length (c :: t))%nat
            /\ d + depth (firstn n (c :: t)) = 0
            /\ (forall k, (0 < k < n)%nat -> 0 < d + depth (firstn k (c :: t)))
            /\ exists p, firstn n (c :: t) = p ++ [rbrace]).
  { intros d' Hd' Hw E.
    destruct (closing_brace d' t) as [m|] eqn:Em; [|discriminate].
    injection E as <-.
    destruct (IH d' m Hd' Em) as (Hm & Hz & Hpos & p & Hp).
    split; [simpl; lia|]. split; [simpl firstn; rewrite depth_cons; lia|].
    split.
    - intros [|k] Hk; [lia|]. simpl firstn. rewrite depth_cons.
      destruct k as [|k].
      + simpl. unfold depth. simpl. lia.
      + specialize (Hpos (S k)). lia.
    - exists (c :: p). simpl. now rewrite Hp. }
  unfold weight in Hrec.
  destruct (json.one_of c "{") eqn:E1.
  - apply (Hrec (d + 1)); [lia | lia | exact H].
  - destruct (json.one_of c "}") eqn:E2.
    + destruct (d - 1 =? 0) eqn:E3.
      * injection H as <-. apply Z.eqb_eq in E3.
        apply one_of_rbrace in E2. subst c.
        split; [simpl; lia|].
        split; [cbn [firstn]; rewrite depth_cons, depth_nil;
                change (weight rbrace) with (-1); lia|].
        split; [intros k Hk; lia|]. now exists [].
      * apply Z.eqb_neq in E3.
        apply (Hrec (d - 1)); [lia | lia | exact H].
    + apply (Hrec d); [lia | lia | exact H].
Qed.

Lemma extractJSON_at pre rest :
  braceless pre ->
  extractJSON (pre ++ lbrace :: rest) =
  match closing_brace 1 rest with
  | Some n => lbrace :: firstn n rest
  | None => []
  end.
Proof.
  intros Hb. unfold extractJSON.
  destruct (Index_brace (pre ++ lbrace :: rest))
    as [[Hnone _] | (pre' & rest' & E & Hb' & Hi)].
  - exfalso. apply Forall_app in Hnone as [_ Hn].
    inversion Hn as [|? ? Hc _]; subst. discriminate.
  - assert (pre' = pre /\ rest' = rest) as [-> ->].
    { clear Hi. revert pre' E Hb'.
      induction pre as [|c p IH]; intros [|c' p'] E Hb'.
      - now injection E as ->.
      - injection E as <- _. inversion Hb' as [|? ? Hc _]; subst. discriminate.
      - injection E as -> _. inversion Hb as [|? ? Hc _]; subst. discriminate.
      - injection E as -> E. inversion Hb; inversion Hb'; subst.
        destruct (IH ltac:(assumption) p' E ltac:(assumption)) as [-> ->].
        now split. }
    rewrite Hi.
    replace (len pre =? -1) with false
      by (symmetry; apply Z.eqb_neq; unfold len; lia).
    rewrite skipn_len_app. cbn [closing_brace].
    change (json.one_of lbrace "{") with true. cbv iota.
    change (0 + 1) with 1.
    destruct (closing_brace 1 rest); reflexivity.
Qed.

Lemma balanced_of_closing rest n :
  closing_brace 1 rest = Some n ->
  balanced_object (lbrace :: firstn n rest)
  /\ exists p, lbrace :: firstn n rest = p ++ [rbrace].
Proof.
  intros H.
  destruct (closing_brace_sound rest 1 n ltac:(lia) H) as (Hn & Hz & Hpos & p & Hp).
  split; [split; [|split]|].
  - now exists (firstn n rest).
  - rewrite depth_cons. change (weight lbrace) with 1. lia.
  - intros k Hk. simpl List.length in Hk. rewrite length_firstn in Hk.
    destruct k as [|k]; [lia|]. simpl firstn. rewrite depth_cons.
    change (weight lbrace) with 1.
    destruct k as [|k]; [cbn [firstn]; rewrite depth_nil; lia|].
    rewrite firstn_firstn. replace (Nat.min (S k) n) with (S k) by lia.
    specialize (Hpos (S k)). lia.
  - exists (lbrace :: p). simpl. now rewrite Hp.
Qed.

Lemma closing_of_balanced body post :
  balanced_object (lbrace :: body) ->
  closing_brace 1 (body ++ post) = Some (List.length body).
Proof.
  intros (_ & Hz & Hpos).
  rewrite depth_cons in Hz. change (weight lbrace) with 1 in Hz.
  apply closing_brace_complete; [lia | | exact Hz |].
  - intros ->. rewrite depth_nil in Hz. lia.
  - intros k Hk. specialize (Hpos (S k)). simpl in Hpos.
    rewrite depth_cons in Hpos. change (weight lbrace) with 1 in Hpos.
    apply Hpos. lia.
Qed.

(** X1.  What [extractJSON] returns is empty, or it is a piece of the
    text that starts at the first opening brace of the text, is a
    balanced object, and ends with a closing brace. *)
Theorem extractJSON_sound (text : gostring) :
  extractJSON text = []
  \/ exists pre post,
       text = pre ++ extractJSON text ++ post
       /\ braceless pre
       /\ balanced_object (extractJSON text)
       /\ exists p, extractJSON text = p ++ [rbrace].
Proof.
  destruct (Index_brace text) as [[Hb Hi] | (pre & rest & -> & Hb & _)].
  - left. unfold extractJSON. now rewrite Hi.
  - rewrite (extractJSON_at pre rest Hb).
    destruct (closing_brace 1 rest) as [n|] eqn:E; [right | now left].
    exists pre, (skipn n rest).
    destruct (balanced_of_closing rest n E) as [Hbal Hend].
    split; [|split; [exact Hb | split; [exact Hbal | exact Hend]]].
    simpl. now rewrite firstn_skipn.
Qed.

Lemma extractJSON_found (pre obj post : gostring) :
  braceless pre -> balanced_object obj ->
  extractJSON (pre ++ obj ++ post) = obj.
Proof.
  intros Hb Hobj. destruct Hobj as [[body ->] Hrest].
  assert (Hobj : balanced_object (lbrace :: body)) by (split; [now exists body | exact Hrest]).
  change ((lbrace :: body) ++ post) with (lbrace :: (body ++ post)).
  rewrite (extractJSON_at pre (body ++ post) Hb).
  rewrite (closing_of_balanced body post Hobj).
  rewrite firstn_app, firstn_all, Nat.sub_diag. simpl. now rewrite app_nil_r.
Qed.

(** X2.  A balanced object is found whatever is written around it, as
    long as no opening brace comes before it. *)
Theorem extractJSON_complete (pre obj post : gostring) :
  braceless pre -> balanced_object obj ->
  extractJSON (pre ++ obj ++ post) = obj.
Proof. exact (extractJSON_found pre obj post). Qed.

(** The text of the package's test with a preamble and a suffix. *)
Lemma extractJSON_complete_witness :
  extractJSON (str "Here is the result: " ++
               (str "{" ++ dq ++ str "outer" ++ dq ++ str ": {" ++ dq
                ++ str "inner" ++ dq ++ str ": 1}}") ++
               str " Hope this helps!")
  = str "{" ++ dq ++ str "outer" ++ dq ++ str ": {" ++ dq
    ++ str "inner" ++ dq ++ str ": 1}}".
Proof.
  apply extractJSON_complete.
  - unfold braceless. repeat constructor.
  - split; [eexists; reflexivity|]. split; [reflexivity|].
    intros k Hk. simpl in Hk.
    do 23 (destruct k as [|k]; [try lia; vm_compute; reflexivity|]).
    lia.
Defined.

(** X3.  Extracting twice is extracting once. *)
Theorem extractJSON_idempotent (text : gostring) :
  extractJSON (extractJSON text) = extractJSON text.
Proof.
  destruct (Index_brace text) as [[Hb Hi] | (pre & rest & -> & Hb & _)].
  - assert (E : extractJSON text = []) by (unfold extractJSON; now rewrite Hi).
    rewrite E. reflexivity.
  - rewrite (extractJSON_at pre rest Hb).
    destruct (closing_brace 1 rest) as [n|] eqn:E; [|reflexivity].
    destruct (balanced_of_closing rest n E) as [Hbal _].
    change (lbrace :: firstn n rest) with ([] ++ lbrace :: firstn n rest).
    rewrite (extractJSON_at [] (firstn n rest) ltac:(constructor)).
    rewrite <- (app_nil_r (firstn n rest)) at 1.
    rewrite (closing_of_balanced (firstn n rest) [] Hbal).
    rewrite firstn_all. reflexivity.
Qed.

End extract_facts.

(* ================================================================== *)
(** * The health tracker *)
(* ================================================================== *)

Module health_facts.

Import scheduler.

(** A tracker holds one status for a component. *)
Definition one_status_each (h : Health) : Prop := NoDup (map fst h).

Definition status_or_zero (h : Health) (component : gostring) : HealthStatus :=
  match GetStatus h component with
  | Some s => s
  | None => zero_status
  end.

Lemma lookup_update_same h c f :
  lookup (update h c f) c = Some (f (status_or_zero h c)).
Proof.
  unfold status_or_zero, GetStatus, lookup.
  induction h as [|[k v] rest IH]; simpl.
  - now rewrite strings_facts.gostring_eqb_refl.
  - destruct (gostring_eqb k c) eqn:E; simpl; rewrite E; [reflexivity|].
    exact IH.
Qed.

Lemma lookup_update_other h c f c' :
  c' <> c -> lookup (update h c f) c' = lookup h c'.
Proof.
  intros Hne. unfold lookup.
  assert (Hc : gostring_eqb c c' = false).
  { destruct (gostring_eqb c c') eqn:E; [|reflexivity].
    apply strings_facts.gostring_eqb_eq in E. congruence. }
  induction h as [|[k v] rest IH]; simpl.
  - now rewrite Hc.
  - destruct (gostring_eqb k c) eqn:E; simpl.
    + apply strings_facts.gostring_eqb_eq in E. subst k. now rewrite Hc.
    + destruct (gostring_eqb k c'); [reflexivity | exact IH].
Qed.

Lemma update_keys h c f :
  map fst (update h c f) = map fst h
  \/ (~ In c (map fst h) /\ map fst (update h c f) = map fst h ++ [c]).
Proof.
  induction h as [|[k v] rest IH]; simpl.
  - right. split; [tauto | reflexivity].
  - destruct (gostring_eqb k c) eqn:E; simpl; [now left|].
    destruct IH as [IH | [Hn IH]].
    + left. now rewrite IH.
    + right. split; [|now rewrite IH].
      intros [K|K]; [|tauto]. subst k.
      now rewrite strings_facts.gostring_eqb_refl in E.
Qed.

Lemma update_one_status_each h c f :
  one_status_each h -> one_status_each (update h c f).
Proof.
  unfold one_status_each. intros H.
  destruct (update_keys h c f) as [E | [Hn E]]; rewrite E; [exact H|].
  apply NoDup_app; [exact H | repeat constructor; intros [] |].
  intros x Hx [<-|[]]. contradiction.
Qed.

Lemma update_unhealthy h c f :
  Healthy (f (status_or_zero h c)) = false ->
  (forall s, Healthy (f s) = false) ->
  IsOverallHealthy (update h c f) = false.
Proof.
  intros _ Hf. unfold IsOverallHealthy.
  induction h as [|[k v] rest IH]; simpl.
  - now rewrite Hf.
  - destruct (gostring_eqb k c); simpl; [now rewrite Hf|].
    rewrite IH. apply andb_false_r.
Qed.

Lemma IsOverallHealthy_statuses h :
  one_status_each h ->
  (IsOverallHealthy h = true <->
   forall c s, GetStatus h c = Some s -> Healthy s = true).
Proof.
  unfold one_status_each, IsOverallHealthy, GetStatus, lookup.
  induction h as [|[k v] rest IH]; simpl; intros Hnd.
  - split; [intros _ c s H; discriminate | reflexivity].
  - inversion Hnd as [|? ? Hk Hnd']; subst.
    rewrite andb_true_iff, (IH Hnd'). split.
    + intros [Hv Hrest] c s.
      destruct (gostring_eqb k c); simpl; [intros E; now injection E as <-|].
      apply Hrest.
    + intros H. split.
      * apply (H k v). now rewrite strings_facts.gostring_eqb_refl.
      * intros c s Hc. apply (H c s).
        destruct (gostring_eqb k c) eqn:E; [|exact Hc].
        exfalso. apply strings_facts.gostring_eqb_eq in E. subst c.
        apply Hk. clear - Hc.
        induction rest as [|[k' v'] rest IH]; simpl in *; [discriminate|].
        destruct (gostring_eqb k' k) eqn:E.
        -- left. now apply strings_facts.gostring_eqb_eq in E.
        -- right. now apply IH.
Qed.

(** X4.  After [SetHealthy] the component reads healthy, checked and
    succeeded now, with no error and the message given; every other
    component reads as before. *)
Theorem SetHealthy_GetStatus (h : Health) (now : Z) (component message : gostring) :
  GetStatus (SetHealthy h now component message) component
  = Some {| Healthy := true; LastCheck := Some now; LastSuccess := Some now;
            LastError := None; Message := message |}
  /\ forall other,
       other <> component ->
       GetStatus (SetHealthy h now component message) other = GetStatus h other.
Proof.
  split.
  - unfold GetStatus, SetHealthy. now rewrite lookup_update_same.
  - intros other Hne. unfold GetStatus, SetHealthy.
    now apply lookup_update_other.
Qed.

(** X5.  After [SetUnhealthy] the component reads unhealthy with the
    error and its text; the time of its last success is the one it had
    (none for a component not seen before); every other component reads
    as before. *)
Theorem SetUnhealthy_GetStatus (h : Health) (now : Z) (component : gostring)
        (err : error) :
  GetStatus (SetUnhealthy h now component err) component
  = Some {| Healthy := false; LastCheck := Some now;
            LastSuccess :=
              match GetStatus h component with
              | Some s => LastSuccess s
              | None => None
              end;
            LastError := Some err; Message := error_string err |}
  /\ forall other,
       other <> component ->
       GetStatus (SetUnhealthy h now component err) other = GetStatus h other.
Proof.
  split.
  - unfold GetStatus, SetUnhealthy. rewrite lookup_update_same.
    unfold status_or_zero, GetStatus.
    destruct (lookup h component); reflexivity.
  - intros other Hne. unfold GetStatus, SetUnhealthy.
    now apply lookup_update_other.
Qed.

(** X6.  A new tracker is healthy overall; a tracker is not healthy
    overall right after any [SetUnhealthy]; and a tracker built by
    [SetHealthy] and [SetUnhealthy] (one status for a component) is
    healthy overall exactly when every status [GetStatus] returns is
    healthy. *)
Theorem IsOverallHealthy_cases :
  IsOverallHealthy NewHealth = true
  /\ one_status_each NewHealth
  /\ (forall h now component err,
        IsOverallHealthy (SetUnhealthy h now component err) = false)
  /\ (forall h now component message,
        one_status_each h ->
        one_status_each (SetHealthy h now component message))
  /\ (forall h now component err,
        one_status_each h ->
        one_status_each (SetUnhealthy h now component err))
  /\ (forall h,
        one_status_each h ->
        (IsOverallHealthy h = true <->
         forall component s,
           GetStatus h component = Some s -> Healthy s = true)).
Proof.
  split; [reflexivity|]. split; [constructor|].
  split; [|split; [|split]].
  - intros h now component err. unfold SetUnhealthy.
    apply update_unhealthy; [reflexivity | intros s; reflexivity].
  - intros h now component message. apply update_one_status_each.
  - intros h now component err. apply update_one_status_each.
  - exact IsOverallHealthy_statuses.
Qed.

End health_facts.

(* ================================================================== *)
(** * The store: what the statements keep *)
(* ================================================================== *)

Module db_facts.

Import db aggregator_facts strings_facts.

(** What a statement reads and the script of failures aside, two stores
    are the same. *)
Definition same_tables (st st' : Store) : Prop :=
  quotes st' = quotes st /\ trends st' = trends st /\ posts st' = posts st
  /\ trends_seq st' = trends_seq st /\ posts_seq st' = posts_seq st
  /\ clock st' = clock st.

Lemma same_tables_refl st : same_tables st st.
Proof. repeat split. Qed.

Lemma same_tables_trans a b c :
  same_tables a b -> same_tables b c -> same_tables a c.
Proof.
  unfold same_tables. intros (?&?&?&?&?&?) (?&?&?&?&?&?).
  repeat split; congruence.
Qed.

Lemma statement_same st e st' : statement st = (e, st') -> same_tables st st'.
Proof.
  unfold statement. destruct (faults st); intros H; inversion H;
    repeat split.
Qed.

Definition unmatched (t : Trend) : bool :=
  is_false (Matched t) && is_false (Skipped t).

Lemma unmatched_flags t :
  unmatched t = true <-> Matched t = Some false /\ Skipped t = Some false.
Proof.
  unfold unmatched, is_false.
  destruct (Matched t) as [[|]|], (Skipped t) as [[|]|]; simpl;
    split; intros H; try discriminate; try (destruct H; discriminate); auto.
Qed.

(** ORDER BY detected_at DESC is a strict weak ordering, NULL last. *)
Lemma detected_later_strict_weak (l : list Trend) :
  sort.strict_weak_on detected_later l.
Proof.
  unfold sort.strict_weak_on, detected_later. split; [|split].
  - intros x _. destruct (DetectedAt x); [apply Z.ltb_irrefl | reflexivity].
  - intros x y z _ _ _.
    destruct (DetectedAt x), (DetectedAt y), (DetectedAt z);
      rewrite ?Z.ltb_lt; try discriminate; try reflexivity; lia.
  - intros x y z _ _ _.
    destruct (DetectedAt x), (DetectedAt y), (DetectedAt z);
      rewrite ?Z.ltb_ge; try discriminate; try reflexivity; lia.
Qed.

Lemma limit_firstn {A} (n : Z) (l : list A) :
  exists rest,
    l = limit n l ++ rest
    /\ (n < 0 -> rest = [])
    /\ (0 <= n -> len (limit n l) = Z.min n (len l))
    /\ limit n l = firstn (List.length (limit n l)) l
    /\ rest = skipn (List.length (limit n l)) l.
Proof.
  unfold limit. destruct (n <? 0) eqn:E.
  - apply Z.ltb_lt in E. exists []. rewrite app_nil_r.
    split; [reflexivity|]. split; [reflexivity|]. split; [lia|].
    split; [now rewrite firstn_all | now rewrite skipn_all].
  - apply Z.ltb_ge in E. exists (skipn (Z.to_nat n) l).
    split; [now rewrite firstn_skipn|]. split; [lia|].
    split; [intros _; unfold len; rewrite length_firstn; lia|].
    rewrite length_firstn.
    destruct (Nat.le_gt_cases (Z.to_nat n) (List.length l)) as [H|H].
    + rewrite Nat.min_l by exact H. now split.
    + rewrite Nat.min_r by lia.
      rewrite !firstn_all2 by lia.
      rewrite !skipn_all2 by lia. now split.
Qed.

Section Listing.

Context {sorter : sort.Sorter}.

Lemma ListUnmatchedTrends_same (st : Store) (n : Z) :
  same_tables st (snd (ListUnmatchedTrends st n)).
Proof.
  unfold ListUnmatchedTrends.
  destruct (statement st) as [[e|] st1] eqn:E1;
    exact (statement_same _ _ _ E1).
Qed.

(** X7.  [ListUnmatchedTrends] changes no table.  What it lists are rows
    of the table with [matched] and [skipped] both FALSE, latest
    detection first; with a limit that is not negative it lists
    [min limit n] of the [n] such rows, and no row left out was detected
    later than a row listed; with a negative limit it lists them all. *)
Theorem ListUnmatchedTrends_lists (st : Store) (n : Z) :
  match ListUnmatchedTrends st n with
  | (Ok l, st') =>
    same_tables st st'
    /\ Forall (fun t => In t (trends st)
                        /\ Matched t = Some false /\ Skipped t = Some false) l
    /\ StronglySorted (fun a b => detected_later b a = false) l
    /\ (0 <= n -> len l = Z.min n (len (filter unmatched (trends st))))
    /\ exists rest,
         Permutation (l ++ rest) (filter unmatched (trends st))
         /\ (n < 0 -> rest = [])
         /\ forall a b, In a l -> In b rest -> detected_later b a = false
  | (Err _, st') => same_tables st st'
  end.
Proof.
  unfold ListUnmatchedTrends.
  destruct (statement st) as [[e|] st1] eqn:E1;
    pose proof (statement_same _ _ _ E1) as Hs; [exact Hs|].
  destruct Hs as (_ & T & _). rewrite T.
  fold unmatched.
  change (fun t : Trend => is_false (Matched t) && is_false (Skipped t))
    with unmatched.
  set (rows := filter unmatched (trends st)).
  set (sorted := sort.Slice detected_later rows).
  assert (Hperm : Permutation rows sorted) by apply sort.Slice_perm.
  assert (Hord : sort.ordered detected_later sorted)
    by (apply sort.Slice_ordered, detected_later_strict_weak).
  destruct (limit_firstn n sorted) as (rest & Hsplit & Hneg & Hlen & Hfirst & Hrest).
  split; [eapply statement_same; eassumption|].
  split; [|split; [|split]].
  - apply Forall_forall. intros t Ht.
    assert (Hin : In t rows).
    { apply (Permutation_in _ (Permutation_sym Hperm)).
      rewrite Hsplit. apply in_or_app. now left. }
    unfold rows in Hin. apply filter_In in Hin as [Hin Hu].
    split; [exact Hin | now apply unmatched_flags].
  - rewrite Hfirst. now apply index_facts.StronglySorted_firstn.
  - intros Hn. rewrite (Hlen Hn). unfold len.
    now rewrite (Permutation_length Hperm).
  - exists rest. split; [rewrite <- Hsplit; now apply Permutation_sym|].
    split; [exact Hneg|].
    intros a b Ha Hb. rewrite Hfirst in Ha. rewrite Hrest in Hb.
    exact (index_facts.StronglySorted_split _ _ _ Hord a b Ha Hb).
Qed.

Lemma listed_unmatched st n l st' :
  ListUnmatchedTrends st n = (Ok l, st') ->
  forall t, In t l -> In t (trends st) /\ unmatched t = true.
Proof.
  unfold ListUnmatchedTrends.
  destruct (statement st) as [[e|] st1] eqn:E1; [discriminate|].
  destruct (statement_same _ _ _ E1) as (_ & T & _). rewrite T.
  intros H t Ht. injection H as <- _.
  unfold limit in Ht.
  assert (Hin : In t (sort.Slice detected_later
                        (filter (fun t => is_false (Matched t) && is_false (Skipped t))
                                (trends st)))).
  { destruct (n <? 0); [exact Ht | eapply index_facts.In_firstn; exact Ht]. }
  apply (Permutation_in _ (Permutation_sym (sort.Slice_perm _ _ _))) in Hin.
  now apply filter_In in Hin.
Qed.

(** X8.  A trend that was marked as skipped, or as matched, is not
    listed as unmatched again, whatever the limit. *)
Theorem marked_trend_not_listed (st st1 : Store) (id : Z) (n : Z) :
  (exists reason, UpdateTrendSkipped st id reason = (Ok tt, st1))
  \/ UpdateTrendMatched st id = (Ok tt, st1) ->
  match ListUnmatchedTrends st1 n with
  | (Ok l, _) => Forall (fun t => Trend_ID t <> id) l
  | (Err _, _) => True
  end.
Proof.
  intros Hmark.
  destruct (ListUnmatchedTrends st1 n) as [[l|e] st2] eqn:El; [|exact I].
  apply Forall_forall. intros t Ht Hid.
  destruct (listed_unmatched _ _ _ _ El t Ht) as [Hin Hu].
  apply unmatched_flags in Hu as [Hm Hs].
  destruct Hmark as [[reason H] | H].
  - unfold UpdateTrendSkipped in H.
    destruct (statement st) as [[e|] st0]; [discriminate|].
    injection H as <-. cbn [trends with_trends] in Hin.
    apply in_map_iff in Hin as (t0 & Ht0 & _).
    destruct (Trend_ID t0 =? id) eqn:E.
    + subst t. discriminate.
    + subst t. apply Z.eqb_neq in E. contradiction.
  - unfold UpdateTrendMatched in H.
    destruct (statement st) as [[e|] st0]; [discriminate|].
    injection H as <-. cbn [trends with_trends] in Hin.
    apply in_map_iff in Hin as (t0 & Ht0 & _).
    destruct (Trend_ID t0 =? id) eqn:E.
    + subst t. discriminate.
    + subst t. apply Z.eqb_neq in E. contradiction.
Qed.

End Listing.

(** What idx_posts_trend_platform enforces. *)
Definition unique_posts (st : Store) : Prop :=
  NoDup (map (fun p => (TrendHash p, Platform p)) (posts st)).

Lemma post_conflicts_false arg ps :
  existsb (post_conflicts arg) ps = false ->
  ~ In (cp_TrendHash arg, cp_Platform arg)
       (map (fun p => (TrendHash p, Platform p)) ps).
Proof.
  intros H Hin. apply in_map_iff in Hin as (p & Hp & Hin).
  assert (K : existsb (post_conflicts arg) ps = true).
  { apply existsb_exists. exists p. split; [exact Hin|].
    unfold post_conflicts. injection Hp as -> ->.
    now rewrite !gostring_eqb_refl. }
  congruence.
Qed.

Lemma CreatePost_shape (st : Store) (arg : CreatePostParams) :
  match CreatePost st arg with
  | (Ok row, st1) =>
    posts st1 = posts st ++ [row]
    /\ quotes st1 = quotes st /\ trends st1 = trends st
    /\ clock st1 = clock st
  | (Err _, st1) => same_tables st st1
  end.
Proof.
  unfold CreatePost.
  destruct (statement st) as [[e|] st0] eqn:E0;
    pose proof (statement_same _ _ _ E0) as Hs; [exact Hs|].
  destruct (existsb _ (posts st0)); [exact Hs|].
  destruct (negb (post_refs_ok st0 arg)); [exact Hs|].
  destruct Hs as (Q & T & P & _ & _ & C). cbn. rewrite P. now repeat split.
Qed.

(** X9.  [CreatePost] adds one row or none.  The row it adds is posted
    now, refers to a quote of the store, and its (trend hash, platform)
    pair is new: a table with one row for a pair keeps that.  When the
    pair has a row the statement fails and the table is as it was. *)
Theorem CreatePost_unique (st : Store) (arg : CreatePostParams) :
  match CreatePost st arg with
  | (Ok row, st1) =>
    posts st1 = posts st ++ [row]
    /\ TrendHash row = cp_TrendHash arg /\ Platform row = cp_Platform arg
    /\ QuoteID row = cp_QuoteID arg /\ PostedAt row = Some (clock st)
    /\ (exists q, In q (quotes st) /\ Quote_ID q = cp_QuoteID arg)
    /\ existsb (post_conflicts arg) (posts st) = false
    /\ (unique_posts st -> unique_posts st1)
    /\ quotes st1 = quotes st /\ trends st1 = trends st
  | (Err _, st1) => same_tables st st1
  end
  /\ (existsb (post_conflicts arg) (posts st) = true ->
      exists e st1, CreatePost st arg = (Err e, st1)).
Proof.
  unfold CreatePost.
  destruct (statement st) as [[e|] st0] eqn:E0;
    pose proof (statement_same _ _ _ E0) as Hs.
  { split; [exact Hs | intros _; eauto]. }
  cbv beta iota.
  destruct Hs as (Q & T & P & TS & PS & C). rewrite P.
  destruct (existsb (post_conflicts arg) (posts st)) eqn:Ex.
  { split; [repeat split; assumption | intros _; eauto]. }
  split; [|discriminate].
  destruct (post_refs_ok st0 arg) eqn:Er; cbn [negb];
    [|repeat split; assumption].
  cbn [posts with_posts quotes trends TrendHash Platform QuoteID PostedAt].
  rewrite C, Q, T.
  split; [reflexivity|]. do 4 (split; [reflexivity|]).
  split.
  { unfold post_refs_ok in Er. apply andb_true_iff in Er as [Er _].
    apply existsb_exists in Er as (q & Hq & Hid). rewrite Q in Hq.
    exists q. split; [exact Hq | now apply Z.eqb_eq]. }
  split; [reflexivity|]. split; [|now split].
  unfold unique_posts. cbn [posts with_posts].
  intros Hu. rewrite map_app. cbn [map TrendHash Platform].
  apply NoDup_app; [exact Hu | repeat constructor; intros [] |].
  intros x Hx [<-|[]]. revert Hx. now apply post_conflicts_false.
Qed.

(** The driver does not fail the next statement. *)
Definition answers (st : Store) : Prop := fst (statement st) = None.

(** X10.  A post that was recorded counts toward the limit of the day at
    once: when the count is answered, the count for the platform of the
    post is one more than before. *)
Theorem CreatePost_counts (st st1 : Store) (arg : CreatePostParams) (row : Post) :
  CreatePost st arg = (Ok row, st1) -> answers st1 ->
  exists st2,
    CountPostsToday st1 (cp_Platform arg)
    = (Ok (len (filter (posted_today (clock st) (cp_Platform arg)) (posts st)) + 1),
       st2).
Proof.
  intros H Hans. unfold CreatePost in H.
  destruct (statement st) as [[e|] st0] eqn:E0; [discriminate|].
  destruct (statement_same _ _ _ E0) as (Q & T & P & TS & PS & C).
  destruct (existsb _ (posts st0)); [discriminate|].
  destruct (negb (post_refs_ok st0 arg)); [discriminate|].
  injection H as <- <-.
  unfold CountPostsToday. unfold answers in Hans.
  destruct (statement (with_posts st0 _ _)) as [[e|] st2] eqn:E2;
    [discriminate|].
  destruct (statement_same _ _ _ E2) as (_ & _ & P2 & _ & _ & C2).
  exists st2. f_equal. f_equal.
  rewrite P2, C2. cbn [clock posts with_posts]. rewrite P, C, filter_app.
  unfold len. rewrite length_app. cbn [filter].
  replace (posted_today (clock st) (cp_Platform arg) _) with true.
  { simpl List.length. lia. }
  unfold posted_today. cbn [Platform PostedAt].
  rewrite gostring_eqb_refl. simpl. symmetry. apply Z.leb_le.
  unfold start_of_day.
  pose proof (Z.mul_div_le (clock st) 86400 ltac:(lia)). lia.
Qed.

End db_facts.

(* ================================================================== *)
(** * Fetching and storing trends *)
(* ================================================================== *)

Module fetch_facts.

Import monitor aggregator_facts strings_facts db_facts.

(** X11.  A trend row created with an external identifier is the row the
    lookup by source and identifier returns afterwards, when the lookup
    is answered. *)
Theorem CreateTrend_then_Get (st st1 : db.Store) (arg : db.CreateTrendParams)
        (row : db.Trend) (external : gostring) :
  db.CreateTrend st arg = (Ok row, st1) ->
  db.ct_ExternalID arg = Some external ->
  answers st1 ->
  exists st2,
    db.GetTrendBySourceAndExternalID st1 (db.ct_Source arg) (Some external)
    = (Ok row, st2).
Proof.
  intros H Hext Hans.
  pose proof (CreateTrend_cases st arg) as Hc. rewrite H in Hc.
  destruct Hc as (T & Hs & He & Hex).
  unfold db.GetTrendBySourceAndExternalID. unfold answers in Hans.
  destruct (db.statement st1) as [[e|] st2] eqn:E2; [discriminate|].
  destruct (statement_same _ _ _ E2) as (_ & T2 & _).
  exists st2. rewrite T2, T. rewrite Hext in Hex, He.
  assert (Hfind : forall ts,
            existsb (db.trend_matches (db.ct_Source arg) (Some external)) ts = false ->
            find (db.trend_matches (db.ct_Source arg) (Some external)) (ts ++ [row])
            = Some row).
  { induction ts as [|t ts IH]; simpl.
    - intros _. unfold db.trend_matches, db.sql_eq. rewrite Hs, He.
      now rewrite !gostring_eqb_refl.
    - intros K. apply orb_false_iff in K as [-> K]. now apply IH. }
  now rewrite (Hfind _ Hex).
Qed.

(** What the monitors that answer have fetched, monitor after monitor. *)
Definition fetched (ms : list Monitor) : list Trend :=
  flat_map (fun m => match FetchTrends m with
                     | Ok trends => trends
                     | Err _ => []
                     end) ms.

Lemma fetch_all_fetched ms : fetch_all ms = fetched ms.
Proof.
  unfold fetch_all, fetched.
  assert (H : forall acc,
            fold_left (fun allTrends m =>
                         match FetchTrends m with
                         | Ok trends => allTrends ++ trends
                         | Err _ => allTrends
                         end) ms acc
            = acc ++ flat_map (fun m => match FetchTrends m with
                                        | Ok trends => trends
                                        | Err _ => []
                                        end) ms).
  { induction ms as [|m ms IH]; intros acc; simpl; [now rewrite app_nil_r|].
    rewrite IH. destruct (FetchTrends m); [now rewrite app_assoc|].
    reflexivity. }
  now rewrite H.
Qed.

(** A row and the trend it was made of. *)
Definition row_of (row : db.Trend) (t : Trend) : Prop :=
  db.Source row = Source t
  /\ db.ExternalID row = db.null_if_empty (ExternalID t).

(** A subsequence. *)
Inductive picked {A} : list A -> list A -> Prop :=
| picked_nil : picked [] []
| picked_take x l l' : picked l l' -> picked (x :: l) (x :: l')
| picked_skip x l l' : picked l l' -> picked l (x :: l').

Lemma picked_app {A} (a b a' b' : list A) :
  picked a a' -> picked b b' -> picked (a ++ b) (a' ++ b').
Proof. induction 1; simpl; intros; auto using @picked. Qed.

Lemma picked_none {A} (l : list A) : picked [] l.
Proof. induction l; auto using @picked. Qed.

Lemma store_steps ts : forall acc st,
  exists news added,
    fst (fold_left store_step ts (acc, st)) = acc ++ news
    /\ db.trends (snd (fold_left store_step ts (acc, st))) = db.trends st ++ added
    /\ Forall2 row_of added news
    /\ picked news ts.
Proof.
  induction ts as [|t ts IH]; intros acc st.
  - exists [], []. simpl. rewrite !app_nil_r. repeat split; constructor.
  - cbn [fold_left]. unfold store_step at 2 4.
    pose proof (storeTrend_cases st t) as Hc.
    destruct (storeTrend st t) as [r st1]. cbn [fst snd] in Hc.
    inversion Hc as [st' T _|st' row T Hs He _|e st' T]; subst.
    + destruct (IH acc st1) as (news & added & H1 & H2 & H3 & H4).
      exists news, added. rewrite H1, H2, T.
      repeat split; auto using @picked.
    + destruct (IH (acc ++ [t]) st1) as (news & added & H1 & H2 & H3 & H4).
      exists (t :: news), (row :: added). rewrite H1, H2, T, <- !app_assoc.
      split; [reflexivity|]. split; [reflexivity|].
      split; [constructor; [now split | exact H3] | now constructor].
    + destruct (IH acc st1) as (news & added & H1 & H2 & H3 & H4).
      exists news, added. rewrite H1, H2, T.
      repeat split; auto using @picked.
Qed.

Lemma picked_In {A} (l l' : list A) x : picked l l' -> In x l -> In x l'.
Proof. induction 1; simpl; intros; tauto. Qed.

Section Fetching.

Variable lowerTable : Z -> Z.

(** X12.  [FetchAndStore] never fails.  The trends it returns are, in
    order, some of the trends fetched by the monitors that answered --
    a monitor that fails is passed over -- and each of them passes the
    filter; the table of trends grows by one row for each of them, in
    the same order, and by nothing else. *)
Theorem FetchAndStore_never_fails (a : Aggregator) (st : db.Store) :
  exists news st' added,
    FetchAndStore lowerTable a st = (Ok news, st')
    /\ picked news (List.filter (fun t => Pass (Check lowerTable (filter a) t))
                                (fetched (monitors a)))
    /\ Forall (fun t => Pass (Check lowerTable (filter a) t) = true
                        /\ exists m trends,
                             In m (monitors a) /\ FetchTrends m = Ok trends
                             /\ In t trends) news
    /\ db.trends st' = db.trends st ++ added
    /\ Forall2 row_of added news.
Proof.
  unfold FetchAndStore.
  rewrite fetch_all_fetched, filter_facts.FilterTrends_filter.
  set (filtered := List.filter _ (fetched (monitors a))).
  destruct (store_steps filtered [] st) as (news & added & H1 & H2 & H3 & H4).
  destruct (fold_left store_step filtered ([], st)) as [news' st'].
  cbn [fst snd] in H1, H2. subst news'.
  exists news, st', added.
  split; [reflexivity|]. split; [exact H4|]. split; [|now split].
  apply Forall_forall. intros t Ht.
  apply (picked_In _ _ _ H4) in Ht. unfold filtered in Ht.
  apply filter_In in Ht as [Hin Hp]. split; [exact Hp|].
  unfold fetched in Hin. apply in_flat_map in Hin as (m & Hm & Hin).
  destruct (FetchTrends m) as [trends|e] eqn:E; [|contradiction].
  now exists m, trends.
Qed.

End Fetching.

End fetch_facts.

(* ================================================================== *)
(** * The cycles of the scheduler *)
(* ================================================================== *)

Module cycle_facts.

Import scheduler db_facts.

Section Tables.

Context {sorter : sort.Sorter}.

Variable Embed : gostring -> result (list float.float32).

Variable Complete : gostring -> gostring -> result gostring.

Lemma GetQuote_same st id :
  same_tables st (snd (db.GetQuote st id)).
Proof.
  unfold db.GetQuote.
  destruct (db.statement st) as [[e|] st1] eqn:E;
    pose proof (statement_same _ _ _ E) as H; [exact H|].
  destruct (find _ _); exact H.
Qed.

Lemma veclite_candidates_same minSim results : forall st,
  same_tables st (snd (matcher.veclite_candidates minSim st results)).
Proof.
  induction results as [|r rest IH]; intros st; simpl.
  - apply same_tables_refl.
  - destruct (float.ltb _ _); [apply IH|].
    pose proof (GetQuote_same st (matcher.SQLiteID r)) as H.
    destruct (db.GetQuote st (matcher.SQLiteID r)) as [[q|e] st1];
      cbn [snd] in H.
    + specialize (IH st1).
      destruct (matcher.veclite_candidates minSim st1 rest) as [cs st2].
      cbn [snd] in *. eapply same_tables_trans; eassumption.
    + eapply same_tables_trans; [exact H | apply IH].
Qed.

Lemma retrieve_same m st trend r st' :
  matcher.retrieve Embed m st trend = Returned (r, st') -> same_tables st st'.
Proof.
  unfold matcher.retrieve.
  destruct (matcher.quoteStore m) as [qs|].
  - destruct (matcher.HybridSearch _ _ _ _ _) as [results|e].
    + pose proof (veclite_candidates_same (matcher.minSimilarity m) results st) as H.
      destruct (matcher.veclite_candidates _ st results) as [cs st2].
      intros K. injection K as _ <-. exact H.
    + intros K. injection K as _ <-. apply same_tables_refl.
  - destruct (Embed _) as [q|e].
    + destruct (matcher.vectorIndex m) as [v|]; [|discriminate].
      destruct (matcher.SearchWithThreshold _ _ _ _); [|discriminate].
      intros K. injection K as _ <-. apply same_tables_refl.
    + intros K. injection K as _ <-. apply same_tables_refl.
Qed.

Lemma LoadIndex_same m st :
  same_tables st (snd (matcher.LoadIndex m st)).
Proof.
  unfold matcher.LoadIndex.
  destruct (matcher.quoteStore m); [apply same_tables_refl|].
  unfold matcher.LoadAllEmbeddings, db.ListQuotesWithEmbeddings.
  destruct (db.statement st) as [[e|] st1] eqn:E;
    exact (statement_same _ _ _ E).
Qed.

Lemma Match_same m st trend r m' st' :
  matcher.Match Embed Complete m st trend = Returned (r, m', st') ->
  same_tables st st'.
Proof.
  unfold matcher.Match.
  set (first := match matcher.quoteStore m, matcher.vectorIndex m with
                | None, None => matcher.LoadIndex m st
                | _, _ => (Ok tt, m, st)
                end).
  assert (H0 : same_tables st (snd first)).
  { subst first.
    destruct (matcher.quoteStore m), (matcher.vectorIndex m);
      try apply same_tables_refl. apply LoadIndex_same. }
  destruct first as [[loaded m1] st1]. cbn [snd] in H0.
  destruct loaded as [[]|e].
  - destruct (matcher.IndexSize m1 =? 0).
    + intros K. injection K as _ _ <-. exact H0.
    + destruct (matcher.retrieve Embed m1 st1 trend) as [[res st2]|why] eqn:R;
        [|discriminate].
      apply retrieve_same in R.
      destruct res as [[|c cs]|e]; intros K; injection K as _ _ <-;
        eapply same_tables_trans; eassumption.
  - intros K. injection K as _ _ <-. exact H0.
Qed.

End Tables.

(** What a cycle leaves as it was while it is looking for a match: the
    calls to the publishing capability, the posts, the quotes, the time
    of the last post, the health, and which trends are matched. *)
Definition searching (s s' : Scheduler) : Prop :=
  published s' = published s
  /\ db.posts (store s') = db.posts (store s)
  /\ db.quotes (store s') = db.quotes (store s)
  /\ db.clock (store s') = db.clock (store s)
  /\ lastPost s' = lastPost s
  /\ health s' = health s
  /\ MaxPostsPerDay s' = MaxPostsPerDay s
  /\ map db.Trend_ID (db.trends (store s')) = map db.Trend_ID (db.trends (store s))
  /\ map db.Matched (db.trends (store s')) = map db.Matched (db.trends (store s)).

Lemma searching_refl s : searching s s.
Proof. repeat split. Qed.

Lemma searching_trans a b c : searching a b -> searching b c -> searching a c.
Proof.
  unfold searching.
  intros (?&?&?&?&?&?&?&?&?) (?&?&?&?&?&?&?&?&?). repeat split; congruence.
Qed.

Lemma searching_store s st :
  same_tables (store s) st -> searching s (with_store s st).
Proof.
  intros (Q & T & P & _ & _ & C). unfold searching. cbn.
  repeat split; congruence.
Qed.

Lemma searching_slog s l msg : searching s (slog s l msg).
Proof. repeat split. Qed.

Lemma searching_matcher s m : searching s (with_matcher s m).
Proof. repeat split. Qed.

Lemma skipped_keeps (id : Z) reason ts :
  map db.Trend_ID (map (fun t => if db.Trend_ID t =? id
                                 then db.set_skipped reason t else t) ts)
  = map db.Trend_ID ts
  /\ map db.Matched (map (fun t => if db.Trend_ID t =? id
                                   then db.set_skipped reason t else t) ts)
     = map db.Matched ts.
Proof.
  rewrite !map_map. split; apply map_ext; intros t;
    destruct (db.Trend_ID t =? id); reflexivity.
Qed.

Lemma searching_skipped s id reason :
  searching s (with_store s (snd (db.UpdateTrendSkipped (store s) id reason))).
Proof.
  unfold db.UpdateTrendSkipped.
  destruct (db.statement (store s)) as [[e|] st1] eqn:E;
    pose proof (statement_same _ _ _ E) as H.
  - now apply searching_store.
  - destruct H as (Q & T & P & _ & _ & C).
    destruct (skipped_keeps id reason (db.trends st1)) as [K1 K2].
    unfold searching. cbn. rewrite K1, K2.
    repeat split; congruence.
Qed.

Section Cycle.

Context {sorter : sort.Sorter}.

Variable Sum256 : gostring -> list ascii.

Variable Embed : gostring -> result (list float.float32).

Variable Complete : gostring -> gostring -> result gostring.

Variable Post : PostContent -> result PostResult.

Lemma find_match_searching trends : forall s r s',
  find_match Embed Complete s trends = Returned (r, s') -> searching s s'.
Proof.
  induction trends as [|trend rest IH]; intros s r s' Hrun;
    cbn [find_match] in Hrun.
  - injection Hrun as _ <-. apply searching_refl.
  - destruct (matcher.Match Embed Complete (matcher s) (store s) trend)
      as [[[res m] st]|why] eqn:M; [|discriminate].
    apply Match_same in M.
    assert (H1 : searching s (with_store (with_matcher s m) st)).
    { eapply searching_trans; [apply searching_matcher|].
      now apply searching_store. }
    destruct res as [[found|]|e].
    + injection Hrun as _ <-. exact H1.
    + pose proof (searching_skipped (with_store (with_matcher s m) st)
                    (db.Trend_ID trend) (Some (str "no suitable quote match")))
        as H2.
      destruct (db.UpdateTrendSkipped _ _ _) as [r2 st2]. cbn [snd] in H2.
      apply IH in Hrun.
      eapply searching_trans; [exact H1|].
      eapply searching_trans; [exact H2|].
      destruct r2; [exact Hrun|].
      eapply searching_trans; [apply searching_slog | exact Hrun].
    + apply IH in Hrun.
      eapply searching_trans; [exact H1|].
      eapply searching_trans; [apply searching_slog | exact Hrun].
Qed.

(** What the end of the cycle does to the calls and to the posts. *)
Lemma publish_once s bestMatch :
  exists content rows,
    published (publish Sum256 Post s bestMatch) = published s ++ [content]
    /\ pc_Text content
       = poster.FormatQuote (db.Text (matcher.mr_Quote bestMatch))
                            (db.SourceBook (matcher.mr_Quote bestMatch))
                            (db.String_of (db.Character (matcher.mr_Quote bestMatch)))
    /\ db.posts (store (publish Sum256 Post s bestMatch))
       = db.posts (store s) ++ rows
    /\ (List.length rows <= 1)%nat
    /\ (forall e, Post content = Err e ->
        rows = []
        /\ store (publish Sum256 Post s bestMatch) = store s
        /\ lastPost (publish Sum256 Post s bestMatch) = lastPost s).
Proof.
  unfold publish.
  set (content := {| pc_Text := _; pc_QuoteText := _; pc_SourceBook := _;
                     pc_TrendTitle := _ |}).
  exists content.
  destruct (Post content) as [result|err].
  - set (arg := {| db.cp_QuoteID := _ |}).
    pose proof (CreatePost_shape (store s) arg) as H1.
    cbn [store with_store with_health with_lastPost slog with_published].
    destruct (db.CreatePost (store s) arg) as [r1 st1].
    assert (Hrows : exists rows, db.posts st1 = db.posts (store s) ++ rows
                                 /\ (List.length rows <= 1)%nat).
    { destruct r1 as [row|e].
      - destruct H1 as (P & _). exists [row]. split; [exact P | simpl; lia].
      - destruct H1 as (_ & _ & P & _). exists []. rewrite app_nil_r.
        split; [exact P | simpl; lia]. }
    destruct Hrows as (rows & P1 & Hlen). exists rows.
    assert (Hm : forall st id, db.posts (snd (db.UpdateTrendMatched st id)) = db.posts st).
    { intros st id. unfold db.UpdateTrendMatched.
      destruct (db.statement st) as [[e|] st0] eqn:E;
        destruct (statement_same _ _ _ E) as (_ & _ & P & _); exact P. }
    assert (Hq : forall st id, db.posts (snd (db.UpdateQuotePosted st id)) = db.posts st).
    { intros st id. unfold db.UpdateQuotePosted.
      destruct (db.statement st) as [[e|] st0] eqn:E;
        destruct (statement_same _ _ _ E) as (_ & _ & P & _); exact P. }
    set (s1 := match r1 with Err _ => _ | Ok _ => _ end).
    assert (S1 : store s1 = st1 /\ published s1 = published s ++ [content]).
    { subst s1. destruct r1; split; reflexivity. }
    destruct S1 as [S1 Pub1].
    specialize (Hm (store s1) (db.Trend_ID (matcher.mr_Trend bestMatch))).
    destruct (db.UpdateTrendMatched (store s1) _) as [r2 st2]. cbn [snd] in Hm.
    set (s2 := match r2 with Err _ => _ | Ok _ => _ end).
    assert (S2 : store s2 = st2 /\ published s2 = published s ++ [content]).
    { subst s2. destruct r2; split; try reflexivity; exact Pub1. }
    destruct S2 as [S2 Pub2].
    specialize (Hq (store s2) (db.Quote_ID (matcher.mr_Quote bestMatch))).
    destruct (db.UpdateQuotePosted (store s2) _) as [r3 st3]. cbn [snd] in Hq.
    split; [destruct r3; exact Pub2|]. split; [reflexivity|].
    split; [|split; [exact Hlen | discriminate]].
    rewrite <- P1, <- S1, <- Hm, <- S2, <- Hq. destruct r3; reflexivity.
  - exists []. rewrite app_nil_r. cbn.
    split; [reflexivity|]. split; [reflexivity|]. split; [reflexivity|].
    split; [lia|]. intros _ _. repeat split.
Qed.

(** What a whole post cycle that publishes nothing leaves as it was. *)
Definition unposted (s s' : Scheduler) : Prop :=
  db.posts (store s') = db.posts (store s)
  /\ db.quotes (store s') = db.quotes (store s)
  /\ lastPost s' = lastPost s
  /\ map db.Trend_ID (db.trends (store s')) = map db.Trend_ID (db.trends (store s))
  /\ map db.Matched (db.trends (store s')) = map db.Matched (db.trends (store s)).

Lemma searching_unposted s s' : searching s s' -> unposted s s'.
Proof. unfold searching, unposted. tauto. Qed.

(** The ways the cycle ends once the limit has been passed. *)
Lemma post_after_quota_cases s :
  match post_after_quota Sum256 Embed Complete Post s with
  | Panicked _ => True
  | Returned s' =>
    (published s' = published s /\ unposted s s')
    \/ exists s1 bestMatch,
         searching s s1 /\ s' = publish Sum256 Post s1 bestMatch
  end.
Proof.
  unfold post_after_quota, monitor.GetUnmatchedTrends.
  pose proof (ListUnmatchedTrends_same (store s) 10) as HL.
  destruct (db.ListUnmatchedTrends (store s) 10) as [[trends|err] st];
    cbn [snd] in HL.
  - pose proof HL as Hs.
    assert (H0 : searching s (with_store s st)) by now apply searching_store.
    destruct trends as [|t ts].
    + left. split; [reflexivity|]. apply searching_unposted.
      eapply searching_trans; [exact H0 | apply searching_slog].
    + destruct (find_match Embed Complete (with_store s st) (t :: ts))
        as [[[found|] s1]|why] eqn:Ef; [| |exact I];
        apply find_match_searching in Ef.
      * right. exists s1, found. split; [|reflexivity].
        eapply searching_trans; eassumption.
      * left.
        assert (H2 : searching s (slog s1 Debug "no suitable quote-trend match found")).
        { eapply searching_trans; [exact H0|].
          eapply searching_trans; [exact Ef | apply searching_slog]. }
        split; [apply H2 | now apply searching_unposted].
  - left. destruct HL as (Q & T & P & _ & _ & C).
    unfold unposted. cbn. rewrite T. repeat split; congruence.
Qed.

Lemma runPostCycle_cases s :
  match runPostCycle Sum256 Embed Complete Post s with
  | Panicked _ => True
  | Returned s' =>
    (published s' = published s /\ unposted s s')
    \/ exists s1 bestMatch,
         searching s s1 /\ s' = publish Sum256 Post s1 bestMatch
  end.
Proof.
  unfold runPostCycle.
  change (store (slog s Debug "running post cycle")) with (store s).
  assert (Hcount : same_tables (store s)
                     (snd (db.CountPostsToday (store s) (str "bluesky")))).
  { unfold db.CountPostsToday.
    destruct (db.statement (store s)) as [[e|] st1] eqn:E;
      exact (statement_same _ _ _ E). }
  destruct (db.CountPostsToday (store s) (str "bluesky")) as [[n|e] st].
  - cbn [snd] in Hcount.
    assert (H0 : searching s (with_store (slog s Debug "running post cycle") st)).
    { eapply searching_trans; [apply searching_slog|].
      now apply searching_store. }
    destruct (MaxPostsPerDay _ <=? n).
    + left.
      assert (H1 : searching s
                     (slog (with_store (slog s Debug "running post cycle") st)
                           Info "daily post limit reached"))
        by (eapply searching_trans; [exact H0 | apply searching_slog]).
      split; [apply H1 | now apply searching_unposted].
    + pose proof (post_after_quota_cases
                    (with_store (slog s Debug "running post cycle") st)) as H.
      destruct (post_after_quota _ _ _ _ _) as [s'|why]; [|exact I].
      destruct H as [[Hp Hu] | (s1 & bm & Hs1 & ->)].
      * left. split; [rewrite Hp; apply H0|].
        apply searching_unposted in H0.
        unfold unposted in *. intuition congruence.
      * right. exists s1, bm. split; [|reflexivity].
        eapply searching_trans; eassumption.
  - cbn [snd] in Hcount.
    set (s0 := slog (with_store (slog s Debug "running post cycle") st) Error _).
    assert (H0 : searching s s0).
    { apply (searching_trans s (slog s Debug "running post cycle"));
        [apply searching_slog|].
      apply (searching_trans _ (with_store (slog s Debug "running post cycle") st));
        [apply searching_store; exact Hcount | apply searching_slog]. }
    pose proof (post_after_quota_cases s0) as H.
    destruct (post_after_quota _ _ _ _ _) as [s'|why]; [|exact I].
    destruct H as [[Hp Hu] | (s1 & bm & Hs1 & ->)].
    + left. split; [rewrite Hp; apply H0|].
      apply searching_unposted in H0.
      unfold unposted in *. intuition congruence.
    + right. exists s1, bm. split; [|reflexivity].
      eapply searching_trans; eassumption.
Qed.

(** X13.  A post cycle calls the publishing capability at most once, and
    it records at most one post, and none without a call; the text it
    publishes is a quote as [FormatQuote] writes it. *)
Theorem runPostCycle_publishes_at_most_once (s : Scheduler) :
  match runPostCycle Sum256 Embed Complete Post s with
  | Panicked _ => True
  | Returned s' =>
    exists calls rows,
      published s' = published s ++ calls
      /\ (List.length calls <= 1)%nat
      /\ db.posts (store s') = db.posts (store s) ++ rows
      /\ (List.length rows <= List.length calls)%nat
      /\ Forall (fun c => exists text book author,
                            pc_Text c = poster.FormatQuote text book author) calls
  end.
Proof.
  pose proof (runPostCycle_cases s) as H.
  destruct (runPostCycle Sum256 Embed Complete Post s) as [s'|why]; [|exact I].
  destruct H as [[Hp (P & _)] | (s1 & bm & Hs1 & ->)].
  - exists [], []. rewrite !app_nil_r. repeat split; auto.
  - destruct (publish_once s1 bm) as (content & rows & Hpub & Htext & Hposts & Hlen & _).
    destruct Hs1 as (Hp1 & P1 & _).
    exists [content], rows. rewrite Hpub, Hposts, Hp1, P1.
    split; [reflexivity|]. split; [simpl; lia|]. split; [reflexivity|].
    split; [simpl; lia|]. constructor; [|constructor]. eauto.
Qed.

(** X14.  When the publishing capability fails, the cycle records no
    post, marks no trend as matched, counts no quote as posted and keeps
    the time of the last post: the trend is offered again. *)
Theorem runPostCycle_failed_post (s : Scheduler) :
  (forall content, is_err (Post content) = true) ->
  match runPostCycle Sum256 Embed Complete Post s with
  | Panicked _ => True
  | Returned s' =>
    db.posts (store s') = db.posts (store s)
    /\ db.quotes (store s') = db.quotes (store s)
    /\ lastPost s' = lastPost s
    /\ map db.Matched (db.trends (store s'))
       = map db.Matched (db.trends (store s))
  end.
Proof.
  intros Hfail.
  pose proof (runPostCycle_cases s) as H.
  destruct (runPostCycle Sum256 Embed Complete Post s) as [s'|why]; [|exact I].
  destruct H as [[Hp (P & Q & L & _ & M)] | (s1 & bm & Hs1 & ->)].
  - now repeat split.
  - destruct (publish_once s1 bm) as (content & rows & _ & _ & _ & _ & Herr).
    specialize (Hfail content).
    destruct (Post content) as [r|e]; [discriminate|].
    destruct (Herr e eq_refl) as (_ & St & L). rewrite St, L.
    destruct Hs1 as (_ & P1 & Q1 & _ & L1 & _ & _ & _ & M1).
    now repeat split.
Qed.

End Cycle.

(** X15.  [FetchAndStore] reports no error, so a monitor cycle always
    ends with the component "monitor" healthy, whatever the monitors
    answered. *)
Theorem runMonitorCycle_always_healthy (lowerTable : Z -> Z) (s : Scheduler) :
  exists t,
    GetStatus (health (runMonitorCycle lowerTable s)) (str "monitor")
    = Some {| Healthy := true; LastCheck := Some t; LastSuccess := Some t;
              LastError := None; Message := str "fetched trends" |}
    /\ In (Info, "monitor cycle complete"%string)
          (log (runMonitorCycle lowerTable s))
    /\ published (runMonitorCycle lowerTable s) = published s.
Proof.
  unfold runMonitorCycle.
  change (agg (slog s Debug "running monitor cycle")) with (agg s).
  change (store (slog s Debug "running monitor cycle")) with (store s).
  unfold monitor.FetchAndStore.
  destruct (fold_left monitor.store_step _ _) as [news st'].
  eexists. cbn [health with_health slog log published store with_store].
  split; [|split; [apply in_or_app; right; now left | reflexivity]].
  unfold GetStatus, SetHealthy.
  now rewrite health_facts.lookup_update_same.
Qed.

End cycle_facts.

(* ================================================================== *)
(** * Cosine similarity and normalisation *)
(* ================================================================== *)

Module similarity_facts.

Import float embedder cosine_facts.

Lemma SFmul_comm prec emax x y : SFmul prec emax x y = SFmul prec emax y x.
Proof.
  destruct x as [sx|sx| |sx mx ex], y as [sy|sy| |sy my ey]; simpl;
    try reflexivity; try (now rewrite xorb_comm).
  now rewrite xorb_comm, Pos.mul_comm, Z.add_comm.
Qed.

Lemma cos_sums_swap (a : list float32) : forall b d na nb,
  fold_left cos_step (combine b a) (d, nb, na)
  = let '(D, NA, NB) := fold_left cos_step (combine a b) (d, na, nb) in
    (D, NB, NA).
Proof.
  induction a as [|x a IH]; intros [|y b] d na nb; try reflexivity.
  cbn [combine fold_left cos_step].
  unfold fmul at 1. rewrite (SFmul_comm 53 1024 (widen y) (widen x)).
  fold (fmul (widen x) (widen y)).
  apply IH.
Qed.

(** X16.  In binary32 and binary64, bit for bit: the similarity of [a]
    with [b] is the similarity of [b] with [a]. *)
Theorem CosineSimilarity_sym (a b : list float32) :
  CosineSimilarity a b = CosineSimilarity b a.
Proof.
  unfold CosineSimilarity. rewrite (Nat.eqb_sym (List.length b)).
  destruct (negb (List.length a =? List.length b)%nat); [reflexivity|].
  unfold cos_sums. rewrite (cos_sums_swap a b).
  destruct (fold_left cos_step (combine a b) (zero, zero, zero))
    as [[D NA] NB].
  rewrite (orb_comm (is_zero NB)).
  destruct (is_zero NA || is_zero NB); [reflexivity|].
  unfold fmul. now rewrite (SFmul_comm 53 1024 (fsqrt NB)).
Qed.

Lemma norm_sq_opp (a : list float32) : norm_sq (map SFopp a) = norm_sq a.
Proof.
  unfold norm_sq. generalize zero.
  induction a as [|v a IH]; intros x; [reflexivity|].
  cbn [map fold_left]. unfold widen at 1 2.
  rewrite to64_opp, fmul_opp_opp. apply IH.
Qed.

(** X19.  [Normalize] keeps the dimension; a vector whose sum of squares
    is zero, as a vector of zeros is, is returned as it is; and the
    normalised opposite of a vector is the opposite of the normalised
    vector, bit for bit. *)
Theorem Normalize_cases :
  (forall a : list float32, List.length (Normalize a) = List.length a)
  /\ (forall n : nat, Normalize (repeat zero n) = repeat zero n)
  /\ (forall a : list float32,
        Forall (fun x => exists s, x = S754_zero s) a -> Normalize a = a)
  /\ (forall a : list float32,
        Normalize (map SFopp a) = map SFopp (Normalize a)).
Proof.
  assert (Z : forall a : list float32,
            Forall (fun x => exists s, x = S754_zero s) a -> Normalize a = a).
  { intros a Ha. unfold Normalize. now rewrite (norm_sq_zeros a Ha). }
  split; [|split; [|split]].
  - intros a. unfold Normalize. destruct (is_zero _); [reflexivity|].
    apply length_map.
  - intros n. apply Z. apply Forall_forall. intros x Hx.
    apply repeat_spec in Hx. now exists false.
  - exact Z.
  - intros a. unfold Normalize. rewrite norm_sq_opp.
    destruct (is_zero (norm_sq a)); [reflexivity|].
    rewrite !map_map. apply map_ext. intros v.
    unfold widen, narrow. now rewrite to64_opp, fdiv_opp_l, to32_opp.
Qed.

End similarity_facts.

(* ================================================================== *)
(** * The hash of a trend and the description of a Reddit post *)
(* ================================================================== *)

Module trend_facts.

Import monitor strings_facts.

Definition is_lower_hex (c : ascii) : Prop :=
  json.one_of c "0123456789abcdef" = true.

Lemma hex_digit_ok n : 0 <= n < 16 -> is_lower_hex (hex_digit n).
Proof.
  intros H. unfold is_lower_hex.
  assert (K : forallb (fun k => json.one_of (hex_digit (Z.of_nat k))
                                            "0123456789abcdef")
                      (seq 0 16) = true) by (vm_compute; reflexivity).
  rewrite forallb_forall in K.
  specialize (K (Z.to_nat n)). rewrite Z2Nat.id in K by lia.
  apply K. apply in_seq. lia.
Qed.

Lemma hex_encode_shape bs :
  List.length (hex_encode bs) = (2 * List.length bs)%nat
  /\ Forall is_lower_hex (hex_encode bs).
Proof.
  induction bs as [|b bs [IH1 IH2]]; [split; [reflexivity | constructor]|].
  cbn [hex_encode flat_map app]. fold (hex_encode bs).
  pose proof (byte_val_range b) as Hb.
  split; [simpl; rewrite IH1; lia|].
  constructor; [|constructor; [|exact IH2]]; apply hex_digit_ok.
  - split; [apply Z.div_pos; lia | apply Z.div_lt_upper_bound; lia].
  - apply Z.mod_pos_bound. lia.
Qed.

(** X20.  For a digest of 32 bytes, as SHA-256 gives, the hash of a
    trend is 32 characters, each a digit or a letter from a to f. *)
Theorem HashTrend_shape (Sum256 : gostring -> list ascii) (trend : Trend) :
  (forall data, List.length (Sum256 data) = 32%nat) ->
  List.length (HashTrend Sum256 trend) = 32%nat
  /\ Forall is_lower_hex (HashTrend Sum256 trend).
Proof.
  intros H. unfold HashTrend.
  destruct (hex_encode_shape (firstn 16 (Sum256 (Source trend ++ str ":" ++
              ExternalID trend ++ str ":" ++ Title trend)))) as [L F].
  split; [|exact F]. rewrite L, length_firstn, H. reflexivity.
Qed.

(** X21.  The hash is taken of source:id:title, so it does not tell
    where the source ends and the identifier begins: a colon can be moved
    from one to the other, and the URL, the description and the score
    play no part. *)
Theorem HashTrend_separator (Sum256 : gostring -> list ascii)
        (source x external title : gostring) (a b : Trend) :
  HashTrend Sum256 {| Source := source ++ str ":" ++ x; ExternalID := external;
                      Title := title; URL := URL a;
                      Description := Description a; Score := Score a |}
  = HashTrend Sum256 {| Source := source; ExternalID := x ++ str ":" ++ external;
                        Title := title; URL := URL b;
                        Description := Description b; Score := Score b |}.
Proof.
  unfold HashTrend. cbn [Source ExternalID Title].
  now rewrite <- !app_assoc.
Qed.

(** X22.  For a limit of at least 3, [truncate] returns a string of at
    most that many bytes: the string itself when it fits, else its first
    [maxLen - 3] bytes and three dots.  For a limit from 0 to 2 and a
    longer string it panics. *)
Theorem truncate_fits (s : gostring) (maxLen : Z) :
  (3 <= maxLen < 2 ^ 63 ->
   exists r,
     truncate s maxLen = Returned r
     /\ len r <= maxLen
     /\ (len s <= maxLen -> r = s)
     /\ (maxLen < len s ->
         r = firstn (Z.to_nat (maxLen - 3)) s ++ str "..." /\ len r = maxLen))
  /\ (0 <= maxLen < 3 -> maxLen < len s ->
      exists why, truncate s maxLen = Panicked why).
Proof.
  unfold truncate. split.
  - intros H.
    assert (Hsub : sub64 maxLen 3 = maxLen - 3).
    { unfold sub64, wrap64.
      rewrite Z.mod_small by lia. lia. }
    rewrite Hsub.
    destruct (len s <=? maxLen) eqn:E.
    + apply Z.leb_le in E. exists s.
      split; [reflexivity|]. split; [exact E|]. split; [reflexivity | lia].
    + apply Z.leb_gt in E.
      replace (maxLen - 3 <? 0) with false by (symmetry; apply Z.ltb_ge; lia).
      replace (len s <? maxLen - 3) with false by (symmetry; apply Z.ltb_ge; lia).
      cbn [orb]. eexists. split; [reflexivity|].
      assert (L : len (firstn (Z.to_nat (maxLen - 3)) s ++ str "...") = maxLen).
      { unfold len in *. rewrite length_app, length_firstn.
        simpl List.length. lia. }
      split; [lia|]. split; [lia|]. intros _. split; [reflexivity | exact L].
  - intros H Hlong.
    replace (len s <=? maxLen) with false by (symmetry; apply Z.leb_gt; lia).
    assert (Hsub : sub64 maxLen 3 = maxLen - 3).
    { unfold sub64, wrap64.
      rewrite Z.mod_small by lia. lia. }
    rewrite Hsub.
    replace (maxLen - 3 <? 0) with true by (symmetry; apply Z.ltb_lt; lia).
    eexists. reflexivity.
Qed.

End trend_facts.

(* ================================================================== *)
(** * Embeddings as bytes *)
(* ================================================================== *)

Module codec_facts.

Import float matcher strings_facts.

Lemma digits2_pos_bounds m :
  2 ^ (Zpos (digits2_pos m) - 1) <= Zpos m < 2 ^ Zpos (digits2_pos m).
Proof.
  induction m as [p IH|p IH|]; cbn [digits2_pos].
  - rewrite Pos2Z.inj_succ.
    replace (Z.succ (Zpos (digits2_pos p)) - 1) with (Zpos (digits2_pos p)) by lia.
    rewrite Z.pow_succ_r by lia.
    replace (2 ^ Zpos (digits2_pos p))
      with (2 * 2 ^ (Zpos (digits2_pos p) - 1)) in *
      by (rewrite <- Z.pow_succ_r by lia; f_equal; lia).
    lia.
  - rewrite Pos2Z.inj_succ.
    replace (Z.succ (Zpos (digits2_pos p)) - 1) with (Zpos (digits2_pos p)) by lia.
    rewrite Z.pow_succ_r by lia.
    replace (2 ^ Zpos (digits2_pos p))
      with (2 * 2 ^ (Zpos (digits2_pos p) - 1)) in *
      by (rewrite <- Z.pow_succ_r by lia; f_equal; lia).
    lia.
  - simpl. lia.
Qed.

(** A value of the format: subnormal, or normal. *)
Lemma valid_finite s m e :
  valid_binary 24 128 (S754_finite s m e) = true ->
  (Zpos m < 8388608 /\ e = -149)
  \/ (8388608 <= Zpos m < 16777216 /\ -149 <= e <= 104).
Proof.
  unfold valid_binary, bounded, canonical_mantissa, fexp, emin.
  intros H. apply andb_true_iff in H as [H1 H2].
  apply Z.eqb_eq in H1. apply Z.leb_le in H2.
  pose proof (digits2_pos_bounds m) as Hd.
  set (D := Zpos (digits2_pos m)) in *.
  assert (HD : 0 < D) by (unfold D; lia).
  unfold fexp, emin in H1.
  destruct (Z.max_spec (D + e - 24) (3 - 128 - 24)) as [[Hlt Hm]|[Hge Hm]];
    rewrite Hm in H1.
  - (* the exponent is the least one *)
    assert (Zpos m < 2 ^ 24).
    { apply Z.lt_le_trans with (2 ^ D); [lia|].
      apply Z.pow_le_mono_r; lia. }
    change (2 ^ 24) with 16777216 in *.
    destruct (Z.lt_ge_cases (Zpos m) 8388608); [left; lia | right; lia].
  - assert (D = 24) by lia.
    replace D with 24 in Hd by lia.
    change (2 ^ (24 - 1)) with 8388608 in Hd.
    change (2 ^ 24) with 16777216 in Hd.
    right. lia.
Qed.

Lemma byte_val_of_mod z : byte_val (byte_of z) = z mod 256.
Proof.
  assert (E : byte_of z = byte_of (z mod 256)).
  { unfold byte_of. now rewrite Z.mod_mod by lia. }
  rewrite E. apply byte_val_of. apply Z.mod_pos_bound. lia.
Qed.

Lemma le_bytes_read b rest :
  0 <= b < 4294967296 ->
  floats_of_bytes (le_bytes b ++ rest) = float32_of_bits b :: floats_of_bytes rest.
Proof.
  intros H. unfold le_bytes. cbn [app floats_of_bytes].
  rewrite !byte_val_of_mod, !Z.shiftr_div_pow2 by lia.
  change (2 ^ 8) with 256. change (2 ^ 16) with 65536.
  change (2 ^ 24) with 16777216.
  f_equal. f_equal.
  pose proof (Z.div_mod b 256 ltac:(lia)).
  pose proof (Z.mod_pos_bound b 256 ltac:(lia)).
  pose proof (Z.div_mod (b / 256) 256 ltac:(lia)).
  pose proof (Z.mod_pos_bound (b / 256) 256 ltac:(lia)).
  pose proof (Z.div_mod (b / 256 / 256) 256 ltac:(lia)).
  pose proof (Z.mod_pos_bound (b / 256 / 256) 256 ltac:(lia)).
  assert (E2 : b / 65536 = b / 256 / 256) by (rewrite Z.div_div by lia; reflexivity).
  assert (E3 : b / 16777216 = b / 256 / 256 / 256)
    by (rewrite !Z.div_div by lia; reflexivity).
  rewrite E2, E3.
  assert (0 <= b / 256 / 256 / 256 < 256).
  { split; [repeat apply Z.div_pos; lia|].
    rewrite !Z.div_div by lia. apply Z.div_lt_upper_bound; lia. }
  rewrite (Z.mod_small (b / 256 / 256 / 256) 256) by assumption.
  lia.
Qed.

(** The three fields of a representation. *)
Lemma fields (s : bool) (E M : Z) :
  0 <= E < 256 -> 0 <= M < 8388608 ->
  let b := (if s then 2147483648 else 0) + (E * 8388608 + M) in
  Z.testbit b 31 = s
  /\ Z.land (Z.shiftr b 23) 255 = E
  /\ Z.land b 8388607 = M
  /\ 0 <= b < 4294967296.
Proof.
  intros HE HM b.
  assert (Hb : 0 <= b < 4294967296) by (subst b; destruct s; lia).
  split; [|split; [|split; [|exact Hb]]].
  - rewrite Z.testbit_odd, Z.shiftr_div_pow2 by lia.
    change (2 ^ 31) with 2147483648.
    assert (K : b / 2147483648 = if s then 1 else 0).
    { symmetry. apply (Z.div_unique b 2147483648 _ (E * 8388608 + M)).
      - left. lia.
      - subst b. destruct s; lia. }
    rewrite K. now destruct s.
  - rewrite Z.shiftr_div_pow2 by lia. change 255 with (Z.ones 8).
    rewrite Z.land_ones by lia.
    change (2 ^ 23) with 8388608. change (2 ^ 8) with 256.
    assert (K : b / 8388608 = (if s then 256 else 0) + E).
    { symmetry. apply (Z.div_unique b 8388608 _ M).
      - left. lia.
      - subst b. destruct s; lia. }
    rewrite K. symmetry.
    apply (Z.mod_unique _ 256 (if s then 1 else 0)); [left; lia|].
    destruct s; lia.
  - change 8388607 with (Z.ones 23). rewrite Z.land_ones by lia.
    change (2 ^ 23) with 8388608. symmetry.
    apply (Z.mod_unique b 8388608 ((if s then 256 else 0) + E)); [left; lia|].
    subst b. destruct s; lia.
Qed.

Lemma float32_bits_read x :
  valid_binary 24 128 x = true ->
  float32_of_bits (float32_bits x) = x /\ 0 <= float32_bits x < 4294967296.
Proof.
  intros Hv. unfold float32_of_bits.
  destruct x as [s|s| |s m e].
  - destruct (fields s 0 0 ltac:(lia) ltac:(lia)) as (T & Ef & Mf & R).
    cbv zeta in *. replace (float32_bits (S754_zero s))
      with ((if s then 2147483648 else 0) + (0 * 8388608 + 0))
      by (simpl; destruct s; reflexivity).
    rewrite T, Ef, Mf. split; [reflexivity | exact R].
  - destruct (fields s 255 0 ltac:(lia) ltac:(lia)) as (T & Ef & Mf & R).
    cbv zeta in *. replace (float32_bits (S754_infinity s))
      with ((if s then 2147483648 else 0) + (255 * 8388608 + 0))
      by (simpl; destruct s; reflexivity).
    rewrite T, Ef, Mf. split; [reflexivity | exact R].
  - split; [reflexivity | simpl; lia].
  - destruct (valid_finite s m e Hv) as [[Hm He]|[Hm He]].
    + destruct (fields s 0 (Zpos m) ltac:(lia) ltac:(lia)) as (T & Ef & Mf & R).
      cbv zeta in *.
      replace (float32_bits (S754_finite s m e))
        with ((if s then 2147483648 else 0) + (0 * 8388608 + Zpos m)).
      2:{ unfold float32_bits.
          replace (Zpos m <? 8388608) with true by (symmetry; apply Z.ltb_lt; lia).
          reflexivity. }
      rewrite T, Ef, Mf. subst e. split; [reflexivity | exact R].
    + destruct (fields s (e + 150) (Zpos m - 8388608) ltac:(lia) ltac:(lia))
        as (T & Ef & Mf & R).
      cbv zeta in *.
      replace (float32_bits (S754_finite s m e))
        with ((if s then 2147483648 else 0)
              + ((e + 150) * 8388608 + (Zpos m - 8388608))).
      2:{ unfold float32_bits.
          replace (Zpos m <? 8388608) with false by (symmetry; apply Z.ltb_ge; lia).
          reflexivity. }
      rewrite T, Ef, Mf.
      replace (e + 150 =? 0) with false by (symmetry; apply Z.eqb_neq; lia).
      replace (e + 150 =? 255) with false by (symmetry; apply Z.eqb_neq; lia).
      split; [|exact R]. f_equal; [|lia].
      replace (Zpos m - 8388608 + 8388608) with (Zpos m) by lia. reflexivity.
Qed.

Lemma floats_of_bytes_length : forall n data,
  (List.length data <= n)%nat ->
  List.length (floats_of_bytes data) = (List.length data / 4)%nat.
Proof.
  induction n as [|n IH]; intros data Hn.
  - destruct data; [reflexivity | simpl in Hn; lia].
  - destruct data as [|b0 [|b1 [|b2 [|b3 rest]]]]; try reflexivity.
    cbn [floats_of_bytes List.length]. rewrite IH by (simpl in Hn; lia).
    change (S (S (S (S (List.length rest))))) with (4 + List.length rest)%nat.
    replace (4 + List.length rest)%nat with (1 * 4 + List.length rest)%nat by lia.
    rewrite Nat.div_add_l by lia. lia.
Qed.

(** X24.  [BytesToEmbedding] fails exactly on data whose length is not
    a multiple of four, with an error that gives the length in decimal
    ("invalid embedding data length: 5" for five bytes), and otherwise
    returns a quarter as many values as there are bytes: none for no
    data. *)
Theorem BytesToEmbedding_shape (data : list ascii) :
  match BytesToEmbedding data with
  | Ok embedding =>
    len data mod 4 = 0 /\ 4 * len embedding = len data
  | Err e =>
    len data mod 4 <> 0
    /\ e = errorString ("invalid embedding data length: "
                        ++ NilZero.string_of_int (Z.to_int (len data)))%string
  end.
Proof.
  unfold BytesToEmbedding.
  destruct (len data =? 0) eqn:E0.
  - apply Z.eqb_eq in E0. rewrite E0. split; reflexivity.
  - assert (Hrem : Z.rem (len data) 4 = len data mod 4)
      by (apply Z.rem_mod_nonneg; unfold len; lia).
    rewrite Hrem.
    destruct (len data mod 4 =? 0) eqn:E4; cbn [negb].
    + apply Z.eqb_eq in E4. split; [exact E4|].
      unfold len in *. rewrite (floats_of_bytes_length _ data (le_n _)).
      rewrite Nat2Z.inj_div. change (Z.of_nat 4) with 4.
      pose proof (Z.div_mod (Z.of_nat (List.length data)) 4 ltac:(lia)). lia.
    + apply Z.eqb_neq in E4. now split.
Qed.

Lemma floats_of_EmbeddingToBytes embedding :
  Forall (fun v => valid_binary 24 128 v = true) embedding ->
  floats_of_bytes (EmbeddingToBytes embedding) = embedding.
Proof.
  induction 1 as [|v embedding Hv _ IH]; [reflexivity|].
  unfold EmbeddingToBytes in *. cbn [flat_map].
  destruct (float32_bits_read v Hv) as [Hr Hb].
  now rewrite (le_bytes_read _ _ Hb), Hr, IH.
Qed.

(** X25.  An embedding of binary32 values that is written with
    [EmbeddingToBytes] takes four bytes for each value and is read back
    by [BytesToEmbedding] as it was. *)
Theorem embedding_round_trip (embedding : list float32) :
  Forall (fun v => valid_binary 24 128 v = true) embedding ->
  BytesToEmbedding (EmbeddingToBytes embedding) = Ok embedding
  /\ len (EmbeddingToBytes embedding) = 4 * len embedding.
Proof.
  intros Hv.
  assert (L : len (EmbeddingToBytes embedding) = 4 * len embedding).
  { unfold len, EmbeddingToBytes. clear Hv.
    induction embedding as [|v e IH]; [reflexivity|].
    cbn [flat_map]. rewrite length_app. simpl List.length in *. lia. }
  split; [|exact L].
  unfold BytesToEmbedding. rewrite L.
  destruct embedding as [|v e]; [reflexivity|].
  replace (4 * len (v :: e) =? 0) with false
    by (symmetry; apply Z.eqb_neq; unfold len; simpl List.length; lia).
  replace (Z.rem (4 * len (v :: e)) 4) with 0
    by (symmetry; rewrite Z.mul_comm; apply Z.rem_mul; lia).
  cbn [Z.eqb negb]. f_equal. now apply floats_of_EmbeddingToBytes.
Qed.

End codec_facts.

(* ================================================================== *)
(** * The matcher: what it loads and what it returns *)
(* ================================================================== *)

Module matcher_facts.

Import float embedder matcher float_facts db_facts.

Lemma geb_not_ltb x t : geb x t = true -> ltb x t = false.
Proof.
  intros H. destruct (geb_not_nan _ _ H) as [Nx Nt].
  unfold geb in H. apply (leb_key t x Nt Nx) in H.
  destruct (ltb x t) eqn:L; [|reflexivity].
  apply (ltb_key x t Nx Nt) in L.
  destruct (key x) as [[a1 b1] c1], (key t) as [[a2 b2] c2].
  unfold klt in *. exfalso.
  destruct H as [H|H]; [lia | inversion H; subst; lia].
Qed.

Lemma id_strict_weak (l : list db.Quote) :
  sort.strict_weak_on (fun a b => db.Quote_ID a <? db.Quote_ID b) l.
Proof.
  split; [|split].
  - intros x _. apply Z.ltb_irrefl.
  - intros x y z _ _ _. rewrite !Z.ltb_lt. lia.
  - intros x y z _ _ _. rewrite !Z.ltb_ge. lia.
Qed.

(** What [LoadAllEmbeddings] makes of one quote. *)
Definition loaded_of (quote : db.Quote) : list QuoteWithEmbedding :=
  match BytesToEmbedding (match db.Embedding quote with
                          | Some d => d | None => [] end) with
  | Err _ => []
  | Ok [] => []
  | Ok embedding => [{| qe_Quote := quote; qe_Embedding := embedding |}]
  end.

Lemma loaded_of_In quote qe :
  In qe (loaded_of quote) <->
  qe_Quote qe = quote
  /\ BytesToEmbedding (match db.Embedding quote with
                       | Some d => d | None => [] end) = Ok (qe_Embedding qe)
  /\ qe_Embedding qe <> [].
Proof.
  unfold loaded_of.
  destruct (BytesToEmbedding _) as [[|v e]|err]; simpl.
  - split; [intros [] | intros (_ & H & Hne)]. injection H as H. congruence.
  - split.
    + intros [<-|[]]. simpl. repeat split. discriminate.
    + intros (Hq & H & _). left. destruct qe as [q' e']. simpl in *.
      injection H as <-. now subst.
  - split; [intros [] | intros (_ & H & _); discriminate].
Qed.

Lemma sorted_flat_map (l : list db.Quote) :
  StronglySorted (fun a b => db.Quote_ID a <= db.Quote_ID b) l ->
  StronglySorted (fun a b => db.Quote_ID (qe_Quote a) <= db.Quote_ID (qe_Quote b))
                 (flat_map loaded_of l).
Proof.
  induction 1 as [|q l Hs IH Hall]; simpl; [constructor|].
  assert (Hrest : Forall (fun b => db.Quote_ID q <= db.Quote_ID (qe_Quote b))
                         (flat_map loaded_of l)).
  { apply Forall_forall. intros b Hb.
    apply in_flat_map in Hb as (q' & Hq' & Hb).
    apply loaded_of_In in Hb as (-> & _).
    rewrite Forall_forall in Hall. now apply Hall. }
  destruct (loaded_of q) as [|qe [|qe' more]] eqn:E; simpl; [exact IH| |].
  - assert (Hq : qe_Quote qe = q).
    { assert (K : In qe (loaded_of q)) by (rewrite E; now left).
      now apply loaded_of_In in K. }
    constructor; [exact IH|]. now rewrite Hq.
  - exfalso. unfold loaded_of in E.
    destruct (BytesToEmbedding _) as [[|v e]|err]; discriminate.
Qed.

Section Loading.

Context {sorter : sort.Sorter}.

(** X26.  [LoadAllEmbeddings] changes no table.  It loads, in ascending
    order of identifier, exactly the quotes of the store whose embedding
    is not NULL, has a length that is a multiple of four and is not
    empty, each with the values its bytes hold; a quote whose embedding
    cannot be read is passed over without an error. *)
Theorem LoadAllEmbeddings_loads (st : db.Store) :
  match LoadAllEmbeddings st with
  | (Ok loaded, st') =>
    same_tables st st'
    /\ (forall qe,
          In qe loaded <->
          In (qe_Quote qe) (db.quotes st)
          /\ qe_Embedding qe <> []
          /\ exists data,
               db.Embedding (qe_Quote qe) = Some data
               /\ BytesToEmbedding data = Ok (qe_Embedding qe))
    /\ StronglySorted
         (fun a b => db.Quote_ID (qe_Quote a) <= db.Quote_ID (qe_Quote b)) loaded
  | (Err e, st') =>
    same_tables st st' /\ exists cause, e = wrapError "list quotes" cause
  end.
Proof.
  unfold LoadAllEmbeddings, db.ListQuotesWithEmbeddings.
  destruct (db.statement st) as [[e|] st1] eqn:E;
    pose proof (statement_same _ _ _ E) as Hs; [split; eauto|].
  destruct Hs as (Q & Hrest). rewrite Q.
  set (sorted := sort.Slice _ (filter db.has_embedding (db.quotes st))).
  assert (Hperm : Permutation (filter db.has_embedding (db.quotes st)) sorted)
    by apply sort.Slice_perm.
  assert (Hord : sort.ordered (fun a b => db.Quote_ID a <? db.Quote_ID b) sorted)
    by apply sort.Slice_ordered, id_strict_weak.
  change (flat_map _ sorted) with (flat_map loaded_of sorted).
  split; [split; [exact Q | exact Hrest]|]. split.
  - intros qe. rewrite in_flat_map. split.
    + intros (q & Hq & Hin).
      apply (Permutation_in _ (Permutation_sym Hperm)) in Hq.
      apply filter_In in Hq as [Hq He].
      apply loaded_of_In in Hin as (<- & Hb & Hne).
      split; [exact Hq|]. split; [exact Hne|].
      unfold db.has_embedding in He.
      destruct (db.Embedding (qe_Quote qe)) as [data|]; [|discriminate].
      now exists data.
    + intros (Hq & Hne & data & Hd & Hb).
      exists (qe_Quote qe). split.
      * apply (Permutation_in _ Hperm). apply filter_In. split; [exact Hq|].
        unfold db.has_embedding. now rewrite Hd.
      * apply loaded_of_In. rewrite Hd. now repeat split.
  - apply sorted_flat_map. unfold sort.ordered in Hord.
    clear - Hord. induction Hord as [|q l Hs IH Hall]; constructor; [exact IH|].
    rewrite Forall_forall in *. intros b Hb. specialize (Hall b Hb).
    apply Z.ltb_ge in Hall. exact Hall.
Qed.

Variable Embed : gostring -> result (list float32).

Variable Complete : gostring -> gostring -> result gostring.

Lemma veclite_candidates_above minSim results : forall st,
  Forall (fun c => ltb (Similarity c) minSim = false)
         (fst (veclite_candidates minSim st results)).
Proof.
  induction results as [|r rest IH]; intros st; simpl; [constructor|].
  destruct (ltb (sr_Similarity r) minSim) eqn:L; [apply IH|].
  destruct (db.GetQuote st (SQLiteID r)) as [[q|e] st1]; [|apply IH].
  specialize (IH st1).
  destruct (veclite_candidates minSim st1 rest) as [cs st2]. simpl in *.
  constructor; [exact L | exact IH].
Qed.

Lemma above_threshold_above q threshold embs : forall qs ms,
  above_threshold qs q threshold embs = Returned ms ->
  Forall (fun c => geb (Similarity c) threshold = true) ms.
Proof.
  induction embs as [|emb embs IH]; intros qs ms H; simpl in H.
  - injection H as <-. constructor.
  - destruct (geb (CosineSimilarity q emb) threshold) eqn:G.
    + destruct qs as [|quote qs]; [discriminate|].
      destruct (above_threshold qs q threshold embs) as [ms'|] eqn:A;
        [|discriminate].
      injection H as <-. constructor; [exact G | now apply (IH qs)].
    + now apply (IH (tl qs)).
Qed.

Lemma SearchWithThreshold_above v q threshold maxResults ms :
  SearchWithThreshold v q threshold maxResults = Returned ms ->
  Forall (fun c => ltb (Similarity c) threshold = false) ms.
Proof.
  unfold SearchWithThreshold.
  destruct (len (quotes v) =? 0); [intros H; injection H as <-; constructor|].
  destruct (above_threshold _ _ _ _) as [results|] eqn:A; [|discriminate].
  apply above_threshold_above in A.
  set (sorted := sort.Slice _ results).
  assert (Hs : Forall (fun c => geb (Similarity c) threshold = true) sorted).
  { apply Forall_forall. intros c Hc.
    apply (Permutation_in _ (Permutation_sym (sort.Slice_perm _ _ _))) in Hc.
    rewrite Forall_forall in A. now apply A. }
  intros H. apply Forall_forall. intros c Hc. apply geb_not_ltb.
  rewrite Forall_forall in Hs. apply Hs.
  destruct ((0 <? maxResults) && (maxResults <? len sorted));
    injection H as <-; [eapply index_facts.In_firstn; exact Hc | exact Hc].
Qed.

Lemma retrieve_above m st trend cs st' :
  retrieve Embed m st trend = Returned (Ok cs, st') ->
  Forall (fun c => ltb (Similarity c) (minSimilarity m) = false) cs.
Proof.
  unfold retrieve.
  destruct (quoteStore m) as [qs|].
  - destruct (HybridSearch _ _ _ _ _) as [results|e]; [|discriminate].
    pose proof (veclite_candidates_above (minSimilarity m) results st) as H.
    destruct (veclite_candidates _ st results) as [cs' st2].
    intros K. injection K as <- _. exact H.
  - destruct (Embed _) as [q|e]; [|discriminate].
    destruct (vectorIndex m) as [v|]; [|discriminate].
    destruct (SearchWithThreshold _ _ _ _) as [ms|] eqn:S; [|discriminate].
    intros K. injection K as <- _.
    now apply SearchWithThreshold_above in S.
Qed.

Lemma select_some m trend cs mr :
  select Complete m trend cs = Ok (Some mr) ->
  ltb (mr_RelevanceScore mr) (minRelevance m) = false
  /\ mr_Trend mr = trend
  /\ exists c, In c cs /\ mr_Quote mr = Quote c
               /\ mr_VectorSimilarity mr = Similarity c.
Proof.
  unfold select.
  destruct (EvaluateBatch Complete trend (map Quote cs)) as [r|e]; [|discriminate].
  destruct ((BestMatchIndex r <? 0) || (len cs <=? BestMatchIndex r));
    [discriminate|].
  destruct (nth_error cs (Z.to_nat (BestMatchIndex r))) as [best|] eqn:N;
    [|discriminate].
  destruct (ltb _ (minRelevance m)) eqn:L; [discriminate|].
  intros H. injection H as <-. cbn.
  split; [exact L|]. split; [reflexivity|].
  exists best. split; [eapply nth_error_In; exact N | now split].
Qed.

Lemma LoadIndex_thresholds m st :
  minSimilarity (snd (fst (LoadIndex m st))) = minSimilarity m
  /\ minRelevance (snd (fst (LoadIndex m st))) = minRelevance m.
Proof.
  unfold LoadIndex. destruct (quoteStore m); [now split|].
  destruct (LoadAllEmbeddings st) as [[l|e] st']; now split.
Qed.

(** X27.  A result of [Match] is never below the thresholds: its
    relevance is not below [minRelevance], its similarity is not below
    [minSimilarity], and it is a result for the trend that was asked. *)
Theorem Match_result_above_thresholds (m m' : Matcher) (st st' : db.Store)
        (trend : db.Trend) (mr : MatchResult) :
  Match Embed Complete m st trend = Returned (Ok (Some mr), m', st') ->
  ltb (mr_RelevanceScore mr) (minRelevance m) = false
  /\ ltb (mr_VectorSimilarity mr) (minSimilarity m) = false
  /\ mr_Trend mr = trend.
Proof.
  unfold Match.
  set (first := match quoteStore m, vectorIndex m with
                | None, None => LoadIndex m st
                | _, _ => (Ok tt, m, st)
                end).
  assert (H0 : minSimilarity (snd (fst first)) = minSimilarity m
               /\ minRelevance (snd (fst first)) = minRelevance m).
  { subst first. destruct (quoteStore m), (vectorIndex m); try now split.
    apply LoadIndex_thresholds. }
  destruct first as [[loaded m1] st1]. cbn [fst snd] in H0.
  destruct H0 as [Hsim Hrel].
  destruct loaded as [[]|e]; [|discriminate].
  destruct (IndexSize m1 =? 0); [discriminate|].
  destruct (retrieve Embed m1 st1 trend) as [[res st2]|why] eqn:R; [|discriminate].
  destruct res as [[|c cs]|e]; try discriminate.
  apply retrieve_above in R.
  intros H.
  assert (S : select Complete m1 trend (c :: cs) = Ok (Some mr)) by congruence.
  apply select_some in S as (L & T & best & Hin & _ & Hv).
  rewrite <- Hrel, <- Hsim. split; [exact L|]. split; [|exact T].
  rewrite Hv. rewrite Forall_forall in R. now apply R.
Qed.

End Loading.

Section Prose.

Variable Complete : gostring -> gostring -> result gostring.

(** X28.  What is written around the object of a completion plays no
    part: a response with a balanced object after text without an
    opening brace is evaluated as the object alone is. *)
Theorem EvaluateBatch_ignores_prose (trend : db.Trend) (quotes : list db.Quote)
        (pre obj post : gostring) :
  selector_facts.braceless pre -> extract_facts.balanced_object obj ->
  Complete SelectionSystemPrompt (selector_facts.request trend quotes)
  = Ok (pre ++ obj ++ post) ->
  EvaluateBatch Complete trend quotes
  = EvaluateBatch (fun _ _ => Ok obj) trend quotes.
Proof.
  intros Hb Hobj HC.
  destruct quotes as [|q quotes]; [reflexivity|].
  rewrite (selector_facts.EvaluateBatch_answered Complete trend (q :: quotes)
             (pre ++ obj ++ post) ltac:(discriminate) HC).
  rewrite (selector_facts.EvaluateBatch_answered (fun _ _ => Ok obj) trend
             (q :: quotes) obj ltac:(discriminate) eq_refl).
  assert (E1 : selector_facts.located (pre ++ obj ++ post) = obj).
  { unfold selector_facts.located.
    rewrite (extract_facts.extractJSON_found pre obj post Hb Hobj).
    destruct Hobj as [[body ->] _]. reflexivity. }
  assert (E2 : selector_facts.located obj = obj).
  { unfold selector_facts.located.
    pose proof (extract_facts.extractJSON_found [] obj [] ltac:(constructor) Hobj)
      as K.
    rewrite app_nil_r in K. simpl in K. rewrite K.
    destruct Hobj as [[body ->] _]. reflexivity. }
  now rewrite E1, E2.
Qed.

End Prose.

End matcher_facts.

(* ================================================================== *)
(** * The text of a Bluesky post *)
(* ================================================================== *)

Module post_facts.

Import strings_facts poster poster_facts.

Lemma decode_before_ascii c0 t c post :
  byte_val c < 128 ->
  utf8.DecodeRuneInString (c0 :: t ++ c :: post) = utf8.DecodeRuneInString (c0 :: t)
  /\ (1 <= snd (utf8.DecodeRuneInString (c0 :: t)) <= S (List.length t))%nat.
Proof.
  intros Hc. unfold utf8.DecodeRuneInString.
  destruct (utf8.first (byte_val c0)) as [| |sz lo hi] eqn:Hf;
    try (split; [reflexivity | simpl; lia]).
  apply first_multi in Hf as [Hlo Hsz].
  assert (Hc1 : (byte_val c <? lo) = true) by (apply Z.ltb_lt; lia).
  assert (Hc2 : utf8.cont (byte_val c) = false).
  { unfold utf8.cont. apply andb_false_iff. left. apply Z.leb_gt. lia. }
  destruct Hsz as [-> | [-> | ->]]; destruct t as [|a [|b [|d t]]];
    cbn [app List.length Nat.ltb Nat.leb snd];
    rewrite ?Hc1, ?Hc2; cbn [orb negb];
    repeat match goal with
           | |- context [if ?x then _ else _] => destruct x
           end; cbn [snd]; split; try reflexivity; try lia.
Qed.

Lemma runes_before_ascii : forall n pre c post,
  (List.length pre <= n)%nat -> byte_val c < 128 ->
  utf8.runes (pre ++ c :: post) = utf8.runes pre ++ utf8.runes (c :: post).
Proof.
  induction n as [|n IH]; intros pre c post Hn Hc.
  - destruct pre; [reflexivity | simpl in Hn; lia].
  - destruct pre as [|c0 t]; [reflexivity|]. simpl in Hn.
    change ((c0 :: t) ++ c :: post) with (c0 :: (t ++ c :: post)).
    rewrite (runes_cons c0 (t ++ c :: post)), (runes_cons c0 t).
    destruct (decode_before_ascii c0 t c post Hc) as [E W]. rewrite E.
    destruct (utf8.DecodeRuneInString (c0 :: t)) as [r w]. cbn [snd] in W.
    destruct w as [|[|[|[|[|w]]]]];
      destruct t as [|a [|b [|d t]]]; cbn [List.length] in *; try lia;
      cbn [app]; try reflexivity;
      match goal with
      | |- _ :: utf8.runes ?X = _ :: utf8.runes ?Y ++ _ =>
        change X with (Y ++ c :: post);
        rewrite (IH Y c post) by (simpl in *; lia); reflexivity
      end.
Qed.

Lemma RuneCount_le_len : forall n s,
  (List.length s <= n)%nat -> (List.length (utf8.runes s) <= List.length s)%nat.
Proof.
  induction n as [|n IH]; intros s Hn.
  - destruct s; [simpl; lia | simpl in Hn; lia].
  - destruct s as [|c t]; [simpl; lia|]. simpl in Hn.
    destruct (runes_step c t) as (r & w & rest & Hshape & ->).
    assert (Hrest : (List.length rest <= List.length t)%nat).
    { inversion Hshape; subst; simpl; lia. }
    specialize (IH rest ltac:(lia)). simpl. lia.
Qed.

Lemma below_all (P : Z -> bool) (n : nat) :
  forallb (fun i => P (Z.of_nat i)) (seq 0 n) = true ->
  forall x, 0 <= x < Z.of_nat n -> P x = true.
Proof.
  intros H x Hx. rewrite forallb_forall in H.
  specialize (H (Z.to_nat x)). rewrite Z2Nat.id in H by lia.
  apply H. apply in_seq. lia.
Qed.

Lemma lor_high (k : Z) (n : nat) :
  forallb (fun i => Z.lor k (Z.of_nat i) =? k + Z.of_nat i) (seq 0 n) = true ->
  forall x, 0 <= x < Z.of_nat n -> Z.lor k x = k + x.
Proof.
  intros H x Hx. apply Z.eqb_eq.
  exact (below_all (fun x => Z.lor k x =? k + x) n H x Hx).
Qed.

Lemma land_63 r : 0 <= r -> Z.land r 63 = r mod 64.
Proof. intros H. change 63 with (Z.ones 6). now rewrite Z.land_ones by lia. Qed.

Lemma runes_two b0 b1 rest :
  utf8.first (byte_val b0) = utf8.LeadMulti 2 128 191 ->
  128 <= byte_val b1 <= 191 ->
  exists r, utf8.runes (b0 :: b1 :: rest) = r :: utf8.runes rest.
Proof.
  intros Hf H1. rewrite runes_cons. unfold utf8.DecodeRuneInString. rewrite Hf.
  cbn [List.length Nat.ltb Nat.leb].
  replace ((byte_val b1 <? 128) || (191 <? byte_val b1)) with false
    by (symmetry; apply orb_false_iff; split; apply Z.ltb_ge; lia).
  cbn. eexists. reflexivity.
Qed.

Lemma runes_three b0 b1 b2 rest lo hi :
  utf8.first (byte_val b0) = utf8.LeadMulti 3 lo hi ->
  lo <= byte_val b1 <= hi -> 128 <= byte_val b2 <= 191 ->
  exists r, utf8.runes (b0 :: b1 :: b2 :: rest) = r :: utf8.runes rest.
Proof.
  intros Hf H1 H2. rewrite runes_cons. unfold utf8.DecodeRuneInString. rewrite Hf.
  cbn [List.length Nat.ltb Nat.leb].
  replace ((byte_val b1 <? lo) || (hi <? byte_val b1)) with false
    by (symmetry; apply orb_false_iff; split; apply Z.ltb_ge; lia).
  replace (utf8.cont (byte_val b2)) with true
    by (symmetry; unfold utf8.cont; apply andb_true_iff; split; apply Z.leb_le; lia).
  cbn. eexists. reflexivity.
Qed.

Lemma runes_four b0 b1 b2 b3 rest lo hi :
  utf8.first (byte_val b0) = utf8.LeadMulti 4 lo hi ->
  lo <= byte_val b1 <= hi -> 128 <= byte_val b2 <= 191 ->
  128 <= byte_val b3 <= 191 ->
  exists r, utf8.runes (b0 :: b1 :: b2 :: b3 :: rest) = r :: utf8.runes rest.
Proof.
  intros Hf H1 H2 H3. rewrite runes_cons. unfold utf8.DecodeRuneInString.
  rewrite Hf. cbn [List.length Nat.ltb Nat.leb].
  replace ((byte_val b1 <? lo) || (hi <? byte_val b1)) with false
    by (symmetry; apply orb_false_iff; split; apply Z.ltb_ge; lia).
  replace (utf8.cont (byte_val b2)) with true
    by (symmetry; unfold utf8.cont; apply andb_true_iff; split; apply Z.leb_le; lia).
  replace (utf8.cont (byte_val b3)) with true
    by (symmetry; unfold utf8.cont; apply andb_true_iff; split; apply Z.leb_le; lia).
  cbn. eexists. reflexivity.
Qed.

Ltac first_by_cases :=
  unfold utf8.first;
  repeat match goal with
         | |- context [?a <? ?b] => destruct (Z.ltb_spec a b); try lia
         | |- context [?a =? ?b] => destruct (Z.eqb_spec a b); try lia
         end; try reflexivity.

Lemma first_lead2 b : 194 <= b < 224 -> utf8.first b = utf8.LeadMulti 2 128 191.
Proof. intros H. first_by_cases. Qed.

Lemma first_lead3 b :
  224 <= b < 240 ->
  utf8.first b = utf8.LeadMulti 3 (if b =? 224 then 160 else 128)
                                  (if b =? 237 then 159 else 191).
Proof.
  intros H.
  destruct (Z.eqb_spec b 224) as [->|N1]; [reflexivity|].
  destruct (Z.eqb_spec b 237) as [->|N2]; [reflexivity|].
  first_by_cases.
Qed.

Lemma first_lead4 b :
  240 <= b < 245 ->
  utf8.first b = utf8.LeadMulti 4 (if b =? 240 then 144 else 128)
                                  (if b =? 244 then 143 else 191).
Proof.
  intros H.
  destruct (Z.eqb_spec b 240) as [->|N1]; [reflexivity|].
  destruct (Z.eqb_spec b 244) as [->|N2]; [reflexivity|].
  first_by_cases.
Qed.

Lemma cont_byte x : 0 <= x < 64 -> 128 <= byte_val (byte_of (Z.lor 128 x)) <= 191.
Proof.
  intros H.
  rewrite (lor_high 128 64 ltac:(vm_compute; reflexivity) x H).
  rewrite byte_val_of by lia. lia.
Qed.

Lemma runes_encoded r rest :
  exists r', utf8.runes (utf8.EncodeRune r ++ rest) = r' :: utf8.runes rest.
Proof.
  unfold utf8.EncodeRune.
  destruct ((0 <=? r) && (r <=? 127)) eqn:E1.
  { apply andb_true_iff in E1 as [A B]. apply Z.leb_le in A, B.
    exists r. simpl app. rewrite runes_ascii_cons; rewrite byte_val_of; try lia.
    reflexivity. }
  destruct ((0 <=? r) && (r <=? 2047)) eqn:E2.
  { apply andb_true_iff in E2 as [A B]. apply Z.leb_le in A, B.
    assert (128 <= r).
    { apply andb_false_iff in E1 as [E1|E1]; [apply Z.leb_gt in E1 | apply Z.leb_gt in E1]; lia. }
    cbn [app]. rewrite Z.shiftr_div_pow2, land_63 by lia. change (2 ^ 6) with 64.
    assert (H0 : 2 <= r / 64 < 32)
      by (split; [apply Z.div_le_lower_bound | apply Z.div_lt_upper_bound]; lia).
    apply runes_two.
    - rewrite (lor_high 192 32 ltac:(vm_compute; reflexivity)) by lia.
      rewrite byte_val_of by lia. apply first_lead2. lia.
    - apply cont_byte. apply Z.mod_pos_bound. lia. }
  destruct ((r <? 0) || (utf8.MaxRune <? r) || ((55296 <=? r) && (r <=? 57343))) eqn:E3.
  { eexists. reflexivity. }
  apply orb_false_iff in E3 as [E3 E4]. apply orb_false_iff in E3 as [E3 E5].
  apply Z.ltb_ge in E3, E5. unfold utf8.MaxRune in E5.
  assert (Hr : 2048 <= r).
  { apply andb_false_iff in E2 as [E2|E2]; apply Z.leb_gt in E2; lia. }
  assert (Hs : r < 55296 \/ 57343 < r).
  { apply andb_false_iff in E4 as [E4|E4]; apply Z.leb_gt in E4; lia. }
  destruct (r <=? 65535) eqn:E6.
  - apply Z.leb_le in E6. unfold utf8.enc3. cbn [app].
    rewrite !Z.shiftr_div_pow2, !land_63 by (try apply Z.div_pos; lia).
    change (2 ^ 6) with 64. change (2 ^ 12) with 4096.
    assert (H0 : 0 <= r / 4096 < 16)
      by (split; [apply Z.div_pos | apply Z.div_lt_upper_bound]; lia).
    rewrite (lor_high 224 16 ltac:(vm_compute; reflexivity)) by lia.
    eapply runes_three.
    + rewrite byte_val_of by lia. apply first_lead3. lia.
    + rewrite (lor_high 128 64 ltac:(vm_compute; reflexivity))
        by (apply Z.mod_pos_bound; lia).
      rewrite byte_val_of
        by (pose proof (Z.mod_pos_bound (r / 64) 64 ltac:(lia)); lia).
      pose proof (Z.mod_pos_bound (r / 64) 64 ltac:(lia)).
      destruct (Z.eqb_spec (224 + r / 4096) 224);
        destruct (Z.eqb_spec (224 + r / 4096) 237);
        Z.div_mod_to_equations; lia.
    + apply cont_byte. apply Z.mod_pos_bound. lia.
  - apply Z.leb_gt in E6. cbn [app].
    rewrite !Z.shiftr_div_pow2, !land_63 by (try apply Z.div_pos; lia).
    change (2 ^ 6) with 64. change (2 ^ 12) with 4096. change (2 ^ 18) with 262144.
    assert (H0 : 0 <= r / 262144 < 5)
      by (split; [apply Z.div_pos | apply Z.div_lt_upper_bound]; lia).
    rewrite (lor_high 240 8 ltac:(vm_compute; reflexivity)) by lia.
    eapply runes_four.
    + rewrite byte_val_of by lia. apply first_lead4. lia.
    + rewrite (lor_high 128 64 ltac:(vm_compute; reflexivity))
        by (apply Z.mod_pos_bound; lia).
      rewrite byte_val_of
        by (pose proof (Z.mod_pos_bound (r / 4096) 64 ltac:(lia)); lia).
      pose proof (Z.mod_pos_bound (r / 4096) 64 ltac:(lia)).
      destruct (Z.eqb_spec (240 + r / 262144) 240);
        destruct (Z.eqb_spec (240 + r / 262144) 244);
        Z.div_mod_to_equations; lia.
    + apply cont_byte. apply Z.mod_pos_bound. lia.
    + apply cont_byte. apply Z.mod_pos_bound. lia.
Qed.


Lemma count_encoded rs rest :
  List.length (utf8.runes (utf8.string_of_runes rs ++ rest))
  = (List.length rs + List.length (utf8.runes rest))%nat.
Proof.
  induction rs as [|r rs IH]; [reflexivity|].
  unfold utf8.string_of_runes in *. cbn [flat_map].
  rewrite <- app_assoc.
  destruct (runes_encoded r (flat_map utf8.EncodeRune rs ++ rest)) as [r' ->].
  simpl. now rewrite IH.
Qed.

Lemma count_before_ascii pre c post :
  byte_val c < 128 ->
  utf8.RuneCountInString (pre ++ c :: post)
  = utf8.RuneCountInString pre + utf8.RuneCountInString (c :: post).
Proof.
  intros H. unfold utf8.RuneCountInString, len.
  rewrite (runes_before_ascii _ pre c post (le_n _) H), length_app. lia.
Qed.

Lemma count_nonneg s : 0 <= utf8.RuneCountInString s.
Proof. unfold utf8.RuneCountInString, len. lia. Qed.

Lemma cutset_ascii c : strings.in_cutset cutset c = true -> byte_val c < 128.
Proof.
  unfold strings.in_cutset, cutset. simpl.
  repeat (rewrite orb_true_iff; intros [H|H];
          [apply Ascii.eqb_eq in H; subst c; vm_compute; reflexivity | revert H]).
  discriminate.
Qed.

Lemma count_TrimRight s :
  utf8.RuneCountInString (strings.TrimRight s cutset) <= utf8.RuneCountInString s.
Proof.
  destruct (TrimRight_split s cutset) as (trimmed & Hs & Hall).
  destruct trimmed as [|c trimmed].
  - rewrite app_nil_r in Hs. rewrite <- Hs. lia.
  - simpl in Hall. apply andb_true_iff in Hall as [Hc _].
    apply cutset_ascii in Hc.
    rewrite Hs at 2. rewrite (count_before_ascii _ c trimmed Hc).
    pose proof (count_nonneg (c :: trimmed)). lia.
Qed.

Lemma count_to_last_space s :
  0 <= strings.LastIndex s (str " ") ->
  utf8.RuneCountInString (firstn (Z.to_nat (strings.LastIndex s (str " "))) s)
  <= utf8.RuneCountInString s.
Proof.
  intros H. destruct (LastIndex_found s (str " ") H) as [rest Hrest].
  pose proof (firstn_skipn (Z.to_nat (strings.LastIndex s (str " "))) s) as E.
  rewrite Hrest in E. change (str " " ++ rest) with (" "%char :: rest) in E.
  pose proof (count_before_ascii
                (firstn (Z.to_nat (strings.LastIndex s (str " "))) s)
                " "%char rest ltac:(vm_compute; reflexivity)) as G.
  rewrite E in G.
  pose proof (count_nonneg (" "%char :: rest)). lia.
Qed.

Lemma TruncateQuote_count quote maxLen attribution r :
  - 2 ^ 63 <= available maxLen attribution < 2 ^ 62 ->
  TruncateQuote quote maxLen attribution = Returned r ->
  utf8.RuneCountInString r <= available maxLen attribution + 3.
Proof.
  intros Hav. unfold TruncateQuote. cbv zeta.
  set (av := available maxLen attribution) in *.
  assert (Hadd : add64 av 3 = av + 3).
  { unfold add64, wrap64. rewrite Z.mod_small by lia. lia. }
  rewrite Hadd.
  change (len (utf8.runes quote)) with (utf8.RuneCountInString quote).
  destruct (utf8.RuneCountInString quote <=? av + 3) eqn:E1.
  { apply Z.leb_le in E1. intros H. injection H as <-. exact E1. }
  destruct (utf8.RuneCountInString quote <=? av) eqn:E2.
  { apply Z.leb_le in E2. intros H. injection H as <-. lia. }
  destruct (av <? 0) eqn:E3; [discriminate|]. apply Z.ltb_ge in E3.
  intros H. injection H as <-.
  set (T := utf8.string_of_runes (firstn (Z.to_nat av) (utf8.runes quote))).
  assert (HT : utf8.RuneCountInString T <= av).
  { unfold utf8.RuneCountInString, len, T.
    rewrite <- (app_nil_r (utf8.string_of_runes _)), count_encoded.
    rewrite length_firstn. simpl. lia. }
  set (T' := if Z.quot av 2 <? strings.LastIndex T (str " ")
             then firstn (Z.to_nat (strings.LastIndex T (str " "))) T else T).
  assert (HT' : utf8.RuneCountInString T' <= av).
  { unfold T'. destruct (Z.quot av 2 <? strings.LastIndex T (str " ")) eqn:E4;
      [|exact HT].
    apply Z.ltb_lt in E4.
    assert (0 <= Z.quot av 2) by (apply Z.quot_pos; lia).
    pose proof (count_to_last_space T ltac:(lia)). lia. }
  change (str "...") with ("."%char :: str "..").
  rewrite count_before_ascii by (vm_compute; reflexivity).
  pose proof (count_TrimRight T').
  change (utf8.RuneCountInString (strings.TrimRight T' cutset) + 3 <= av + 3).
  lia.
Qed.

Lemma count_ascii_cons c t :
  byte_val c < 128 ->
  utf8.RuneCountInString (c :: t) = 1 + utf8.RuneCountInString t.
Proof.
  intros H. unfold utf8.RuneCountInString, len.
  rewrite runes_ascii_cons by exact H. cbn [List.length]. lia.
Qed.

Lemma count_emdash t :
  utf8.RuneCountInString (emdash ++ t) = 1 + utf8.RuneCountInString t.
Proof.
  unfold utf8.RuneCountInString, len.
  destruct (runes_three (byte_of 226) (byte_of 128) (byte_of 148) t 128 191)
    as [r Hr]; [reflexivity | vm_compute; split; discriminate
               | vm_compute; split; discriminate |].
  change (emdash ++ t) with (byte_of 226 :: byte_of 128 :: byte_of 148 :: t).
  rewrite Hr. cbn [List.length]. lia.
Qed.

Lemma FormatQuote_count quote book :
  utf8.RuneCountInString (FormatQuote quote book [])
  = utf8.RuneCountInString quote + 6 + utf8.RuneCountInString book.
Proof.
  unfold FormatQuote.
  change (negb (gostring_eqb [] []) && negb (gostring_eqb [] (str "Narrator")))
    with false.
  cbv iota.
  change (dq ++ quote ++ dq ++ str (String "010" (String "010" EmptyString))
             ++ emdash ++ str " " ++ book)
    with (ascii_of_nat 34 :: (quote ++ ascii_of_nat 34 :: "010"%char :: "010"%char
                                :: (emdash ++ " "%char :: book))).
  rewrite count_ascii_cons by (vm_compute; reflexivity).
  rewrite count_before_ascii by (vm_compute; reflexivity).
  rewrite !count_ascii_cons by (vm_compute; reflexivity).
  rewrite count_emdash.
  rewrite count_ascii_cons by (vm_compute; reflexivity).
  lia.
Qed.

Lemma TruncateQuote_panic_budget quote maxLen attribution why :
  TruncateQuote quote maxLen attribution = Panicked why ->
  available maxLen attribution < 0.
Proof.
  unfold TruncateQuote. cbv zeta.
  destruct (_ <=? add64 _ 3); [discriminate|].
  destruct (_ <=? available _ _); [discriminate|].
  destruct (available maxLen attribution <? 0) eqn:E; [|discriminate].
  intros _. now apply Z.ltb_lt in E.
Qed.

Lemma available_bluesky book :
  len book < 2 ^ 62 ->
  available BlueskyMaxLength (emdash ++ str " " ++ book) = 288 - len book.
Proof.
  intros H. assert (0 <= len book) by (unfold len; lia).
  unfold available, BlueskyMaxLength, sub64, add64, wrap64.
  replace (len (emdash ++ str " " ++ book)) with (4 + len book)
    by (unfold len; rewrite !length_app; simpl List.length; lia).
  rewrite (Z.mod_small (4 + _ + 2 ^ 63)) by lia.
  replace (4 + (4 + len book) + 2 ^ 63 - 2 ^ 63 + 4 + 2 ^ 63)
    with (len book + 12 + 2 ^ 63) by lia.
  rewrite (Z.mod_small (len book + 12 + 2 ^ 63)) by lia.
  rewrite Z.mod_small by lia. lia.
Qed.

Lemma wrap64_small x : - 2 ^ 63 <= x < 2 ^ 63 -> wrap64 x = x.
Proof. intros H. unfold wrap64. rewrite Z.mod_small by lia. lia. Qed.

Lemma available_exact maxLen attribution :
  0 <= maxLen < 2 ^ 62 -> len attribution < 2 ^ 62 ->
  available maxLen attribution = maxLen - len attribution - 8.
Proof.
  intros Hm Ha. assert (0 <= len attribution) by (unfold len; lia).
  unfold available, sub64, add64.
  rewrite (wrap64_small (4 + _)) by lia.
  rewrite (wrap64_small (4 + _ + 4)) by lia.
  rewrite wrap64_small by lia. lia.
Qed.

(** The quote as [FormatQuote] frames it, before an attribution. *)
Definition framed (quote attribution : gostring) : gostring :=
  dq ++ quote ++ dq ++ str (String "010" (String "010" EmptyString))
     ++ attribution.

Lemma framed_count quote attribution :
  utf8.RuneCountInString (framed quote attribution)
  = utf8.RuneCountInString quote + 4 + utf8.RuneCountInString attribution.
Proof.
  unfold framed.
  change (dq ++ quote ++ dq ++ str (String "010" (String "010" EmptyString))
             ++ attribution)
    with (ascii_of_nat 34 :: (quote ++ ascii_of_nat 34 :: "010"%char :: "010"%char
                                :: attribution)).
  rewrite count_ascii_cons by (vm_compute; reflexivity).
  rewrite count_before_ascii by (vm_compute; reflexivity).
  rewrite !count_ascii_cons by (vm_compute; reflexivity).
  lia.
Qed.

Lemma count_le_len s : utf8.RuneCountInString s <= len s.
Proof.
  pose proof (RuneCount_le_len _ s (le_n _)).
  unfold utf8.RuneCountInString, len. lia.
Qed.

Lemma FormatQuote_framed quote book :
  FormatQuote quote book [] = framed quote (emdash ++ str " " ++ book).
Proof. reflexivity. Qed.

(** X23.  For a limit below 2^62: [TruncateQuote] returns the quote as it
    is when its runes, the bytes of the attribution and five more fit the
    limit; a longer quote is shortened to a text that ends in three dots,
    when the attribution leaves room for it.  In both cases the quote,
    framed with the attribution as [FormatQuote] frames it, has fewer
    runes than the limit.  It panics exactly when the quote is too long
    and the attribution takes more than the limit less eight bytes. *)
Theorem TruncateQuote_fits (quote : gostring) (maxLen : Z)
        (attribution : gostring) :
  0 <= maxLen < 2 ^ 62 -> len attribution < 2 ^ 62 ->
  match TruncateQuote quote maxLen attribution with
  | Returned r =>
    utf8.RuneCountInString (framed r attribution) < maxLen
    /\ (utf8.RuneCountInString quote + len attribution + 5 <= maxLen ->
        r = quote)
    /\ (maxLen < utf8.RuneCountInString quote + len attribution + 5 ->
        len attribution + 8 <= maxLen /\ exists kept, r = kept ++ str "...")
  | Panicked _ =>
    maxLen < len attribution + 8
    /\ maxLen < utf8.RuneCountInString quote + len attribution + 5
  end.
Proof.
  intros Hm Ha.
  pose proof (available_exact maxLen attribution Hm Ha) as Hav.
  pose proof (count_le_len attribution) as Hc.
  assert (Hn : 0 <= len attribution) by (unfold len; lia).
  pose proof (count_nonneg quote) as Hq.
  destruct (TruncateQuote quote maxLen attribution) as [r|why] eqn:T.
  - split.
    { apply TruncateQuote_count in T; [|rewrite Hav; lia].
      rewrite framed_count. lia. }
    revert T. unfold TruncateQuote. cbv zeta. rewrite Hav.
    unfold add64. rewrite wrap64_small by lia.
    change (len (utf8.runes quote)) with (utf8.RuneCountInString quote).
    destruct (_ <=? maxLen - len attribution - 8 + 3) eqn:E1.
    { apply Z.leb_le in E1. intros K. injection K as <-.
      split; [reflexivity | lia]. }
    apply Z.leb_gt in E1.
    destruct (_ <=? maxLen - len attribution - 8) eqn:E2;
      [apply Z.leb_le in E2; lia|].
    destruct (maxLen - len attribution - 8 <? 0) eqn:E3; [discriminate|].
    apply Z.ltb_ge in E3. intros K. injection K as <-.
    split; [lia|]. intros _. split; [lia | eexists; reflexivity].
  - revert T. unfold TruncateQuote. cbv zeta. rewrite Hav.
    unfold add64. rewrite wrap64_small by lia.
    change (len (utf8.runes quote)) with (utf8.RuneCountInString quote).
    destruct (_ <=? maxLen - len attribution - 8 + 3) eqn:E1; [discriminate|].
    apply Z.leb_gt in E1.
    destruct (_ <=? maxLen - len attribution - 8) eqn:E2; [discriminate|].
    destruct (maxLen - len attribution - 8 <? 0) eqn:E3; [|discriminate].
    apply Z.ltb_lt in E3. intros _. lia.
Qed.

(** X29.  The text that [BlueskyPoster.Post] puts in the record never has
    more than 300 runes, whatever the content; building it panics only for
    a book title of more than 288 bytes. *)
Theorem record_text_fits (content : scheduler.PostContent) :
  len (scheduler.pc_SourceBook content) < 2 ^ 62 ->
  match bluesky.record_text content with
  | Returned text => utf8.RuneCountInString text <= BlueskyMaxLength
  | Panicked _ => 288 < len (scheduler.pc_SourceBook content)
  end.
Proof.
  intros Hb. unfold bluesky.record_text.
  set (text := match scheduler.pc_Text content with [] => _ | _ :: _ => _ end).
  unfold FitsInLimit.
  destruct (utf8.RuneCountInString text <=? BlueskyMaxLength) eqn:F.
  { apply Z.leb_le in F. exact F. }
  cbn [negb].
  pose proof (available_bluesky _ Hb) as Hav.
  assert (Hn : 0 <= len (scheduler.pc_SourceBook content)) by (unfold len; lia).
  destruct (TruncateQuote _ _ _) as [truncated|why] eqn:T.
  - apply TruncateQuote_count in T; [|rewrite Hav; lia].
    rewrite Hav in T. rewrite FormatQuote_count.
    pose proof (RuneCount_le_len _ (scheduler.pc_SourceBook content) (le_n _)).
    unfold BlueskyMaxLength, utf8.RuneCountInString, len in *. lia.
  - apply TruncateQuote_panic_budget in T. rewrite Hav in T. lia.
Qed.

End post_facts.

(* ================================================================== *)
(** * The properties on the bot of the scenario *)
(* ================================================================== *)

Module examples.

Import scheduler scenario.

(** A post for the trend of the scenario. *)
Definition new_post : db.CreatePostParams :=
  {| db.cp_QuoteID := 1; db.cp_Platform := str "bluesky";
     db.cp_PlatformPostID := Some (str "p1"); db.cp_PostUrl := None;
     db.cp_TrendID := Some 1; db.cp_TrendTitle := str "On burnout";
     db.cp_TrendSource := str "hackernews"; db.cp_TrendHash := str "ab";
     db.cp_RelevanceScore := float.of_decimal 53 1024 false 75 (-2);
     db.cp_RelevanceReasoning := None;
     db.cp_VectorSimilarity := float.of_decimal 53 1024 false 9 (-1) |}.

Definition new_trend : db.CreateTrendParams :=
  {| db.ct_Source := str "reddit"; db.ct_ExternalID := Some (str "t3_abc");
     db.ct_Title := str "Why we stay late"; db.ct_Url := None;
     db.ct_Description := None; db.ct_Score := Some 40 |}.

Definition story : monitor.Trend :=
  {| monitor.Source := str "hackernews"; monitor.ExternalID := str "8863";
     monitor.Title := str "On burnout"; monitor.URL := [];
     monitor.Description := []; monitor.Score := 120 |}.

Definition unreachable (content : PostContent) : result PostResult :=
  Err (errorString "create record failed").

Definition chatty (system user : gostring) : result gostring :=
  Ok (str "Sure: " ++ (str "{" ++ quoted "best_match_index" ++ str ": 0}")
      ++ str " Done.").

Definition long_quote : PostContent :=
  {| pc_Text := []; pc_QuoteText := repeat "a"%char 400;
     pc_SourceBook := str "Crime and Punishment";
     pc_TrendTitle := str "On burnout" |}.

Lemma marked_trend_not_listed_witness :
  db.UpdateTrendMatched (store_with []) 1
  = (Ok tt, snd (db.UpdateTrendMatched (store_with []) 1))
  /\ match db.ListUnmatchedTrends (sorter := sort_facts.StableSorter)
           (snd (db.UpdateTrendMatched (store_with []) 1)) 10 with
     | (Ok l, _) => Forall (fun t => db.Trend_ID t <> 1) l
     | (Err _, _) => True
     end.
Proof.
  split; [reflexivity|].
  apply (db_facts.marked_trend_not_listed (sorter := sort_facts.StableSorter)
           (store_with []) _ 1 10).
  right. reflexivity.
Defined.

Lemma CreatePost_counts_witness :
  db.CountPostsToday (store_with []) (str "bluesky") = (Ok 1, store_with [])
  /\ exists st2,
       db.CountPostsToday (snd (db.CreatePost (store_with []) new_post))
                          (str "bluesky")
       = (Ok 2, st2).
Proof.
  split; [reflexivity|].
  eassert (E : db.CreatePost (store_with []) new_post = (Ok _, _))
    by (vm_compute; reflexivity).
  exact (db_facts.CreatePost_counts (store_with []) _ new_post _ E eq_refl).
Defined.

Lemma CreateTrend_then_Get_witness :
  exists st2,
    db.GetTrendBySourceAndExternalID
      (snd (db.CreateTrend (store_with []) new_trend))
      (str "reddit") (Some (str "t3_abc"))
    = (fst (db.CreateTrend (store_with []) new_trend), st2).
Proof.
  eassert (E : db.CreateTrend (store_with []) new_trend = (Ok _, _))
    by (vm_compute; reflexivity).
  exact (fetch_facts.CreateTrend_then_Get (store_with []) _ new_trend _
           (str "t3_abc") E eq_refl eq_refl).
Defined.

Lemma runPostCycle_failed_post_witness :
  match runPostCycle (sorter := sort_facts.StableSorter) digest embed complete
          unreachable (bot [Some (errorString "database is locked")]) with
  | Panicked _ => True
  | Returned s' =>
    db.posts (store s') = [earlier_post]
    /\ db.quotes (store s') = [pain]
    /\ lastPost s' = None
    /\ map db.Matched (db.trends (store s')) = [Some false]
  end.
Proof.
  apply (cycle_facts.runPostCycle_failed_post
           (sorter := sort_facts.StableSorter) digest embed complete
           unreachable (bot [Some (errorString "database is locked")])).
  intros content. reflexivity.
Defined.

Lemma HashTrend_shape_witness :
  List.length (monitor.HashTrend digest story) = 32%nat
  /\ Forall trend_facts.is_lower_hex (monitor.HashTrend digest story).
Proof.
  apply (trend_facts.HashTrend_shape digest story).
  intros data. reflexivity.
Defined.

Lemma embedding_round_trip_witness :
  matcher.BytesToEmbedding
    (matcher.EmbeddingToBytes [float.of_decimal 24 128 false 9 (-1); float.zero])
  = Ok [float.of_decimal 24 128 false 9 (-1); float.zero]
  /\ len (matcher.EmbeddingToBytes
            [float.of_decimal 24 128 false 9 (-1); float.zero])
     = 4 * len [float.of_decimal 24 128 false 9 (-1); float.zero].
Proof.
  apply (codec_facts.embedding_round_trip
           [float.of_decimal 24 128 false 9 (-1); float.zero]).
  repeat constructor.
Defined.

Lemma Match_result_above_thresholds_witness :
  exists mr m' st',
    matcher.Match (sorter := sort_facts.StableSorter) embed complete
                  (matcher (bot [])) (store_with []) burnout
    = Returned (Ok (Some mr), m', st')
    /\ float.ltb (matcher.mr_RelevanceScore mr)
                 (matcher.minRelevance (matcher (bot []))) = false
    /\ float.ltb (matcher.mr_VectorSimilarity mr)
                 (matcher.minSimilarity (matcher (bot []))) = false
    /\ matcher.mr_Trend mr = burnout.
Proof.
  eassert (E : matcher.Match (sorter := sort_facts.StableSorter) embed complete
                 (matcher (bot [])) (store_with []) burnout
               = Returned (Ok (Some _), _, _)) by (vm_compute; reflexivity).
  eexists _, _, _. split; [exact E|].
  exact (matcher_facts.Match_result_above_thresholds
           (sorter := sort_facts.StableSorter) embed complete
           _ _ _ _ _ _ E).
Defined.

Lemma EvaluateBatch_ignores_prose_witness :
  matcher.EvaluateBatch chatty burnout [pain]
  = matcher.EvaluateBatch
      (fun _ _ => Ok (str "{" ++ quoted "best_match_index" ++ str ": 0}"))
      burnout [pain].
Proof.
  apply (matcher_facts.EvaluateBatch_ignores_prose chatty burnout [pain]
           (str "Sure: ") (str "{" ++ quoted "best_match_index" ++ str ": 0}")
           (str " Done.")).
  - unfold selector_facts.braceless. repeat constructor.
  - exact (proj1 (extract_facts.balanced_of_closing
                    (quoted "best_match_index" ++ str ": 0}") 22%nat eq_refl)).
  - reflexivity.
Defined.

Lemma TruncateQuote_fits_witness :
  match poster.TruncateQuote (pc_QuoteText long_quote) 300
          (poster.emdash ++ str " Crime and Punishment") with
  | Returned r =>
    utf8.RuneCountInString
      (post_facts.framed r (poster.emdash ++ str " Crime and Punishment")) < 300
    /\ (utf8.RuneCountInString (pc_QuoteText long_quote)
        + len (poster.emdash ++ str " Crime and Punishment") + 5 <= 300 ->
        r = pc_QuoteText long_quote)
    /\ (300 < utf8.RuneCountInString (pc_QuoteText long_quote)
              + len (poster.emdash ++ str " Crime and Punishment") + 5 ->
        len (poster.emdash ++ str " Crime and Punishment") + 8 <= 300
        /\ exists kept, r = kept ++ str "...")
  | Panicked _ =>
    300 < len (poster.emdash ++ str " Crime and Punishment") + 8
    /\ 300 < utf8.RuneCountInString (pc_QuoteText long_quote)
              + len (poster.emdash ++ str " Crime and Punishment") + 5
  end.
Proof.
  apply (post_facts.TruncateQuote_fits (pc_QuoteText long_quote) 300
           (poster.emdash ++ str " Crime and Punishment")).
  - lia.
  - vm_compute. reflexivity.
Defined.

Lemma record_text_fits_witness :
  match bluesky.record_text long_quote with
  | Returned text => utf8.RuneCountInString text <= poster.BlueskyMaxLength
  | Panicked _ => 288 < len (pc_SourceBook long_quote)
  end.
Proof.
  apply (post_facts.record_text_fits long_quote).
  vm_compute. reflexivity.
Defined.

End examples.
